(** * hll_rcon_tool: the extended RCON commands ([rcon/extended_commands.py])

    A shallow embedding of the log parser ([Rcon.parse_logs]), the
    scoreboard ([Rcon.get_scoreboard]), the VIP list reader
    ([Rcon.get_vip_ids]), the map rotation reconciler
    ([Rcon.set_maprotation]) and the cache invalidation protocol of the
    mutating commands, with the properties the specification states about
    them.  The other commands of the module that work on text follow them:
    the lists of players, administrators and bans, the next map, the
    shuffling of the rotation, the profanities, the team kill board and the
    slots, with properties read off the code.

    Python [str] values are modelled by [string]: a sequence of characters
    whose code points are below 256.  On that range [\d] is [0-9], and the
    white space of [\s] and [str.strip] is the set of [isspace] below. *)

From Stdlib Require Import Ascii String NArith ZArith QArith Lia.
From stdpp Require Import base option list strings gmap sets sorting pretty.

Close Scope Q_scope.

Local Open Scope N_scope.
Local Open Scope nat_scope.

(** ** Python string operations *)

Module PyStr.

Definition LF : ascii := "010"%char.
Definition DQUOTE : ascii := "034"%char.

Definition code (c : ascii) : N := N_of_ascii c.

(** [c.isdigit()] / the class [\d] *)
Definition isdigit (c : ascii) : bool :=
  ((48 <=? code c) && (code c <=? 57))%N.

(** [c.isspace()] / the class [\s] *)
Definition isspace (c : ascii) : bool :=
  let n := code c in
  (((9 <=? n) && (n <=? 13)) || ((28 <=? n) && (n <=? 32))
   || (n =? 133) || (n =? 160))%N.

(** [s.upper()], one character at a time.  The two letters whose capital
    lies above code point 255 (181 and 255) are left as they are: the
    result is only ever compared with ASCII keywords. *)
Definition upper_char (c : ascii) : string :=
  let n := code c in
  if ((97 <=? n) && (n <=? 122))%N then String (ascii_of_N (n - 32)) ""
  else if (n =? 223)%N then "SS"
  else if ((224 <=? n) && (n <=? 254) && negb (n =? 247))%N
       then String (ascii_of_N (n - 32)) ""
  else String c "".

Fixpoint upper (s : string) : string :=
  match s with
  | "" => ""
  | String c s' => upper_char c +:+ upper s'
  end.

(** [s.lower()] *)
Definition lower_char (c : ascii) : ascii :=
  let n := code c in
  if ((65 <=? n) && (n <=? 90))%N then ascii_of_N (n + 32)
  else if ((192 <=? n) && (n <=? 222) && negb (n =? 215))%N
       then ascii_of_N (n + 32)
  else c.

Fixpoint lower (s : string) : string :=
  match s with
  | "" => ""
  | String c s' => String (lower_char c) (lower s')
  end.

(** [s.startswith(p)] *)
Definition startswith (s p : string) : bool := String.prefix p s.

(** [sub in s] *)
Fixpoint contains (sub s : string) : bool :=
  String.prefix sub s
  || match s with
     | "" => false
     | String _ s' => contains sub s'
     end.

(** [s[n:]] *)
Fixpoint skip (n : nat) (s : string) : string :=
  match n, s with
  | O, _ => s
  | S _, "" => ""
  | S k, String _ s' => skip k s'
  end.

(** [s[:n]] *)
Fixpoint take (n : nat) (s : string) : string :=
  match n, s with
  | O, _ => ""
  | S _, "" => ""
  | S k, String c s' => String c (take k s')
  end.

(** [s.split(sep, 1)] when it has two parts: the text before and after the
    first occurrence of [sep]; [None] when [sep] does not occur, where
    Python returns the one-element list [[s]]. *)
Fixpoint split1 (sep s : string) : option (string * string) :=
  if String.prefix sep s then Some ("", skip (String.length sep) s)
  else match s with
       | "" => None
       | String c s' =>
           match split1 sep s' with
           | Some (a, b) => Some (String c a, b)
           | None => None
           end
       end.

(** [s.rsplit(sep, 1)] when it has two parts: split at the last
    occurrence of [sep]. *)
Fixpoint rsplit1 (sep s : string) : option (string * string) :=
  match s with
  | "" => None
  | String c s' =>
      match rsplit1 sep s' with
      | Some (a, b) => Some (String c a, b)
      | None =>
          if String.prefix sep s then Some ("", skip (String.length sep) s)
          else None
      end
  end.

(** [s.split(sep)]: every piece between the occurrences of [sep], found
    from left to right without overlap.  [pending] counts the characters
    of a separator just found that are still to be passed over. *)
Fixpoint split_go (sep : string) (pending : nat) (cur s : string)
  : list string :=
  match s with
  | "" => [cur]
  | String c s' =>
      match pending with
      | S k => split_go sep k cur s'
      | O =>
          if String.prefix sep s
          then cur :: split_go sep (String.length sep - 1) "" s'
          else split_go sep 0 (cur +:+ String c "") s'
      end
  end.

Definition split (sep s : string) : list string := split_go sep 0 "" s.

(** [s.replace(c, "")] for a one-character [c] *)
Fixpoint remove_char (c : ascii) (s : string) : string :=
  match s with
  | "" => ""
  | String d s' =>
      if Ascii.eqb c d then remove_char c s' else String d (remove_char c s')
  end.

Fixpoint lstrip (s : string) : string :=
  match s with
  | "" => ""
  | String c s' => if isspace c then lstrip s' else s
  end.

Fixpoint rstrip (s : string) : string :=
  match s with
  | "" => ""
  | String c s' =>
      match rstrip s' with
      | "" => if isspace c then "" else String c ""
      | t => String c t
      end
  end.

(** [s.strip()] *)
Definition strip (s : string) : string := rstrip (lstrip s).

(** [int(s)] for a string of decimal digits *)
Definition digit_val (c : ascii) : N := (code c - 48)%N.

Fixpoint int_go (acc : N) (s : string) : N :=
  match s with
  | "" => acc
  | String c s' => int_go (10 * acc + digit_val c)%N s'
  end.

Definition int (s : string) : N := int_go 0%N s.

End PyStr.

(** ** Regular expressions

    The fragment of Python's [re] the module uses: literals, the classes
    [.], [\d] and [\s], greedy [*] and [+] over a class, concatenation,
    alternation and numbered groups.  [run r s caps] lists the ways [r]
    matches a prefix of [s], in the order a backtracking matcher tries
    them; [re.match] takes the first. *)

Module Re.

Inductive cls := Dot | Digit | Space.

Definition cls_test (c : cls) (a : ascii) : bool :=
  match c with
  | Dot => negb (Ascii.eqb a PyStr.LF)
  | Digit => PyStr.isdigit a
  | Space => PyStr.isspace a
  end.

Inductive regex :=
| Lit (s : string)
| One (c : cls)
| Star (c : cls)
| Plus (c : cls)
| Seq (r1 r2 : regex)
| Alt (r1 r2 : regex)
| Grp (n : nat) (r : regex).

Declare Scope re_scope.
Delimit Scope re_scope with re.
Bind Scope re_scope with regex.
Infix "·" := Seq (at level 41, right associativity) : re_scope.

(** the groups of a match: [groups()[n-1]] is [caps !! n] *)
Abbreviation captures := (list (option string)).

(** an outcome: the text consumed, the groups, the text left *)
Definition outcome : Type := string * captures * string.

(** every way to consume characters of class [p] from [s], longest first *)
Fixpoint star_runs (p : ascii -> bool) (s : string) : list (string * string) :=
  match s with
  | "" => [("", "")]
  | String c s' =>
      if p c
      then map (fun '(a, b) => (String c a, b)) (star_runs p s') ++ [("", s)]
      else [("", s)]
  end.

Definition nonempty_run (x : string * string) : bool :=
  match fst x with "" => false | _ => true end.

Fixpoint run (r : regex) (s : string) (caps : captures) : list outcome :=
  match r with
  | Lit l =>
      if String.prefix l s
      then [(l, caps, PyStr.skip (String.length l) s)] else []
  | One c =>
      match s with
      | String a s' => if cls_test c a then [(String a "", caps, s')] else []
      | "" => []
      end
  | Star c => map (fun '(a, b) => (a, caps, b)) (star_runs (cls_test c) s)
  | Plus c =>
      map (fun '(a, b) => (a, caps, b))
          (filter (fun x => nonempty_run x = true) (star_runs (cls_test c) s))
  | Seq r1 r2 =>
      flat_map (fun '(a1, caps1, s1) =>
                  map (fun '(a2, caps2, s2) => (a1 +:+ a2, caps2, s2))
                      (run r2 s1 caps1))
               (run r1 s caps)
  | Alt r1 r2 => run r1 s caps ++ run r2 s caps
  | Grp n r =>
      map (fun '(a, caps', s') => (a, <[n := Some a]> caps', s'))
          (run r s caps)
  end.

(** [re.match(r, s)] for a pattern with [n] groups: the groups of the
    first match, index 0 being the whole match *)
Definition rmatch (n : nat) (r : regex) (s : string) : option captures :=
  match run (Grp 0 r) s (replicate (S n) None) with
  | (_, caps, _) :: _ => Some caps
  | [] => None
  end.

(** [m.group(n)] *)
Definition group (caps : captures) (n : nat) : option string :=
  match caps !! n with
  | Some g => g
  | None => None
  end.

(** *** What a pattern says of its groups, read off its syntax *)

(** [touches r n]: [r] holds the group [n] *)
Fixpoint touches (r : regex) (n : nat) : bool :=
  match r with
  | Seq r1 r2 | Alt r1 r2 => touches r1 n || touches r2 n
  | Grp m r' => (m =? n) || touches r' n
  | _ => false
  end.

(** [consumes r S]: whatever [r] matches is one of the texts [S] *)
Fixpoint consumes (r : regex) (S : list string) : bool :=
  match r with
  | Lit l => bool_decide (l ∈ S)
  | Alt r1 r2 => consumes r1 S && consumes r2 S
  | Grp _ r' => consumes r' S
  | _ => false
  end.

(** [sets r n S]: after any match of [r], group [n] is one of the texts
    [S] *)
Fixpoint sets (r : regex) (n : nat) (S : list string) : bool :=
  match r with
  | Grp m r' => if m =? n then consumes r' S else sets r' n S
  | Seq r1 r2 => sets r2 n S || (sets r1 n S && negb (touches r2 n))
  | Alt r1 r2 => sets r1 n S && sets r2 n S
  | _ => false
  end.

End Re.

(** ** Exceptions that leave a call *)

Inductive exn :=
| AttributeError
| ValueError
| KeyError
| TypeError
| CommandFailedError (msg : string).

Inductive result (A : Type) :=
| Ok (a : A)
| Raise (e : exn).
Arguments Ok {A} a.
Arguments Raise {A} e.

(** a Python value that is a [str] or [None] *)
Abbreviation pystr := (option string).

(** [str(x)] inside an f-string *)
Definition fmt (x : pystr) : string := default "None" x.

(** [bool(x)] of a [str] or [None] *)
Definition truthy (x : pystr) : bool :=
  match x with
  | Some (String _ _) => true
  | _ => false
  end.

(** ** The log parser *)

Definition STEAMID : string := "steam_id_64".
Definition NAME : string := "name".

Definition LOG_ACTIONS : list string :=
  [ "DISCONNECTED"; "CHAT[Allies]"; "CHAT[Axis]"; "CHAT[Allies][Unit]";
    "KILL"; "CONNECTED"; "CHAT[Allies][Team]"; "CHAT[Axis][Team]";
    "CHAT[Axis][Unit]"; "CHAT"; "VOTE COMPLETED"; "VOTE STARTED"; "VOTE";
    "TEAMSWITCH"; "TK"; "TK KICKED"; "TK BANNED FOR 2 HOURS"; "MATCH";
    "MATCH START"; "MATCH ENDED" ].

Module Patterns.
Import Re.
Local Open Scope re_scope.

(** [log_time_regexp], source line 60: anything, a parenthesised run of
    digits (group 1), anything *)
Definition log_time_regexp : regex :=
  Star Dot · Lit "(" · Grp 1 (Plus Digit) · Lit ")" · Star Dot.

(** [chat_regexp], source lines 54-56; groups: 1 scope (2 Team, 3 Unit),
    4 player, 5 side (6 Allies, 7 Axis), 8 steam id, 9 message *)
Definition chat_regexp : regex :=
  Lit "CHAT[" · Grp 1 (Alt (Grp 2 (Lit "Team")) (Grp 3 (Lit "Unit")))
  · Lit "][" · Grp 4 (Star Dot) · Lit "("
  · Grp 5 (Alt (Grp 6 (Lit "Allies")) (Grp 7 (Lit "Axis")))
  · Lit "/" · Grp 8 (Plus Digit) · Lit ")]: " · Grp 9 (Star Dot).

(** [player_info_regexp], source line 58; groups: 1 player, 2 side
    (3 Allies, 4 Axis), 5 steam id *)
Definition player_info_regexp : regex :=
  Grp 1 (Star Dot) · Lit "("
  · Grp 2 (Alt (Grp 3 (Lit "Allies")) (Grp 4 (Lit "Axis")))
  · Lit "/" · Grp 5 (Plus Digit) · Lit ")".

(** [player_info_pattern] followed by " -> " *)
Definition kill_split_regexp : regex := player_info_regexp · Lit " -> ".

(** the pattern of source line 865; groups: 1 initiator, 2 target *)
Definition vote_started_regexp : regex :=
  Lit "VOTE Player [" · Grp 1 (Star Dot) · Lit "]" · Star Dot
  · Lit " against [" · Grp 2 (Star Dot) · Lit "]. VoteID: ["
  · Plus Digit · Lit "]".

(** the pattern of source line 871; group 1: the voter *)
Definition voted_regexp : regex :=
  Lit "VOTE Player [" · Grp 1 (Star Dot) · Lit "] voted" · Star Dot.

(** the pattern of source line 877; group 1: the target *)
Definition vote_kick_regexp : regex :=
  Lit "VOTE Vote Kick {" · Grp 1 (Star Dot) · Lit "}" · Star Dot.

(** the pattern of source line 887; groups: 1 observer, 2 steam id *)
Definition camera_regexp : regex :=
  Lit "[" · Grp 1 (Star Dot) · One Space · Lit "(" · Grp 2 (Plus Digit)
  · Lit ")]".

(** the pattern of source line 895; groups: 1 player, 2 the switch
    (3 from, 4 to) *)
Definition teamswitch_regexp : regex :=
  Lit "TEAMSWITCH" · One Space · Grp 1 (Star Dot) · One Space · Lit "("
  · Grp 2 (Grp 3 (Star Dot) · One Space · Lit ">" · One Space
           · Grp 4 (Star Dot))
  · Lit ")".

(** the pattern of source line 902; groups: 1 player, 2 the sentence,
    3 the sanction (4 KICKED, 5 BANNED FOR 2 HOURS); the dot after
    "kicked" is unescaped in the source and matches any character *)
Definition tk_kick_regexp : regex :=
  Lit "KICK:" · One Space · Lit "[" · Grp 1 (Star Dot) · Lit "]"
  · One Space
  · Grp 2 (Lit "has been kicked" · One Dot · Lit " ["
           · Grp 3 (Alt (Grp 4 (Lit "KICKED"))
                        (Grp 5 (Lit "BANNED FOR 2 HOURS")))
           · Lit " FOR TEAM KILLING!]").

(** [re.split(r, s, 1)] for a pattern with [n] groups, when [r] is found:
    the text before the leftmost match, the groups, the text after.
    [None] when [r] is not found, where Python returns [[s]]. *)
Fixpoint split_at (n : nat) (r : regex) (before s : string)
  : option (string * captures * string) :=
  match run (Grp 0 r) s (replicate (S n) None) with
  | (_, caps, after) :: _ => Some (before, caps, after)
  | [] =>
      match s with
      | "" => None
      | String c s' => split_at n r (before +:+ String c "") s'
      end
  end.

End Patterns.

(** A [datetime] is represented by the instant it denotes, counted in
    microseconds since the epoch. *)
Definition datetime := Z.
Bind Scope Z_scope with datetime.

Record event := {
  version : nat;
  timestamp_ms : Z;
  (** the float [(time - now).total_seconds() * 1000], kept exactly: the
      difference counted in microseconds *)
  relative_time_ms : Z;
  raw : string;
  line_without_time : string;
  action : pystr;
  player : pystr;
  steam_id_64_1 : pystr;
  player2 : pystr;
  steam_id_64_2 : pystr;
  weapon : pystr;
  message : string;
  sub_content : pystr;
}.

(** the local variables of one iteration of the loop of [parse_logs] *)
Record vars := {
  v_action : pystr;
  v_player : pystr;
  v_player2 : pystr;
  v_weapon : pystr;
  v_steam_id_64_1 : pystr;
  v_steam_id_64_2 : pystr;
  v_content : string;
  v_sub_content : pystr;
}.

Record LogBatch := {
  actions : list pystr;
  players : list pystr;
  logs : list event;
}.

Section Parser.
Import PyStr Patterns.

(** [datetime.fromtimestamp] raises on an epoch the platform cannot
    represent (time_t range, year above 9999); [representable] says which
    epochs it accepts. *)
Variable representable : N -> bool.

(** [datetime.timestamp] of the local time that [fromtimestamp] made looks
    the instant up again through the local time of the platform, and raises
    when that search leaves the years 1 to 9999 (east of Greenwich, in the
    last hours of the year 9999) or the range of the clock of the platform.
    [timestamp_error] gives the exception it raises, if any. *)
Variable timestamp_error : datetime -> option exn.

Definition fromtimestamp (n : N) : option datetime :=
  if representable n then Some (1000000 * Z.of_N n)%Z else None.

(** [Rcon._extract_time]; [None] when it raises *)
Definition _extract_time (time_str : string) : option datetime :=
  groups ← Re.rmatch 1 log_time_regexp time_str;
  digits ← Re.group groups 1;
  fromtimestamp (int digits).

Definition in_set (x : pystr) (l : list string) : bool :=
  match x with
  | Some a => bool_decide (a ∈ l)
  | None => false
  end.

(** The [if]/[elif] chain of the loop body, from the assignment of the
    defaults to the end of the chain.  [None]: the line is left, by the
    [continue] of the last branch or by an exception, which the bare
    [except] turns into a [continue]. *)
Definition dispatch (rest : string) : option vars :=
  if startswith rest "DISCONNECTED" || startswith rest "CONNECTED" then
    '(a, c) ← split1 " " rest;
    Some {| v_action := Some a; v_player := None; v_player2 := None;
            v_weapon := None; v_steam_id_64_1 := None;
            v_steam_id_64_2 := None; v_content := c;
            v_sub_content := None |}
  else if startswith rest "KILL" || startswith rest "TEAM KILL" then
    '(a, c) ← split1 ": " rest;
    Some {| v_action := Some a; v_player := None; v_player2 := None;
            v_weapon := None; v_steam_id_64_1 := None;
            v_steam_id_64_2 := None; v_content := c;
            v_sub_content := None |}
  else if startswith rest "CHAT" then
    groups ← Re.rmatch 9 chat_regexp rest;
    let scope := Re.group groups 1 in
    let side := Re.group groups 5 in
    let player := Re.group groups 4 in
    let steam_id_64_1 := Re.group groups 8 in
    let sub_content := Re.group groups 9 in
    Some {| v_action := Some ("CHAT[" +:+ fmt side +:+ "][" +:+ fmt scope
                              +:+ "]");
            v_player := player; v_player2 := None; v_weapon := None;
            v_steam_id_64_1 := steam_id_64_1; v_steam_id_64_2 := None;
            v_content := fmt player +:+ ": " +:+ fmt sub_content +:+ " ("
                         +:+ fmt steam_id_64_1 +:+ ")";
            v_sub_content := sub_content |}
  else if startswith rest "VOTE" then
    '(action, player, player2) ←
      (if startswith rest "VOTE Player" && contains " against " (lower rest)
       then
         groups ← Re.rmatch 2 vote_started_regexp rest;
         Some (Some "VOTE STARTED", Re.group groups 1, Re.group groups 2)
       else if startswith rest "VOTE Player" && contains "voted" (lower rest)
       then
         groups ← Re.rmatch 1 voted_regexp rest;
         Some (Some "VOTE", Re.group groups 1, None)
       else if contains "completed" (lower rest) then
         Some (Some "VOTE COMPLETED", None, None)
       else if contains "kick" (lower rest) then
         groups ← Re.rmatch 1 vote_kick_regexp rest;
         Some (Some "VOTE COMPLETED", Re.group groups 1, None)
       else Some (Some "VOTE", Some "", None));
    tail ← last (split "VOTE" rest);
    Some {| v_action := action; v_player := player; v_player2 := player2;
            v_weapon := None; v_steam_id_64_1 := None;
            v_steam_id_64_2 := None; v_content := tail;
            v_sub_content := Some tail |}
  else if startswith (upper rest) "PLAYER" then
    '(_, content) ← split1 " " rest;
    match Re.rmatch 2 camera_regexp content with
    | Some groups =>
        '(_, sub_content) ← rsplit1 "]" content;
        Some {| v_action := Some "CAMERA"; v_player := Re.group groups 1;
                v_player2 := None; v_weapon := None;
                v_steam_id_64_1 := Re.group groups 2;
                v_steam_id_64_2 := None; v_content := content;
                v_sub_content := Some sub_content |}
    | None =>
        Some {| v_action := Some "CAMERA"; v_player := None;
                v_player2 := None; v_weapon := None;
                v_steam_id_64_1 := None; v_steam_id_64_2 := None;
                v_content := content; v_sub_content := None |}
    end
  else if startswith (upper rest) "TEAMSWITCH" then
    match Re.rmatch 4 teamswitch_regexp rest with
    | Some groups =>
        Some {| v_action := Some "TEAMSWITCH";
                v_player := Re.group groups 1; v_player2 := None;
                v_weapon := None; v_steam_id_64_1 := None;
                v_steam_id_64_2 := None; v_content := rest;
                v_sub_content := Re.group groups 2 |}
    | None =>
        Some {| v_action := Some "TEAMSWITCH"; v_player := None;
                v_player2 := None; v_weapon := None;
                v_steam_id_64_1 := None; v_steam_id_64_2 := None;
                v_content := rest; v_sub_content := None |}
    end
  else if startswith (upper rest) "KICK"
          && contains "FOR TEAM KILLING" rest then
    match Re.rmatch 5 tk_kick_regexp rest with
    | Some groups =>
        Some {| v_action := Some ("TK " +:+ fmt (Re.group groups 3));
                v_player := Re.group groups 1; v_player2 := None;
                v_weapon := None; v_steam_id_64_1 := None;
                v_steam_id_64_2 := None; v_content := rest;
                v_sub_content := Re.group groups 2 |}
    | None =>
        (* only [logger.error]: [action] keeps its default, [None] *)
        Some {| v_action := None; v_player := None; v_player2 := None;
                v_weapon := None; v_steam_id_64_1 := None;
                v_steam_id_64_2 := None; v_content := rest;
                v_sub_content := None |}
    end
  else if startswith (upper rest) "MATCH START" then
    match split "MATCH START " rest with
    | [_; sub_content] =>
        Some {| v_action := Some "MATCH START"; v_player := None;
                v_player2 := None; v_weapon := None;
                v_steam_id_64_1 := None; v_steam_id_64_2 := None;
                v_content := rest; v_sub_content := Some sub_content |}
    | _ => None
    end
  else if startswith (upper rest) "MATCH ENDED" then
    match split "MATCH ENDED " rest with
    | [_; sub_content] =>
        Some {| v_action := Some "MATCH ENDED"; v_player := None;
                v_player2 := None; v_weapon := None;
                v_steam_id_64_1 := None; v_steam_id_64_2 := None;
                v_content := rest; v_sub_content := Some sub_content |}
    | _ => None
    end
  else None.

(** [if action in {"CONNECTED", "DISCONNECTED"}: player = content] *)
Definition connection_fields (v : vars) : vars :=
  if in_set (v_action v) ["CONNECTED"; "DISCONNECTED"]
  then {| v_action := v_action v; v_player := Some (v_content v);
          v_player2 := v_player2 v; v_weapon := v_weapon v;
          v_steam_id_64_1 := v_steam_id_64_1 v;
          v_steam_id_64_2 := v_steam_id_64_2 v; v_content := v_content v;
          v_sub_content := v_sub_content v |}
  else v.

(** [if action in {"KILL", "TEAM KILL"}: ...] *)
Definition kill_fields (v : vars) : option vars :=
  if in_set (v_action v) ["KILL"; "TEAM KILL"] then
    '(_, parts, player2) ← split_at 5 kill_split_regexp "" (v_content v);
    '(player2, weapon) ← rsplit1 " with " player2;
    groups ← Re.rmatch 5 player_info_regexp player2;
    Some {| v_action := v_action v; v_player := Re.group parts 1;
            v_player2 := Re.group groups 1; v_weapon := Some weapon;
            v_steam_id_64_1 := Re.group parts 5;
            v_steam_id_64_2 := Re.group groups 5;
            v_content := v_content v; v_sub_content := v_sub_content v |}
  else Some v.

(** The body of the [try] for one non-empty line: the time, the rest of
    the line and the variables as they stand when the players and the
    action are recorded.  [None]: the line is left without a trace. *)
Definition parse_line (line : string) : option (datetime * string * vars) :=
  '(time, rest) ← split1 "] " line;
  time ← _extract_time (skip 1 time);
  v ← dispatch rest;
  v ← kill_fields (connection_fields v);
  Some (time, rest, v).

(** The dict appended to [res], built after the [try] and the filters: an
    exception of [time.timestamp()] leaves [parse_logs]. *)
Definition make_event (now : datetime) (line : string)
  (p : datetime * string * vars) : result event :=
  let '(time, rest, v) := p in
  match timestamp_error time with
  | Some e => Raise e
  | None =>
      Ok {| version := 1;
            timestamp_ms := (time / 1000)%Z;
            relative_time_ms := (time - now)%Z;
            raw := line;
            line_without_time := rest;
            action := v_action v;
            player := v_player v;
            steam_id_64_1 := v_steam_id_64_1 v;
            player2 := v_player2 v;
            steam_id_64_2 := v_steam_id_64_2 v;
            weapon := v_weapon v;
            message := v_content v;
            sub_content := v_sub_content v |}
  end.

(** The three accumulators of [parse_logs].  The two Python sets are finite
    sets; [list(s)] is [elements s], the members of [s] once each, in an
    order of its own. *)
Record acc := {
  res : list event;
  seen_actions : gset pystr;
  seen_players : gset pystr;
}.

(** What the two filters decide for a parsed line: [Ok true] to append the
    event, [Ok false] to [continue].  With an action filter set,
    [action.startswith] raises when [action] is [None]. *)
Definition passes (filter_action filter_player : pystr) (line : string)
  (v : vars) : result bool :=
  let player_test :=
    match filter_player with
    | Some (String _ _ as f) =>
        if negb (contains f line) then Ok false else Ok true
    | _ => Ok true
    end in
  match filter_action with
  | Some (String _ _ as f) =>
      match v_action v with
      | None => Raise AttributeError
      | Some a => if negb (startswith a f) then Ok false else player_test
      end
  | _ => player_test
  end.

(** The loop of [parse_logs] over the lines.  What the [try] raises makes
    the loop go on to the next line; what the filters or the making of the
    event raise, after the [try], leaves the loop and [parse_logs]. *)
Fixpoint parse_loop (now : datetime) (filter_action filter_player : pystr)
  (lines : list string) (st : acc) : result acc :=
  match lines with
  | [] => Ok st
  | line :: lines' =>
      match line with
      | "" => parse_loop now filter_action filter_player lines' st
      | _ =>
          match parse_line line with
          | None => parse_loop now filter_action filter_player lines' st
          | Some ((_, _, v) as p) =>
              let st' :=
                {| res := res st;
                   seen_actions := seen_actions st ∪ {[ v_action v ]};
                   seen_players :=
                     seen_players st ∪ {[ v_player v ]} ∪ {[ v_player2 v ]} |}
              in
              match passes filter_action filter_player line v with
              | Raise e => Raise e
              | Ok false =>
                  parse_loop now filter_action filter_player lines' st'
              | Ok true =>
                  match make_event now line p with
                  | Raise e => Raise e
                  | Ok e =>
                      parse_loop now filter_action filter_player lines'
                        {| res := res st' ++ [e];
                           seen_actions := seen_actions st';
                           seen_players := seen_players st' |}
                  end
              end
          end
      end
  end.

(** [Rcon.parse_logs]; [now] is what [datetime.now()] returns *)
Definition parse_logs (now : datetime) (raw : string)
  (filter_action filter_player : pystr) : result LogBatch :=
  match parse_loop now filter_action filter_player
          (split (String LF "") raw)
          {| res := []; seen_actions := ∅; seen_players := ∅ |} with
  | Raise e => Raise e
  | Ok st =>
      Ok {| actions := elements (seen_actions st) ++ (Some <$> LOG_ACTIONS);
            players := elements (seen_players st);
            logs := reverse (res st) |}
  end.

End Parser.

(** *** Notions the statements about the parser use *)

(** the lines of a blob: [raw.split("\n")] *)
Definition log_lines (raw : string) : list string :=
  PyStr.split (String PyStr.LF "") raw.

(** The closed vocabulary of actions of the data model (specification,
    section 3), the side of a chat being Allies or Axis and its scope Team
    or Unit. *)
Definition vocabulary : list string :=
  [ "CONNECTED"; "DISCONNECTED"; "KILL"; "TEAM KILL";
    "CHAT[Allies][Team]"; "CHAT[Allies][Unit]";
    "CHAT[Axis][Team]"; "CHAT[Axis][Unit]";
    "VOTE"; "VOTE STARTED"; "VOTE COMPLETED"; "CAMERA"; "TEAMSWITCH";
    "TK KICKED"; "TK BANNED FOR 2 HOURS"; "MATCH START"; "MATCH ENDED" ].

(** the keywords whose lines give their leading token as the action *)
Definition token_keywords : list string :=
  [ "CONNECTED"; "DISCONNECTED"; "KILL"; "TEAM KILL" ].

(** an action of the vocabulary, or a token that begins with one of the
    keywords above *)
Definition known_action (a : string) : Prop :=
  a ∈ vocabulary \/ exists k, k ∈ token_keywords /\ PyStr.startswith a k = true.

(** the event a line contributes to the result, if any *)
Definition emit (representable : N -> bool)
  (timestamp_error : datetime -> option exn) (now : datetime)
  (filter_action filter_player : pystr) (line : string) : option event :=
  match parse_line representable line with
  | Some p =>
      match passes filter_action filter_player line (snd p) with
      | Ok true =>
          match make_event timestamp_error now line p with
          | Ok e => Some e
          | Raise _ => None
          end
      | _ => None
      end
  | None => None
  end.

(** the exception a line makes [parse_logs] raise, if any: that of the
    action filter on a line left without an action, or that of
    [time.timestamp()] on a line the filters let through *)
Definition line_error (representable : N -> bool)
  (timestamp_error : datetime -> option exn)
  (filter_action filter_player : pystr) (line : string) : option exn :=
  match parse_line representable line with
  | Some p =>
      match passes filter_action filter_player line (snd p) with
      | Raise e => Some e
      | Ok true => timestamp_error (fst (fst p))
      | Ok false => None
      end
  | None => None
  end.

(** the actions and the players the lines record *)
Definition line_actions (representable : N -> bool) (lines : list string)
  : list pystr :=
  omap (fun line => (fun p => v_action (snd p)) <$> parse_line representable line)
       lines.

Definition line_players (representable : N -> bool) (lines : list string)
  : list pystr :=
  lines ≫= (fun line =>
              match parse_line representable line with
              | Some p => [v_player (snd p); v_player2 (snd p)]
              | None => []
              end).

(** an event seen from a clock that is [d] microseconds behind *)
Definition shift (d : Z) (e : event) : event :=
  {| version := version e;
     timestamp_ms := timestamp_ms e;
     relative_time_ms := (relative_time_ms e + d)%Z;
     raw := raw e;
     line_without_time := line_without_time e;
     action := action e;
     player := player e;
     steam_id_64_1 := steam_id_64_1 e;
     player2 := player2 e;
     steam_id_64_2 := steam_id_64_2 e;
     weapon := weapon e;
     message := message e;
     sub_content := sub_content e |}.

(** ** Sorting

    Python's [sorted] is a stable sort; it is modelled by its contract,
    realised as an insertion sort.  [le x y] says that the key of [x] is at
    most the key of [y]; [sorted(l, key=k, reverse=True)] is
    [sorted (fun x y => le y x) l]: reversed order, ties still in the order
    of [l]. *)

Section Sorting.
Context {A : Type} (le : A -> A -> bool).

Fixpoint insert_sorted (x : A) (l : list A) : list A :=
  match l with
  | [] => [x]
  | y :: l' => if le x y then x :: l else y :: insert_sorted x l'
  end.

Definition sorted (l : list A) : list A := foldr insert_sorted [] l.

(** [x] and [y] have the same key *)
Definition tied (x y : A) : bool := le x y && le y x.

(** [l'] is [l] sorted by the key, greatest first, the elements that have
    the same key in the order they have in [l] *)
Definition sorted_desc (l l' : list A) : Prop :=
  l' ≡ₚ l
  /\ StronglySorted (fun a b => le b a = true) l'
  /\ forall x, List.filter (tied x) l' = List.filter (tied x) l.
End Sorting.

(** ** The scoreboard *)

Section Scoreboard.
(** Python floats (without NaN, which no division below yields), the true
    division of two integers, the order of floats and ["%.2f" % x] *)
Variable float : Type.
Variable fdiv : nat -> nat -> float.
Variable fle : float -> float -> bool.
Variable fmt2 : float -> string.

(** an entry of the scoreboard before the ratio is formatted; the keys of
    the dict are "player", "(real) kills", "(real) death" and "ratio" *)
Record score := {
  sc_player : string;
  real_kills : nat;
  real_death : nat;
  ratio : float;
}.

(** the entry as returned, the ratio formatted *)
Record score_row := {
  row_player : string;
  row_kills : nat;
  row_death : nat;
  row_ratio : string;
}.

Definition format_row (o : score) : score_row :=
  {| row_player := sc_player o; row_kills := real_kills o;
     row_death := real_death o; row_ratio := fmt2 (ratio o) |}.

(** the inner loop: the kills and deaths of [p] over the events *)
Fixpoint tally (p : string) (events : list event) (kills death : nat)
  : nat * nat :=
  match events with
  | [] => (kills, death)
  | log :: events' =>
      if bool_decide (player log = Some p) then tally p events' (S kills) death
      else if bool_decide (player2 log = Some p)
           then tally p events' kills (S death)
      else tally p events' kills death
  end.

(** the outer loop: one entry per player with a kill or a death *)
Fixpoint board (names : list pystr) (events : list event) : list score :=
  match names with
  | [] => []
  | Some (String _ _ as p) :: names' =>
      let '(kills, death) := tally p events 0 0 in
      if (kills =? 0) && (death =? 0) then board names' events
      else {| sc_player := p; real_kills := kills; real_death := death;
              ratio := fdiv kills (Nat.max death 1) |}
           :: board names' events
  | _ :: names' => board names' events
  end.

(** [o[sort] <= o'[sort]]; [None] when [sort] is not a key of the dict *)
Definition key_le (sort : string) : option (score -> score -> bool) :=
  if bool_decide (sort = "player")
  then Some (fun a b => String.leb (sc_player a) (sc_player b))
  else if bool_decide (sort = "(real) kills")
  then Some (fun a b => real_kills a <=? real_kills b)
  else if bool_decide (sort = "(real) death")
  then Some (fun a b => real_death a <=? real_death b)
  else if bool_decide (sort = "ratio")
  then Some (fun a b => fle (ratio a) (ratio b))
  else None.

(** [Rcon.get_scoreboard], from the batch that
    [get_structured_logs(minutes, "KILL")] returned.  The key function of
    [sorted] raises [KeyError] on the first entry when [sort] is not a
    key. *)
Definition get_scoreboard (batch : LogBatch) (sort : string)
  : result (list score_row) :=
  let scoreboard := board (players batch) (logs batch) in
  match scoreboard, key_le sort with
  | [], _ => Ok []
  | _ :: _, None => Raise KeyError
  | _ :: _, Some le =>
      Ok (format_row <$> sorted (fun a b => le b a) scoreboard)
  end.

(** every entry of the board is a named player with a kill or a death,
    its counts those of the inner loop and its ratio their quotient *)
Definition entry_ok (events : list event) (o : score) : Prop :=
  (real_kills o, real_death o) = tally (sc_player o) events 0 0
  /\ ~ (real_kills o = 0 /\ real_death o = 0)
  /\ ratio o = fdiv (real_kills o) (Nat.max (real_death o) 1).

End Scoreboard.

Arguments sc_player {float} _.
Arguments real_kills {float} _.
Arguments real_death {float} _.
Arguments ratio {float} _.

(** ** The VIP list *)

Record vip := {
  steam_id_64 : string;
  name : string;
}.

(** the body of the loop of [get_vip_ids] for one item of the reply *)
Definition parse_vip (item : string) : result vip :=
  match PyStr.split1 " " item with
  | Some (sid, nm) =>
      Ok {| steam_id_64 := sid;
            name := PyStr.strip
                      (PyStr.remove_char PyStr.LF
                         (PyStr.remove_char PyStr.DQUOTE nm)) |}
  | None => Raise ValueError
  end.

Fixpoint parse_vips (res : list string) : result (list vip) :=
  match res with
  | [] => Ok []
  | item :: res' =>
      match parse_vip item with
      | Raise e => Raise e
      | Ok v =>
          match parse_vips res' with
          | Raise e => Raise e
          | Ok l => Ok (v :: l)
          end
      end
  end.

Definition name_le (a b : vip) : bool := String.leb (name a) (name b).

(** [Rcon.get_vip_ids], from the reply [res] of the remote command *)
Definition get_vip_ids (res : list string) : result (list vip) :=
  match parse_vips res with
  | Raise e => Raise e
  | Ok l => Ok (sorted name_le l)
  end.

(** the order of the names of a list of records *)
Definition by_name (l : list vip) : Prop :=
  StronglySorted (fun a b => String.leb (name a) (name b) = true) l.

(** ** The map rotation *)

(** the two remote commands [set_maprotation] issues *)
Inductive op :=
| Add (m : string)
| Remove (m : string).

(** Modelled from the spec: the effect of the two commands on the rotation
    of the remote server, which [rcon.commands.ServerCtl] only forwards.
    Adding a map puts it at the end of the rotation; removing a map takes
    its first occurrence out. *)
Fixpoint remove_first (m : string) (l : list string) : list string :=
  match l with
  | [] => []
  | x :: l' => if bool_decide (x = m) then l' else x :: remove_first m l'
  end.

(** the effect of a command on the rotation of the server *)
Definition apply_op (l : list string) (o : op) : list string :=
  match o with
  | Add m => l ++ [m]
  | Remove m => remove_first m l
  end.

(** the rotation after a sequence of commands *)
Definition apply_ops (l : list string) (ops : list op) : list string :=
  foldl apply_op l ops.

(** the rotation after each command of a sequence *)
Fixpoint states (l : list string) (ops : list op) : list (list string) :=
  match ops with
  | [] => []
  | o :: ops' => apply_op l o :: states (apply_op l o) ops'
  end.

(** one iteration of the loop over [enumerate(rotation)] when the current
    rotation is a single map *)
Definition single_map_step (current : list string) (idx : nat) (m : string)
  : list op :=
  (if bool_decide (m ∉ current) then [Add m] else [])
  ++ (if bool_decide (m ∈ current) && negb (idx =? 0)
      then [Remove m; Add m] else []).

(** [Rcon.set_maprotation]: the value returned and the commands sent, in
    order, given the rotation [current] that [get_map_rotation] returned.
    After the loop of the single-map case, [m] is the last map of
    [rotation]. *)
Definition set_maprotation (current rotation : list string)
  : result (list string * list op) :=
  match rotation with
  | [] => Raise (CommandFailedError "Empty rotation")
  | first :: rest =>
      if bool_decide (rotation = current) then Ok (current, [])
      else if length current =? 1 then
        let loop := concat (imap (single_map_step current) rotation) in
        let m := List.last rotation first in
        let after :=
          match current with
          | c :: _ => if bool_decide (c ∉ rotation) then [Remove m] else []
          | [] => []
          end in
        Ok (rotation, loop ++ after)
      else
        let to_remove : gset string := list_to_set current ∖ {[ first ]} in
        Ok (first :: rest,
            (if bool_decide (to_remove = list_to_set current)
             then [Add first] else [])
            ++ (Remove <$> elements to_remove)
            ++ (Add <$> rest))
  end.

(** ** The cache protocol *)

Module Cached.

(** the commands of the parent class [ServerCtl] that the mutating
    operations send to the remote server, with their arguments *)
Inductive command :=
| DoAddAdmin (steam_id_64 role name : string)
| DoRemoveAdmin (steam_id_64 : string)
| DoRemoveVip (steam_id_64 : string)
| DoAddVip (steam_id_64 name : string)
| SetMap (map_name : string)
| SetTeamSwitchCooldown (minutes : Z)
| SetAutobalanceThreshold (max_diff : Z)
| SetIdleAutokickTime (minutes : Z)
| SetMaxPingAutokick (max_ms : Z)
| SetQueueLength (num : Z)
| SetVipSlotsNum (num : Z)
| SetAutobalanceEnabled (value : string)
| SetVotekickEnabled (value : string)
| SetVotekickThreshold (threshold_pairs : string)
| DoResetVotekickThreshold
| DoUnbanProfanities (profanities : string)
| DoBanProfanities (profanities : string)
| DoKick (player reason : string)
| DoTempBan (player steam_id_64 : pystr) (duration_hours : Z)
    (reason admin_name : string)
| DoRemoveTempBan (ban_log : string)
| DoRemovePermaBan (ban_log : string)
| DoPermaBan (player steam_id_64 : pystr) (reason admin_name : string)
| DoRemoveMapFromRotation (map_name : string)
| DoAddMapToRotation (map_name : string).

Section Cache.
(** the state of the remote server, and the cached values that no
    operation below looks into *)
Variable remote : Type.
Variable other : Type.

(** a cached value: the list of strings that [get_profanities] and
    [get_map_rotation] return, or another Python object *)
Inductive value :=
| Strings (l : list string)
| Other (o : other).

(** what the process holds: the cached values with the time they expire
    at, the remote server, and the number of reads that went through to
    the remote server so far *)
Record world := {
  cache : gmap string (value * N);
  server : remote;
  reads : nat;
}.

(** A method of the class: from the state it is called in, it returns or
    raises, and leaves a state. *)
Definition M (A : Type) : Type := world -> result A * world.

#[global] Instance M_ret : MRet M := fun A a w => (Ok a, w).

#[global] Instance M_bind : MBind M :=
  fun A B f m w =>
    match m w with
    | (Ok a, w') => f a w'
    | (Raise e, w') => (Raise e, w')
    end.

Definition raise {A : Type} (e : exn) : M A := fun w => (Raise e, w).

(** a call of the remote server, which leaves the cache alone *)
Definition remotely {A : Type} (f : remote -> result A * remote) : M A :=
  fun w =>
    let '(r, s) := f (server w) in
    (r, {| cache := cache w; server := s; reads := reads w |}).

(** [for x in l: f(x)], left at the first call that raises *)
Fixpoint for_each_ {A B : Type} (f : A -> M B) (l : list A) : M unit :=
  match l with
  | [] => mret tt
  | x :: l' => f x ;; for_each_ f l'
  end.

(** calls made one after the other, their results dropped *)
Definition run_calls {A : Type} (calls : list (M A)) : M unit :=
  for_each_ id calls.

(** Modelled from the spec: the call through of the decorator [ttl_cache]
    of [rcon.cache_utils], which is not part of the sources at hand.  The
    decorated method is called, and its result is stored under the key
    with the time it expires at and returned; a call that raises stores
    nothing. *)
Definition call_through (key : string) (ttl : N) (fetch : M value) (now : N)
  : M value :=
  fun w =>
    match fetch w with
    | (Ok v, w') =>
        (Ok v, {| cache := <[ key := (v, now + ttl)%N ]> (cache w');
                  server := server w';
                  reads := S (reads w') |})
    | (Raise e, w') =>
        (Raise e, {| cache := cache w'; server := server w';
                     reads := S (reads w') |})
    end.

(** Modelled from the spec: the decorator [ttl_cache] of
    [rcon.cache_utils], which is not part of the sources at hand.  A read
    within the time to live of a stored value returns it without a remote
    call; any other read calls through. *)
Definition ttl_cache (key : string) (ttl : N) (fetch : M value) (now : N)
  : M value :=
  fun w =>
    match cache w !! key with
    | Some (v, expiry) =>
        if (now <? expiry)%N then (Ok v, w)
        else call_through key ttl fetch now w
    | None => call_through key ttl fetch now w
    end.

(** Modelled from the spec: the context manager [invalidates] of
    [rcon.cache_utils], which is not part of the sources at hand.  The
    keys are evicted only if the body of the [with] block succeeds; when
    it raises, the cache is left as the body left it and the exception
    goes on to the caller. *)
Definition invalidates {A : Type} (keys : list string) (body : M A) : M A :=
  fun w =>
    match body w with
    | (Ok a, w') =>
        (Ok a, {| cache := foldr delete (cache w') keys;
                  server := server w'; reads := reads w' |})
    | (Raise e, w') => (Raise e, w')
    end.

(** the remote server: the commands above, which reply with a string, and
    the three lists that the operations below read *)
Variable super : command -> remote -> result string * remote.
Variable super_get_players : remote -> result (list string) * remote.
Variable super_get_profanities : remote -> result (list string) * remote.
Variable super_get_map_rotation : remote -> result (list string) * remote.

(** [self.map_regexp.match(map_)] *)
Variable map_ok : string -> bool.

(** a cached value used as a list of strings *)
Definition strings (v : value) : M (list string) :=
  match v with
  | Strings l => mret l
  | Other _ => raise TypeError
  end.

(** [Rcon.get_profanities] and [Rcon.get_map_rotation], read at the time
    [now] *)
Definition get_profanities (now : N) : M (list string) :=
  v ← ttl_cache "get_profanities" (60 * 60)
        (l ← remotely super_get_profanities; mret (Strings l)) now;
  strings v.

Definition get_map_rotation (now : N) : M (list string) :=
  v ← ttl_cache "get_map_rotation" (60 * 5)
        (l ← remotely super_get_map_rotation;
         if forallb map_ok l then mret (Strings l)
         else raise (CommandFailedError "Server return wrong data")) now;
  strings v.

(** *** The mutating operations *)

Definition do_add_admin (steam_id_64 role name : string) : M string :=
  invalidates ["get_admin_ids"]
    (remotely (super (DoAddAdmin steam_id_64 role name))).

Definition do_remove_admin (steam_id_64 : string) : M string :=
  invalidates ["get_admin_ids"] (remotely (super (DoRemoveAdmin steam_id_64))).

Definition do_remove_vip (steam_id_64 : string) : M string :=
  invalidates ["get_vip_ids"] (remotely (super (DoRemoveVip steam_id_64))).

Definition do_add_vip (name steam_id_64 : string) : M string :=
  invalidates ["get_vip_ids"] (remotely (super (DoAddVip steam_id_64 name))).

(** a reply other than "SUCCESS" is raised inside the [with] block *)
Definition set_map (map_name : string) : M unit :=
  invalidates ["get_map"]
    (res ← remotely (super (SetMap map_name));
     if bool_decide (res <> "SUCCESS") then raise (CommandFailedError res)
     else mret tt).

Definition set_team_switch_cooldown (minutes : Z) : M string :=
  invalidates ["get_team_switch_cooldown"]
    (remotely (super (SetTeamSwitchCooldown minutes))).

Definition set_autobalance_threshold (max_diff : Z) : M string :=
  invalidates ["get_autobalance_threshold"]
    (remotely (super (SetAutobalanceThreshold max_diff))).

Definition set_idle_autokick_time (minutes : Z) : M string :=
  invalidates ["get_idle_autokick_time"]
    (remotely (super (SetIdleAutokickTime minutes))).

Definition set_max_ping_autokick (max_ms : Z) : M string :=
  invalidates ["get_max_ping_autokick"]
    (remotely (super (SetMaxPingAutokick max_ms))).

Definition set_queue_length (num : Z) : M string :=
  invalidates ["get_queue_length"] (remotely (super (SetQueueLength num))).

Definition set_vip_slots_num (num : Z) : M string :=
  invalidates ["get_vip_slots_num"] (remotely (super (SetVipSlotsNum num))).

Definition set_autobalance_enabled (bool_ : bool) : M string :=
  invalidates ["get_autobalance_enabled"]
    (remotely (super (SetAutobalanceEnabled (if bool_ then "on" else "off")))).

Definition set_votekick_enabled (bool_ : bool) : M string :=
  invalidates ["get_votekick_enabled"]
    (remotely (super (SetVotekickEnabled (if bool_ then "on" else "off")))).

(** a reply that begins with "error", in any case, is raised inside the
    [with] block *)
Definition set_votekick_threshold (threshold_pairs : string) : M unit :=
  invalidates ["get_votekick_threshold"]
    (res ← remotely (super (SetVotekickThreshold threshold_pairs));
     if PyStr.startswith (PyStr.lower res) "error"
     then raise (CommandFailedError res)
     else mret tt).

Definition do_reset_votekick_threshold : M string :=
  invalidates ["get_votekick_threshold"]
    (remotely (super DoResetVotekickThreshold)).

(** [",".join(profanities)] *)
Definition join_commas (l : list string) : string := String.concat "," l.

(** [Rcon.do_unban_profanities] and [Rcon.do_ban_profanities], called with
    a list *)
Definition do_unban_profanities (profanities : list string) : M string :=
  invalidates ["get_profanities"]
    (remotely (super (DoUnbanProfanities (join_commas profanities)))).

Definition do_ban_profanities (profanities : list string) : M string :=
  invalidates ["get_profanities"]
    (remotely (super (DoBanProfanities (join_commas profanities)))).

(** the calls of the [with] block of [set_profanities], given the list
    [current] that [get_profanities] returned *)
Definition profanity_calls (current profanities : list string)
  : list (M string) :=
  let removed : gset string :=
    list_to_set current ∖ list_to_set profanities in
  let added : gset string := list_to_set profanities ∖ list_to_set current in
  (if bool_decide (removed = ∅) then []
   else [do_unban_profanities (elements removed)])
  ++ (if bool_decide (added = ∅) then []
      else [do_ban_profanities (elements added)]).

Definition set_profanities (now : N) (profanities : list string)
  : M (list string) :=
  current ← get_profanities now;
  invalidates ["get_profanities"]
    (run_calls (profanity_calls current profanities)) ;;
  mret profanities.

Definition do_kick (player reason : string) : M string :=
  invalidates ["get_players"] (remotely (super (DoKick player reason))).

(** [if player and player in super().get_players(): steam_id_64 = None],
    which reads the remote server before the [with] block *)
Definition online_by_name (player steam_id_64 : pystr) : M pystr :=
  match player with
  | Some (String _ _ as p) =>
      names ← remotely super_get_players;
      if bool_decide (p ∈ names) then mret None else mret steam_id_64
  | _ => mret steam_id_64
  end.

Definition do_temp_ban (player steam_id_64 : pystr) (duration_hours : Z)
  (reason admin_name : string) : M string :=
  steam_id_64 ← online_by_name player steam_id_64;
  invalidates ["get_players"; "get_temp_bans"]
    (remotely (super (DoTempBan player steam_id_64 duration_hours reason
                        admin_name))).

Definition do_remove_temp_ban (ban_log : string) : M string :=
  invalidates ["get_temp_bans"] (remotely (super (DoRemoveTempBan ban_log))).

Definition do_remove_perma_ban (ban_log : string) : M string :=
  invalidates ["get_perma_bans"] (remotely (super (DoRemovePermaBan ban_log))).

Definition do_perma_ban (player steam_id_64 : pystr)
  (reason admin_name : string) : M string :=
  steam_id_64 ← online_by_name player steam_id_64;
  invalidates ["get_players"; "get_perma_bans"]
    (remotely (super (DoPermaBan player steam_id_64 reason admin_name))).

Definition do_remove_maps_from_rotation (maps : list string) : M string :=
  invalidates ["get_map_rotation"]
    (for_each_ (fun map_name =>
                  remotely (super (DoRemoveMapFromRotation map_name))) maps ;;
     mret "SUCCESS").

Definition do_add_maps_to_rotation (maps : list string) : M string :=
  invalidates ["get_map_rotation"]
    (for_each_ (fun map_name =>
                  remotely (super (DoAddMapToRotation map_name))) maps ;;
     mret "SUCCESS").

Definition do_add_map_to_rotation (map_name : string) : M string :=
  do_add_maps_to_rotation [map_name].

Definition do_remove_map_from_rotation (map_name : string) : M string :=
  do_remove_maps_from_rotation [map_name].

(** The calls of the [with] block of [set_maprotation], given the rotation
    [current] that [get_map_rotation] returned and the rotation asked for,
    [first :: rest].  After the loop of the single-map case, [m] is the
    last map of the rotation asked for. *)
Definition single_map_calls (current : list string) (idx : nat) (m : string)
  : list (M string) :=
  (if bool_decide (m ∉ current) then [do_add_map_to_rotation m] else [])
  ++ (if bool_decide (m ∈ current) && negb (idx =? 0)
      then [do_remove_map_from_rotation m; do_add_map_to_rotation m]
      else []).

Definition rotation_calls (current : list string) (first : string)
  (rest : list string) : list (M string) :=
  let rotation := first :: rest in
  if length current =? 1 then
    concat (imap (single_map_calls current) rotation)
    ++ match current with
       | c :: _ =>
           if bool_decide (c ∉ rotation)
           then [do_remove_map_from_rotation (List.last rotation first)]
           else []
       | [] => []
       end
  else
    let to_remove : gset string := list_to_set current ∖ {[ first ]} in
    (if bool_decide (to_remove = list_to_set current)
     then [do_add_map_to_rotation first] else [])
    ++ [do_remove_maps_from_rotation (elements to_remove);
        do_add_maps_to_rotation rest].

Definition set_maprotation (now : N) (rotation : list string)
  : M (list string) :=
  match rotation with
  | [] => raise (CommandFailedError "Empty rotation")
  | first :: rest =>
      current ← get_map_rotation now;
      if bool_decide (rotation = current) then mret current
      else
        invalidates ["get_map_rotation"]
          (run_calls (rotation_calls current first rest)) ;;
        mret rotation
  end.

(** *** The operations and the keys they evict *)

(** the mutating operations whose [with] block holds remote commands
    only *)
Inductive mutator :=
| Do_add_admin (steam_id_64 role name : string)
| Do_remove_admin (steam_id_64 : string)
| Do_remove_vip (steam_id_64 : string)
| Do_add_vip (name steam_id_64 : string)
| Set_map (map_name : string)
| Set_team_switch_cooldown (minutes : Z)
| Set_autobalance_threshold (max_diff : Z)
| Set_idle_autokick_time (minutes : Z)
| Set_max_ping_autokick (max_ms : Z)
| Set_queue_length (num : Z)
| Set_vip_slots_num (num : Z)
| Set_autobalance_enabled (bool_ : bool)
| Set_votekick_enabled (bool_ : bool)
| Set_votekick_threshold (threshold_pairs : string)
| Do_reset_votekick_threshold
| Do_unban_profanities (profanities : list string)
| Do_ban_profanities (profanities : list string)
| Do_kick (player reason : string)
| Do_temp_ban (player steam_id_64 : pystr) (duration_hours : Z)
    (reason admin_name : string)
| Do_remove_temp_ban (ban_log : string)
| Do_remove_perma_ban (ban_log : string)
| Do_perma_ban (player steam_id_64 : pystr) (reason admin_name : string)
| Do_remove_maps_from_rotation (maps : list string)
| Do_add_maps_to_rotation (maps : list string).

(** whether a call returns, or the exception it raises *)
Definition outcome {A : Type} (m : M A) (w : world) : option exn * world :=
  match m w with
  | (Ok _, w') => (None, w')
  | (Raise e, w') => (Some e, w')
  end.

Definition run (o : mutator) : world -> option exn * world :=
  match o with
  | Do_add_admin steam_id_64 role name =>
      outcome (do_add_admin steam_id_64 role name)
  | Do_remove_admin steam_id_64 => outcome (do_remove_admin steam_id_64)
  | Do_remove_vip steam_id_64 => outcome (do_remove_vip steam_id_64)
  | Do_add_vip name steam_id_64 => outcome (do_add_vip name steam_id_64)
  | Set_map map_name => outcome (set_map map_name)
  | Set_team_switch_cooldown minutes =>
      outcome (set_team_switch_cooldown minutes)
  | Set_autobalance_threshold max_diff =>
      outcome (set_autobalance_threshold max_diff)
  | Set_idle_autokick_time minutes => outcome (set_idle_autokick_time minutes)
  | Set_max_ping_autokick max_ms => outcome (set_max_ping_autokick max_ms)
  | Set_queue_length num => outcome (set_queue_length num)
  | Set_vip_slots_num num => outcome (set_vip_slots_num num)
  | Set_autobalance_enabled bool_ => outcome (set_autobalance_enabled bool_)
  | Set_votekick_enabled bool_ => outcome (set_votekick_enabled bool_)
  | Set_votekick_threshold threshold_pairs =>
      outcome (set_votekick_threshold threshold_pairs)
  | Do_reset_votekick_threshold => outcome do_reset_votekick_threshold
  | Do_unban_profanities profanities =>
      outcome (do_unban_profanities profanities)
  | Do_ban_profanities profanities => outcome (do_ban_profanities profanities)
  | Do_kick player reason => outcome (do_kick player reason)
  | Do_temp_ban player steam_id_64 duration_hours reason admin_name =>
      outcome (do_temp_ban player steam_id_64 duration_hours reason admin_name)
  | Do_remove_temp_ban ban_log => outcome (do_remove_temp_ban ban_log)
  | Do_remove_perma_ban ban_log => outcome (do_remove_perma_ban ban_log)
  | Do_perma_ban player steam_id_64 reason admin_name =>
      outcome (do_perma_ban player steam_id_64 reason admin_name)
  | Do_remove_maps_from_rotation maps =>
      outcome (do_remove_maps_from_rotation maps)
  | Do_add_maps_to_rotation maps => outcome (do_add_maps_to_rotation maps)
  end.

(** The invalidation rule of the specification (section 3): the cached
    reads each mutating operation is associated with.  VIPs go with the
    VIP list, administrators with the list of administrators, a kick and
    the bans with the list of players, the bans also with their list of
    bans, the rotation with the map rotation and each setting with its own
    getter. *)
Definition keys_of (o : mutator) : list string :=
  match o with
  | Do_add_admin _ _ _ | Do_remove_admin _ => ["get_admin_ids"]
  | Do_remove_vip _ | Do_add_vip _ _ => ["get_vip_ids"]
  | Set_map _ => ["get_map"]
  | Set_team_switch_cooldown _ => ["get_team_switch_cooldown"]
  | Set_autobalance_threshold _ => ["get_autobalance_threshold"]
  | Set_idle_autokick_time _ => ["get_idle_autokick_time"]
  | Set_max_ping_autokick _ => ["get_max_ping_autokick"]
  | Set_queue_length _ => ["get_queue_length"]
  | Set_vip_slots_num _ => ["get_vip_slots_num"]
  | Set_autobalance_enabled _ => ["get_autobalance_enabled"]
  | Set_votekick_enabled _ => ["get_votekick_enabled"]
  | Set_votekick_threshold _ | Do_reset_votekick_threshold =>
      ["get_votekick_threshold"]
  | Do_unban_profanities _ | Do_ban_profanities _ => ["get_profanities"]
  | Do_kick _ _ => ["get_players"]
  | Do_temp_ban _ _ _ _ _ => ["get_players"; "get_temp_bans"]
  | Do_remove_temp_ban _ => ["get_temp_bans"]
  | Do_remove_perma_ban _ => ["get_perma_bans"]
  | Do_perma_ban _ _ _ _ => ["get_players"; "get_perma_bans"]
  | Do_remove_maps_from_rotation _ | Do_add_maps_to_rotation _ =>
      ["get_map_rotation"]
  end.

(** *** What a read finds after a mutation *)

(** the next read of [key] calls the remote server, whatever the time it
    is made at *)
Definition reads_afresh (key : string) (w' : world) : Prop :=
  forall (ttl : N) (fetch : M value) (now : N),
    ttl_cache key ttl fetch now w' = call_through key ttl fetch now w'.

(** the next read of [key] within the time to live of the value that the
    cache held in [w] returns that value, without a remote call *)
Definition reads_cached (key : string) (w w' : world) : Prop :=
  forall (ttl : N) (fetch : M value) (now : N) (v : value) (expiry : N),
    cache w !! key = Some (v, expiry) -> (now < expiry)%N ->
    ttl_cache key ttl fetch now w' = (Ok v, w').

(** What a failure of a [with] block made of calls to other mutators
    leaves, [w1] being the state the block was entered in: the cache as it
    was when the first of the calls raises, and [key] evicted when the
    first call has returned. *)
Definition nested_failure {A : Type} (key : string) (calls : list (M A))
  (w1 w' : world) : Prop :=
  match calls with
  | [] => False
  | call :: _ =>
      match call w1 with
      | (Raise _, _) => cache w' = cache w1
      | (Ok _, _) => cache w' !! key = None
      end
  end.

(** [m] leaves the cache as it found it *)
Definition keeps_cache {A : Type} (m : M A) : Prop :=
  forall w, cache (snd (m w)) = cache w.

(** A [with] block whose body leaves the cache alone: its keys are gone
    when it returns, and the cache is as it was when it raises. *)
Definition evicting {A : Type} (keys : list string) (m : M A) : Prop :=
  forall w,
    match m w with
    | (Ok _, w') =>
        (forall key, key ∈ keys -> cache w' !! key = None)
        /\ (forall key, cache w !! key = None -> cache w' !! key = None)
    | (Raise _, w') => cache w' = cache w
    end.

End Cache.

Arguments Strings {other} l.
Arguments Other {other} o.
Arguments cache {remote other} _.
Arguments server {remote other} _.
Arguments reads {remote other} _.
Arguments reads_afresh {remote other} _ _.
Arguments reads_cached {remote other} _ _ _.
Arguments nested_failure {remote other A} _ _ _ _.
Arguments keeps_cache {remote other A} _.
Arguments evicting {remote other A} _ _.

End Cached.

(** ** Sample inputs *)

(** a kick for team killing with a ban of another length than the pattern
    of the branch knows *)
Definition sample_kick : string :=
  "[1:00 min (1606998428)] KICK: [T17 Scott] has been kicked. [BANNED FOR 1 HOURS FOR TEAM KILLING!]".

(** a platform whose [datetime] ends with the year 9999 (UTC), where
    [timestamp] returns for every time that [fromtimestamp] makes *)
Definition utc_platform (n : N) : bool := (n <=? 253402300799)%N.

Definition utc_timestamp (time : datetime) : option exn := None.

(** A platform nine hours east of Greenwich (Asia/Tokyo).  [fromtimestamp]
    accepts the epochs whose local time is in the year 9999 or before;
    [timestamp] first reads the local time as if it were UTC and asks for
    the local time of that instant, nine hours on again, and raises when it
    is past the year 9999. *)
Definition tokyo_platform (n : N) : bool := (n + 32400 <=? 253402300799)%N.

Definition tokyo_timestamp (time : datetime) : option exn :=
  if (253402300799 <? time / 1000000 + 2 * 32400)%Z then Some ValueError
  else None.

(** a line of the last hours of the year 9999 *)
Definition sample_last_day : string :=
  "[0:01 min (253402268399)] CONNECTED T17 Scott".

Definition sample_raw : string :=
  "[15:49 min (1606998428)] CONNECTED T17 Scott"
  +:+ String PyStr.LF
        "[16:01 min (1606998500)] KILL: Alice(Allies/111) -> Bob(Axis/222) with M1 Garand".

(** the batch of the kills of [sample_raw] *)
Definition sample_batch : LogBatch :=
  Eval vm_compute in
    match parse_logs utc_platform utc_timestamp 0 sample_raw (Some "KILL")
            None with
    | Ok b => b
    | Raise _ => {| actions := []; players := []; logs := [] |}
    end.

(** a reply of the server: two entries, one of them quoted *)
Definition sample_vips : list string :=
  [ "76561198000000002 " +:+ String PyStr.DQUOTE ("Zed" +:+ String PyStr.DQUOTE "");
    "76561198000000001 Alice" ].

(** A model of the floats of the two boards.  A float is represented by
    the rational it holds, exactly.  [q_div a b] is the float [a / b] of two
    integers: the double nearest to the quotient, halves to even (a mantissa
    of 53 bits; the counts of a board are far from the range where a double
    overflows or is subnormal).  The order is that of the rationals, and
    [q_fmt2 x] is ["%.2f" % x]: the decimal with two places nearest to the
    value held, halves to even. *)

(** the integer nearest to [n / d], halves to even *)
Definition nearest (n d : Z) : Z :=
  let q := (n / d)%Z in
  let r := (n mod d)%Z in
  match (2 * r ?= d)%Z with
  | Lt => q
  | Gt => (q + 1)%Z
  | Eq => (q + q mod 2)%Z
  end.

Definition z_div (n d : Z) : Q :=
  if (n =? 0)%Z || (d =? 0)%Z then 0%Q
  else
    (* [n / d] scaled by [2 ^ s] *)
    let scaled (s : Z) := ((n * 2 ^ Z.max s 0)%Z, (d * 2 ^ Z.max (- s) 0)%Z) in
    let s0 := (52 - Z.log2 n + Z.log2 d)%Z in
    (* the scale that puts the quotient between [2 ^ 52] and [2 ^ 53] *)
    let s := if (fst (scaled s0) / snd (scaled s0) <? 2 ^ 52)%Z
             then (s0 + 1)%Z else s0 in
    let m := nearest (fst (scaled s)) (snd (scaled s)) in
    if (0 <=? s)%Z then Qmake m (Z.to_pos (2 ^ s))
    else inject_Z (m * 2 ^ (- s)).

Definition q_div (a b : nat) : Q := z_div (Z.of_nat a) (Z.of_nat b).

Definition q_fmt2 (x : Q) : string :=
  let n := nearest (100 * Qnum x) (Z.pos (Qden x)) in
  let cents := Z.to_nat (n mod 100) in
  pretty (Z.to_N (n / 100)) +:+ "."
  +:+ (if cents <? 10 then "0" else "") +:+ pretty cents.

(** A server that holds the list of the banned words.  It accepts every
    command, but refuses to ban a word with a space in it. *)
Definition toy_super (c : Cached.command) (words : list string)
  : result string * list string :=
  match c with
  | Cached.DoUnbanProfanities l =>
      (Ok "SUCCESS",
       filter (fun x => x ∉ PyStr.split "," l) words)
  | Cached.DoBanProfanities l =>
      if PyStr.contains " " l then (Raise (CommandFailedError "FAIL"), words)
      else (Ok "SUCCESS", words ++ PyStr.split "," l)
  | _ => (Ok "SUCCESS", words)
  end.

Definition toy_get_profanities (words : list string)
  : result (list string) * list string :=
  (Ok words, words).

Definition toy_get_players (words : list string)
  : result (list string) * list string :=
  (Ok [], words).

(** the word "a" is banned, and the cache holds the list until the time 10 *)
Definition toy_world : Cached.world (list string) unit :=
  {| Cached.cache := {[ "get_profanities" := (Cached.Strings ["a"], 10%N) ]};
     Cached.server := ["a"];
     Cached.reads := 0 |}.

(** * Further notions and commands *)

(** ** More on the parser *)

(** what the two filters of [parse_logs] ask of an event *)
Definition kept (filter_action filter_player : pystr) (e : event) : bool :=
  match filter_action with
  | Some (String _ _ as f) =>
      match action e with
      | Some a => PyStr.startswith a f
      | None => false
      end
  | _ => true
  end
  && match filter_player with
     | Some (String _ _ as f) => PyStr.contains f (raw e)
     | _ => true
     end.

(** ** More string operations *)

(** [s[:-1]] *)
Definition but_last (s : string) : string :=
  PyStr.take (String.length s - 1) s.

(** [s.split(sep, 1)[0]] and [s.split(sep, 1)[-1]] *)
Definition first_part (sep s : string) : string :=
  match PyStr.split1 sep s with
  | Some (a, _) => a
  | None => s
  end.

Definition last_part (sep s : string) : string :=
  match PyStr.split1 sep s with
  | Some (_, b) => b
  | None => s
  end.

(** [s.replace(sub, "")] for a non-empty [sub]: the occurrences of [sub]
    are taken out, found from left to right without overlap.  [pending]
    counts the characters of an occurrence still to be passed over. *)
Fixpoint remove_sub_go (sub : string) (pending : nat) (s : string) : string :=
  match s with
  | "" => ""
  | String c s' =>
      match pending with
      | S k => remove_sub_go sub k s'
      | O =>
          if String.prefix sub s
          then remove_sub_go sub (String.length sub - 1) s'
          else String c (remove_sub_go sub 0 s')
      end
  end.

Definition remove_sub (sub s : string) : string := remove_sub_go sub 0 s.

(** ** Loops that an exception leaves *)

Definition rbind {A B : Type} (x : result A) (f : A -> result B) : result B :=
  match x with
  | Ok a => f a
  | Raise e => Raise e
  end.

(** [[f(x) for x in l]], left at the first call that raises *)
Fixpoint for_each {A B : Type} (f : A -> result B) (l : list A)
  : result (list B) :=
  match l with
  | [] => Ok []
  | x :: l' =>
      rbind (f x) (fun y => rbind (for_each f l') (fun ys => Ok (y :: ys)))
  end.

(** ** The player list *)

(** the body of the loop of [get_playerids] for one entry of the reply:
    the name and the steam id *)
Definition parse_playerid (playerinfo : string) : result (string * string) :=
  match PyStr.rsplit1 ":" playerinfo with
  | Some (nm, steamid) => Ok (but_last nm, PyStr.skip 1 steamid)
  | None => Raise ValueError
  end.

(** [Rcon.get_playerids()], from the reply [raw_list] of the remote
    command *)
Definition get_playerids (raw_list : list string)
  : result (list (string * string)) :=
  for_each parse_playerid raw_list.

(** [Rcon.get_playerids(as_dict=True)]: the dict is filled by assignment in
    the order of the reply; it is read by key only. *)
Definition get_playerids_dict (raw_list : list string)
  : result (gmap string string) :=
  rbind (for_each parse_playerid raw_list)
        (fun l => Ok (foldl (fun d p => <[fst p := snd p]> d) ∅ l)).

(** ** The console administrators *)

Record admin := {
  admin_steam_id_64 : string;
  admin_name : string;
  admin_role : string;
}.

(** the body of the loop of [get_admin_ids]: [item.split(" ", 2)] has to
    give three parts *)
Definition parse_admin (item : string) : result admin :=
  match PyStr.split1 " " item with
  | Some (sid, rest) =>
      match PyStr.split1 " " rest with
      | Some (role, nm) =>
          Ok {| admin_steam_id_64 := sid;
                admin_name := but_last (PyStr.skip 1 nm);
                admin_role := role |}
      | None => Raise ValueError
      end
  | None => Raise ValueError
  end.

(** [Rcon.get_admin_ids], from the reply of the remote command *)
Definition get_admin_ids (reply : list string) : result (list admin) :=
  for_each parse_admin reply.

(** ** The bans *)

Record ban := {
  ban_type : string;
  ban_name : pystr;
  ban_steam_id_64 : string;
  ban_time : pystr;
  ban_reason : pystr;
  ban_by : string;
  ban_raw : string;
}.

Module BanPatterns.
Import Re.
Local Open Scope re_scope.

Definition two_digits : regex := One Digit · One Digit.

(** the pattern of line 277: a date as [2020.12.03-12.40.08], whose last
    separator may be any character, then a space and the reason *)
Definition ban_regexp : regex :=
  Star Dot
  · Grp 1 (two_digits · two_digits · Lit "." · two_digits · Lit "."
           · two_digits · Lit "-" · two_digits · Lit "." · two_digits
           · One Dot · two_digits)
  · Lit " " · Grp 2 (Star Dot).

End BanPatterns.

(** [Rcon._struct_ban]; the key "timestamp" of the dict is always [None]
    and is left out *)
Definition _struct_ban (ban_log type_ : string) : result ban :=
  match PyStr.split1 " :" ban_log with
  | None => Raise ValueError
  | Some (steamd_id_64, rest) =>
      let nm :=
        if PyStr.contains "nickname" rest
        then Some (last_part (" nickname " +:+ String PyStr.DQUOTE "")
                     (first_part (String PyStr.DQUOTE " banned") rest))
        else None in
      let groups := Re.rmatch 2 BanPatterns.ban_regexp ban_log in
      let by_ := List.last (PyStr.split " by admin " ban_log) "" in
      Ok {| ban_type := type_;
            ban_name := nm;
            ban_steam_id_64 := steamd_id_64;
            ban_time := match groups with
                        | Some g => Re.group g 1
                        | None => None
                        end;
            ban_reason := match groups with
                          | Some g => Re.group g 2
                          | None => None
                          end;
            ban_by := PyStr.remove_char PyStr.DQUOTE by_;
            ban_raw := ban_log |}
  end.

(** [Rcon.get_bans], from the replies of the two remote commands *)
Definition get_bans (temp_bans perma_bans : list string) : result (list ban) :=
  rbind (for_each (fun b => _struct_ban b "temp") temp_bans) (fun temp =>
  rbind (for_each (fun b => _struct_ban b "perma") perma_bans) (fun bans =>
  Ok (temp ++ reverse bans))).

(** [Rcon.get_ban] *)
Definition get_ban (temp_bans perma_bans : list string) (steam_id_64 : string)
  : result (list ban) :=
  rbind (get_bans temp_bans perma_bans) (fun bans =>
  Ok (filter (fun b => ban_steam_id_64 b = steam_id_64) bans)).

(** the two remote commands [do_unban] issues, with the ban they name *)
Inductive unban_op :=
| RemoveTempBan (ban_log : string)
| RemovePermaBan (ban_log : string).

(** [type_to_func[b["type"]](b["raw"])] *)
Definition unban_one (b : ban) : result unban_op :=
  if bool_decide (ban_type b = "temp") then Ok (RemoveTempBan (ban_raw b))
  else if bool_decide (ban_type b = "perma")
  then Ok (RemovePermaBan (ban_raw b))
  else Raise KeyError.

(** [Rcon.do_unban]: the commands sent, in order, when each of them
    returns *)
Definition do_unban (temp_bans perma_bans : list string)
  (steam_id_64 : string) : result (list unban_op) :=
  rbind (get_bans temp_bans perma_bans) (fun bans =>
  for_each unban_one
    (filter (fun b => ban_steam_id_64 b = steam_id_64) bans)).

(** the ban lines of a reply that begin with a steam id *)
Definition bans_of (steam_id_64 : string) (reply : list string)
  : list string :=
  filter (fun b => fst <$> PyStr.split1 " :" b = Some steam_id_64) reply.

(** ** The next map *)

(** [l.index(x)]; [None]: [ValueError] *)
Fixpoint index_of (x : string) (l : list string) : option nat :=
  match l with
  | [] => None
  | y :: l' => if bool_decide (y = x) then Some 0 else S <$> index_of x l'
  end.

(** [Rcon.get_next_map], from what [get_map] and [get_map_rotation]
    returned.  [None]: the [IndexError] of [rotation[0]], which leaves the
    call. *)
Definition get_next_map (current : string) (rotation : list string)
  : option string :=
  let current := remove_sub "_RESTART" current in
  match index_of current rotation with
  | Some next_id =>
      let next_id := S next_id in
      let next_id := if next_id =? length rotation then 0 else next_id in
      rotation !! next_id
  | None => rotation !! 0
  end.

(** ** Shuffling the rotation *)

(** [Rcon.do_randomize_map_rotation]: the value returned and the commands
    sent, in order.  [maps] is the argument ([[]] for [None]), [all_maps]
    what [get_maps] returns, [current] what [get_map_rotation] returns and
    [shuffle] the effect of [random.shuffle] on the list it is given. *)
Definition do_randomize_map_rotation (shuffle : list string -> list string)
  (maps all_maps current : list string) : list string * list op :=
  let maps := match maps with [] => all_maps | _ :: _ => maps end in
  let maps := shuffle maps in
  (maps,
   maps ≫= (fun m => (if bool_decide (m ∈ current) then [Remove m] else [])
                     ++ [Add m])).

(** ** The profanities *)

Inductive profanity_op :=
| UnbanProfanities (words : list string)
| BanProfanities (words : list string).

(** [Rcon.set_profanities]: the value returned and the commands sent, given
    the list [current] that [get_profanities] returned *)
Definition set_profanities (current profanities : list string)
  : list string * list profanity_op :=
  let removed : gset string := list_to_set current ∖ list_to_set profanities in
  let added : gset string := list_to_set profanities ∖ list_to_set current in
  (profanities,
   (if bool_decide (removed = ∅) then []
    else [UnbanProfanities (elements removed)])
   ++ (if bool_decide (added = ∅) then []
       else [BanProfanities (elements added)])).

(** ** The shape of what a pattern matches

    For a pattern of fixed width, the characters it accepts position by
    position, and what that says of the text of a group. *)

Module ReShape.
Import Re.

Inductive pos :=
| Char (c : ascii)
| Class (c : cls).

#[global] Instance cls_eq_dec : EqDecision cls.
Proof. solve_decision. Defined.

#[global] Instance pos_eq_dec : EqDecision pos.
Proof. solve_decision. Defined.

Fixpoint shape (r : regex) : option (list pos) :=
  match r with
  | Lit l => Some (Char <$> list_ascii_of_string l)
  | One c => Some [Class c]
  | Seq r1 r2 =>
      match shape r1, shape r2 with
      | Some a, Some b => Some (a ++ b)
      | _, _ => None
      end
  | Grp _ r' => shape r'
  | _ => None
  end.

Definition fits_pos (p : pos) (a : ascii) : bool :=
  match p with
  | Char c => Ascii.eqb c a
  | Class c => cls_test c a
  end.

Fixpoint fits (sh : list pos) (s : string) : bool :=
  match sh, s with
  | [], "" => true
  | p :: sh', String a s' => fits_pos p a && fits sh' s'
  | _, _ => false
  end.

(** [sets_shape r n sh]: after any match of [r], the text of group [n]
    fits [sh] *)
Fixpoint sets_shape (r : regex) (n : nat) (sh : list pos) : bool :=
  match r with
  | Grp m r' =>
      if m =? n then bool_decide (shape r' = Some sh) else sets_shape r' n sh
  | Seq r1 r2 =>
      sets_shape r2 n sh || (sets_shape r1 n sh && negb (touches r2 n))
  | Alt r1 r2 => sets_shape r1 n sh && sets_shape r2 n sh
  | _ => false
  end.

(** [sets_some r n]: after any match of [r], group [n] took part *)
Fixpoint sets_some (r : regex) (n : nat) : bool :=
  match r with
  | Grp m r' => (m =? n) || sets_some r' n
  | Seq r1 r2 => sets_some r2 n || sets_some r1 n
  | Alt r1 r2 => sets_some r1 n && sets_some r2 n
  | _ => false
  end.

(** the shape of a date as the pattern of the bans reads it *)
Definition date_shape : list pos :=
  [ Class Digit; Class Digit; Class Digit; Class Digit; Char ".";
    Class Digit; Class Digit; Char "."; Class Digit; Class Digit; Char "-";
    Class Digit; Class Digit; Char "."; Class Digit; Class Digit; Class Dot;
    Class Digit; Class Digit ].

(** the shapes of the texts a pattern without repetition matches, one
    for each way through its alternatives *)
Fixpoint shapes (r : regex) : list (list pos) :=
  match r with
  | Lit l => [Char <$> list_ascii_of_string l]
  | One c => [[Class c]]
  | Seq r1 r2 => a ← shapes r1; b ← shapes r2; [a ++ b]
  | Alt r1 r2 => shapes r1 ++ shapes r2
  | Grp _ r' => shapes r'
  | Star _ | Plus _ => []
  end.

(** no repetition in the pattern *)
Fixpoint star_free (r : regex) : bool :=
  match r with
  | Seq r1 r2 | Alt r1 r2 => star_free r1 && star_free r2
  | Grp _ r' => star_free r'
  | Star _ | Plus _ => false
  | _ => true
  end.

End ReShape.

(** [border_free p]: no proper end of [p] is a beginning of [p], so that two
    occurrences of [p] in a text never overlap *)
Definition border_free (p : string) : bool :=
  forallb (fun d => negb (String.prefix (PyStr.skip d p) p))
          (seq 1 (String.length p - 1)).

(** ** More on the scoreboard *)

(** the counts of a name of the batch: those of the inner loop of
    [get_scoreboard] for a name that is a non-empty text, none for the
    others, which the outer loop passes over *)
Definition counts_of (events : list event) (n : pystr) : nat * nat :=
  match n with
  | Some (String _ _ as p) => tally p events 0 0
  | _ => (0, 0)
  end.

(** ** The team kill board *)

Section TeamkillBoard.
Variable float : Type.
Variable fdiv : nat -> nat -> float.
Variable fle : float -> float -> bool.
Variable fmt2 : float -> string.

(** the four variables of the inner loop of [get_teamkills_boards].
    [first_timestamp] starts as the float infinity, which is [None] here,
    and is an integer from the first event that involves the player on. *)
Record tk_counters := {
  first_timestamp : option Z;
  last_timestamp : Z;
  tk : nat;
  death_by_tk : nat;
}.

Definition tk_start : tk_counters :=
  {| first_timestamp := None; last_timestamp := 0; tk := 0;
     death_by_tk := 0 |}.

(** one iteration of the inner loop *)
Definition tk_step (p : string) (c : tk_counters) (log : event)
  : tk_counters :=
  let involved :=
    bool_decide (player log = Some p) || bool_decide (player2 log = Some p) in
  let first :=
    if involved
    then Some (match first_timestamp c with
               | Some f => Z.min (timestamp_ms log) f
               | None => timestamp_ms log
               end)
    else first_timestamp c in
  let last :=
    if involved then Z.max (timestamp_ms log) (last_timestamp c)
    else last_timestamp c in
  if bool_decide (action log = Some "TEAM KILL") then
    if bool_decide (player log = Some p)
    then {| first_timestamp := first; last_timestamp := last;
            tk := S (tk c); death_by_tk := death_by_tk c |}
    else if bool_decide (player2 log = Some p)
    then {| first_timestamp := first; last_timestamp := last;
            tk := tk c; death_by_tk := S (death_by_tk c) |}
    else {| first_timestamp := first; last_timestamp := last;
            tk := tk c; death_by_tk := death_by_tk c |}
  else {| first_timestamp := first; last_timestamp := last;
          tk := tk c; death_by_tk := death_by_tk c |}.

(** an entry of the board before the rate is formatted; the keys of the
    dict are "player", "Teamkills", "Death by TK", "Estimated play time
    (minutes)" and "TK Minutes" *)
Record tk_score := {
  tk_player : string;
  teamkills : nat;
  death_by_teamkill : nat;
  play_time : Z;
  tk_minutes : float;
}.

Record tk_row := {
  tk_row_player : string;
  tk_row_teamkills : nat;
  tk_row_death : nat;
  tk_row_play_time : Z;
  tk_row_minutes : string;
}.

Definition format_tk_row (o : tk_score) : tk_row :=
  {| tk_row_player := tk_player o; tk_row_teamkills := teamkills o;
     tk_row_death := death_by_teamkill o; tk_row_play_time := play_time o;
     tk_row_minutes := fmt2 (tk_minutes o) |}.

(** the entry of a player, from the variables the inner loop leaves.
    [None]: [first_timestamp] is still the infinity, and the play time and
    the rate of the entry would not be numbers.  The divisor of the rate is
    at least one. *)
Definition tk_entry (p : string) (c : tk_counters) : option tk_score :=
  match first_timestamp c with
  | Some f =>
      let minutes := ((last_timestamp c - f) / 1000 / 60)%Z in
      Some {| tk_player := p; teamkills := tk c;
              death_by_teamkill := death_by_tk c;
              play_time := minutes;
              tk_minutes := fdiv (tk c) (Z.to_nat (Z.max minutes 1)) |}
  | None => None
  end.

(** the outer loop; [None] when an entry is not made of numbers *)
Fixpoint tk_board (names : list pystr) (events : list event)
  : option (list tk_score) :=
  match names with
  | [] => Some []
  | Some (String _ _ as p) :: names' =>
      let c := foldl (tk_step p) tk_start events in
      if (tk c =? 0) && (death_by_tk c =? 0) then tk_board names' events
      else
        match tk_entry p c, tk_board names' events with
        | Some o, Some l => Some (o :: l)
        | _, _ => None
        end
  | _ :: names' => tk_board names' events
  end.

Definition tk_key_le (sort : string)
  : option (tk_score -> tk_score -> bool) :=
  if bool_decide (sort = "player")
  then Some (fun a b => String.leb (tk_player a) (tk_player b))
  else if bool_decide (sort = "Teamkills")
  then Some (fun a b => teamkills a <=? teamkills b)
  else if bool_decide (sort = "Death by TK")
  then Some (fun a b => death_by_teamkill a <=? death_by_teamkill b)
  else if bool_decide (sort = "Estimated play time (minutes)")
  then Some (fun a b => (play_time a <=? play_time b)%Z)
  else if bool_decide (sort = "TK Minutes")
  then Some (fun a b => fle (tk_minutes a) (tk_minutes b))
  else None.

(** [Rcon.get_teamkills_boards], from the batch that
    [get_structured_logs(180)] returned *)
Definition get_teamkills_boards (batch : LogBatch) (sort : string)
  : option (result (list tk_row)) :=
  match tk_board (players batch) (logs batch) with
  | None => None
  | Some scoreboard =>
      Some match scoreboard, tk_key_le sort with
           | [], _ => Ok []
           | _ :: _, None => Raise KeyError
           | _ :: _, Some le =>
               Ok (format_tk_row <$> sorted (fun a b => le b a) scoreboard)
           end
  end.

(** an event involves a player: as its player or as its second player *)
Definition involves (p : string) (e : event) : Prop :=
  player e = Some p \/ player2 e = Some p.

End TeamkillBoard.

Arguments tk_player {float} _.
Arguments teamkills {float} _.
Arguments death_by_teamkill {float} _.
Arguments play_time {float} _.
Arguments tk_minutes {float} _.

(** what a row of the team kill board says of the events: its two counts,
    not both zero, and its play time, the whole minutes between the first
    and the last of the events that involve the player *)
Definition tk_row_ok (events : list event) (o : tk_row) : Prop :=
  tk_row_teamkills o
  = length (filter (fun e => action e = Some "TEAM KILL"
                             /\ player e = Some (tk_row_player o)) events)
  /\ tk_row_death o
     = length (filter (fun e => action e = Some "TEAM KILL"
                                /\ player e <> Some (tk_row_player o)
                                /\ player2 e = Some (tk_row_player o)) events)
  /\ ~ (tk_row_teamkills o = 0 /\ tk_row_death o = 0)
  /\ exists e1 e2,
       e1 ∈ events /\ e2 ∈ events
       /\ involves (tk_row_player o) e1 /\ involves (tk_row_player o) e2
       /\ (forall e, e ∈ events -> involves (tk_row_player o) e ->
             (timestamp_ms e1 <= timestamp_ms e <= timestamp_ms e2)%Z)
       /\ tk_row_play_time o
          = ((timestamp_ms e2 - timestamp_ms e1) / 60000)%Z.

(** ** The first match of a pattern

    What [re.match] returns is the first of the ways the pattern matches.
    The notions below say when a literal is part of every match, and which
    texts a run of [.] or of [\d] takes whole. *)

Module ReFirst.
Import Re.

(** the first outcome, which [re.match] takes *)
Definition first_outcome (r : regex) (s : string) (caps : captures)
  : option outcome :=
  head (run r s caps).

(** [has_lit r l]: every match of [r] passes over the literal [l] *)
Fixpoint has_lit (r : regex) (l : string) : bool :=
  match r with
  | Lit l' => bool_decide (l' = l)
  | Seq r1 r2 => has_lit r1 l || has_lit r2 l
  | Alt r1 r2 => has_lit r1 l && has_lit r2 l
  | Grp _ r' => has_lit r' l
  | _ => false
  end.

(** a text without a line feed: what [.*] can take whole *)
Fixpoint one_line (s : string) : bool :=
  match s with
  | "" => true
  | String c s' => cls_test Dot c && one_line s'
  end.

(** every character of a text passes a test *)
Fixpoint all_chars (p : ascii -> bool) (s : string) : bool :=
  match s with
  | "" => true
  | String c s' => p c && all_chars p s'
  end.

End ReFirst.

(** ** The slots and the status *)

Module SlotPatterns.
Import Re.
Local Open Scope re_scope.

(** [r?] *)
Definition opt (r : regex) : regex := Alt r (Lit "").

(** [slots_regexp], source line 52, between its two anchors: one to three
    digits, a slash, two or three digits *)
Definition slots_regexp : regex :=
  One Digit · opt (One Digit · opt (One Digit)) · Lit "/"
  · One Digit · One Digit · opt (One Digit).

End SlotPatterns.

(** where [$] matches: at the end of the text, or before a line feed that
    ends the text *)
Definition at_end (rest : string) : bool :=
  bool_decide (rest = "") || bool_decide (rest = String PyStr.LF "").

(** [slots_regexp.match(res)] finds a match: one of the ways the pattern
    matches at the start of the text stops where [$] matches *)
Definition slots_match (res : string) : bool :=
  existsb (fun o => at_end (snd o)) (Re.run SlotPatterns.slots_regexp res []).

(** [Rcon.get_slots], from the reply of the remote command *)
Definition get_slots (reply : string) : result string :=
  if slots_match reply then Ok reply
  else Raise (CommandFailedError "Server returned crap").

(** the key "player_count" of the dict of [get_status]:
    [slots.split("/")[0]] *)
Definition player_count (slots : string) : string := first_part "/" slots.

Fixpoint all_digits (s : string) : bool :=
  match s with
  | "" => true
  | String c s' => PyStr.isdigit c && all_digits s'
  end.

(** a count of players and a number of slots as [get_slots] lets them
    through: digits, a slash, digits, and a line feed or nothing *)
Definition slots_text (a b t : string) : Prop :=
  all_digits a = true /\ 1 <= String.length a <= 3
  /\ all_digits b = true /\ 2 <= String.length b <= 3
  /\ (t = "" \/ t = String PyStr.LF "").

(** ** More sample inputs *)

(** three lines: a player connects, kills a team mate and leaves *)
Definition sample_teamkill : string :=
  "[1:00 min (1606998400)] CONNECTED Alice"
  +:+ String PyStr.LF
        ("[2:00 min (1606998500)] TEAM KILL: Alice(Allies/111) -> Bob(Allies/222) with M1 Garand"
         +:+ String PyStr.LF "[9:00 min (1606999000)] DISCONNECTED Alice").

(** ** The text of a kill and of a chat line *)

(** a player as the server writes it in a kill: the name, then the side
    and the steam id between brackets *)
Definition player_info_text (nm side sid : string) : string :=
  nm +:+ "(" +:+ side +:+ "/" +:+ sid +:+ ")".

(** what follows the action of a kill line: the killer, the victim and
    the weapon *)
Definition kill_text (killer victim weapon_ : string) : string :=
  killer +:+ " -> " +:+ victim +:+ " with " +:+ weapon_.

(** one of the two sides *)
Definition is_side (side : string) : Prop := side = "Allies" \/ side = "Axis".

(** a steam id as the patterns read it: digits, one at least *)
Definition is_steam_id (sid : string) : Prop :=
  all_digits sid = true /\ sid <> "".

Module InfoPatterns.
Import Re.
Local Open Scope re_scope.

(** the part of [player_info_regexp] after the group of the name *)
Definition info_tail : regex :=
  Lit "(" · Grp 2 (Alt (Grp 3 (Lit "Allies")) (Grp 4 (Lit "Axis")))
  · Lit "/" · Grp 5 (Plus Digit) · Lit ")".

End InfoPatterns.

(** a chat line after its time: the scope, the player and the message *)
Definition chat_text (scope nm side sid msg : string) : string :=
  "CHAT[" +:+ scope +:+ "][" +:+ nm +:+ "(" +:+ side +:+ "/" +:+ sid
  +:+ ")]: " +:+ msg.

(** one of the two scopes of a chat *)
Definition is_scope (scope : string) : Prop :=
  scope = "Team" \/ scope = "Unit".

(** a kick for team killing after its time: the player and the sanction *)
Definition tk_kick_text (nm sanction : string) : string :=
  "KICK: [" +:+ nm +:+ "] has been kicked. [" +:+ sanction
  +:+ " FOR TEAM KILLING!]".

(** one of the two sanctions the pattern of the kicks knows *)
Definition is_sanction (sanction : string) : Prop :=
  sanction = "KICKED" \/ sanction = "BANNED FOR 2 HOURS".

(** a camera line after its time: the observer and what he did *)
Definition camera_text (nm sid what : string) : string :=
  "Player " +:+ "[" +:+ nm +:+ " (" +:+ sid +:+ ")]" +:+ what.

(** ** The commands of the cached operations *)

(** a server that accepts every command and keeps those it was sent, in
    order *)
Definition log_super (c : Cached.command) (sent : list Cached.command)
  : result string * list Cached.command :=
  (Ok "SUCCESS", sent ++ [c]).

Definition rotation_command (o : op) : Cached.command :=
  match o with
  | Add m => Cached.DoAddMapToRotation m
  | Remove m => Cached.DoRemoveMapFromRotation m
  end.

Definition profanity_command (o : profanity_op) : Cached.command :=
  match o with
  | UnbanProfanities l => Cached.DoUnbanProfanities (Cached.join_commas l)
  | BanProfanities l => Cached.DoBanProfanities (Cached.join_commas l)
  end.

(** [m] returns and sends the commands [cmds] to that server *)
Definition sends {other A : Type}
  (m : Cached.M (list Cached.command) other A) (cmds : list Cached.command)
  : Prop :=
  forall w, exists a w',
    m w = (Ok a, w')
    /\ Cached.server w' = Cached.server w ++ cmds.

(** * Properties *)

(** ** Regular expressions: which groups a match sets *)

Module ReFacts.
Import Re.

Lemma run_length (r : regex) :
  forall s caps a caps' s',
    In (a, caps', s') (run r s caps) -> length caps' = length caps.
Proof.
  induction r as [l|c|c|c|r1 IH1 r2 IH2|r1 IH1 r2 IH2|n r IH];
    intros s caps a caps' s'; simpl.
  - destruct (String.prefix l s); simpl; [|done]. by intros [[= _ <- _]|[]].
  - destruct s as [|x s]; [done|]. destruct (cls_test c x); simpl; [|done].
    by intros [[= _ <- _]|[]].
  - intros ([a0 b0] & [= _ <- _] & _)%in_map_iff. done.
  - intros ([a0 b0] & [= _ <- _] & _)%in_map_iff. done.
  - intros ([[a1 caps1] s1] & H1 & H2)%in_flat_map.
    apply in_map_iff in H2 as ([[a2 caps2] s2] & [= _ <- _] & H2).
    rewrite (IH2 _ _ _ _ _ H2). by apply (IH1 _ _ _ _ _ H1).
  - intros [H|H]%in_app_iff; [by apply (IH1 _ _ _ _ _ H)|by apply (IH2 _ _ _ _ _ H)].
  - intros ([[a0 caps0] s0] & [= _ <- _] & H)%in_map_iff.
    rewrite length_insert. by apply (IH _ _ _ _ _ H).
Qed.

Lemma run_untouched (r : regex) (n : nat) :
  touches r n = false ->
  forall s caps a caps' s',
    In (a, caps', s') (run r s caps) -> caps' !! n = caps !! n.
Proof.
  induction r as [l|c|c|c|r1 IH1 r2 IH2|r1 IH1 r2 IH2|m r IH];
    intros Ht s caps a caps' s'; simpl in *.
  - destruct (String.prefix l s); simpl; [|done]. by intros [[= _ <- _]|[]].
  - destruct s as [|x s]; [done|]. destruct (cls_test c x); simpl; [|done].
    by intros [[= _ <- _]|[]].
  - intros ([a0 b0] & [= _ <- _] & _)%in_map_iff. done.
  - intros ([a0 b0] & [= _ <- _] & _)%in_map_iff. done.
  - apply orb_false_iff in Ht as [Ht1 Ht2].
    intros ([[a1 caps1] s1] & H1 & H2)%in_flat_map.
    apply in_map_iff in H2 as ([[a2 caps2] s2] & [= _ <- _] & H2).
    rewrite (IH2 Ht2 _ _ _ _ _ H2). by apply (IH1 Ht1 _ _ _ _ _ H1).
  - apply orb_false_iff in Ht as [Ht1 Ht2].
    intros [H|H]%in_app_iff;
      [by apply (IH1 Ht1 _ _ _ _ _ H)|by apply (IH2 Ht2 _ _ _ _ _ H)].
  - apply orb_false_iff in Ht as [Hm Ht].
    apply Nat.eqb_neq in Hm.
    intros ([[a0 caps0] s0] & [= _ <- _] & H)%in_map_iff.
    rewrite list_lookup_insert_ne by done. by apply (IH Ht _ _ _ _ _ H).
Qed.

Lemma run_consumes (r : regex) (S : list string) :
  consumes r S = true ->
  forall s caps a caps' s', In (a, caps', s') (run r s caps) -> a ∈ S.
Proof.
  induction r as [l|c|c|c|r1 IH1 r2 IH2|r1 IH1 r2 IH2|m r IH];
    intros Hc s caps a caps' s'; simpl in *; try discriminate.
  - apply bool_decide_eq_true in Hc.
    destruct (String.prefix l s); simpl; [|done]. by intros [[= <- _ _]|[]].
  - apply andb_true_iff in Hc as [Hc1 Hc2].
    intros [H|H]%in_app_iff;
      [by apply (IH1 Hc1 _ _ _ _ _ H)|by apply (IH2 Hc2 _ _ _ _ _ H)].
  - intros ([[a0 caps0] s0] & [= <- _ _] & H)%in_map_iff.
    by apply (IH Hc _ _ _ _ _ H).
Qed.

Lemma run_sets (r : regex) (n : nat) (S : list string) :
  sets r n S = true ->
  forall s caps a caps' s',
    n < length caps -> In (a, caps', s') (run r s caps) ->
    exists g, g ∈ S /\ caps' !! n = Some (Some g).
Proof.
  induction r as [l|c|c|c|r1 IH1 r2 IH2|r1 IH1 r2 IH2|m r IH];
    intros Hs s caps a caps' s' Hn; simpl in *; try discriminate.
  - intros ([[a1 caps1] s1] & H1 & H2)%in_flat_map.
    apply in_map_iff in H2 as ([[a2 caps2] s2] & [= _ <- _] & H2).
    pose proof (run_length _ _ _ _ _ _ H1) as Hlen.
    apply orb_true_iff in Hs as [Hs|[Hs Ht]%andb_true_iff].
    + eapply (IH2 Hs); [|exact H2]. lia.
    + apply negb_true_iff in Ht.
      rewrite (run_untouched _ _ Ht _ _ _ _ _ H2).
      apply (IH1 Hs _ _ _ _ _ Hn H1).
  - apply andb_true_iff in Hs as [Hs1 Hs2].
    intros [H|H]%in_app_iff;
      [by apply (IH1 Hs1 _ _ _ _ _ Hn H)|by apply (IH2 Hs2 _ _ _ _ _ Hn H)].
  - intros ([[a0 caps0] s0] & [= _ <- _] & H)%in_map_iff.
    pose proof (run_length _ _ _ _ _ _ H) as Hlen.
    destruct (m =? n) eqn:Hm.
    + apply Nat.eqb_eq in Hm as ->. exists a0. split.
      * by apply (run_consumes _ _ Hs _ _ _ _ _ H).
      * apply list_lookup_insert_eq. lia.
    + apply Nat.eqb_neq in Hm. rewrite list_lookup_insert_ne by done.
      by apply (IH Hs _ _ _ _ _ Hn H).
Qed.

(** a group that the pattern always sets to one of the texts [S] holds
    one of them after [re.match] *)
Lemma rmatch_sets (k n : nat) (r : regex) (S : list string) (s : string)
  (caps : captures) :
  sets (Grp 0 r) n S = true -> n <= k ->
  rmatch k r s = Some caps ->
  exists g, g ∈ S /\ group caps n = Some g.
Proof.
  intros Hs Hn. unfold rmatch.
  destruct (run (Grp 0 r) s (replicate (Datatypes.S k) None))
    as [|[[a caps'] s'] l] eqn:Hrun; [discriminate|].
  intros [= <-].
  destruct (run_sets _ _ _ Hs s (replicate (Datatypes.S k) None) a caps' s')
    as (g & Hg & Hlook).
  - rewrite length_replicate. lia.
  - rewrite Hrun. by left.
  - exists g. split; [done|]. unfold group. by rewrite Hlook.
Qed.

End ReFacts.

(** ** The log parser *)

Section StringFacts.
Import PyStr.

Lemma prefix_cons (c : ascii) (p s : string) :
  String.prefix (String c p) s = true ->
  exists s', s = String c s' /\ String.prefix p s' = true.
Proof.
  destruct s as [|d s]; simpl; [discriminate|].
  destruct (ascii_dec c d) as [->|]; [|discriminate]. eauto.
Qed.

Lemma prefix_empty (s : string) : String.prefix "" s = true.
Proof. by destruct s. Qed.

Lemma split1_cons (sep : string) (c : ascii) (s a b : string) :
  String.prefix sep (String c s) = false ->
  split1 sep (String c s) = Some (a, b) ->
  exists a', a = String c a' /\ split1 sep s = Some (a', b).
Proof.
  intros Hp. cbn [split1]. rewrite Hp.
  destruct (split1 sep s) as [[a' b']|]; [|discriminate].
  intros [= <- <-]. eauto.
Qed.

Lemma parse_line_empty (representable : N -> bool) :
  parse_line representable "" = None.
Proof. reflexivity. Qed.

End StringFacts.

Ltac peel_prefix H :=
  repeat (apply prefix_cons in H as (? & -> & H)).
Ltac peel_token H :=
  repeat (apply split1_cons in H as (? & -> & H); [|reflexivity]).
Ltac in_list := apply (bool_decide_unpack _); vm_compute; exact I.

Section DispatchFacts.
Import PyStr Patterns.

Lemma token_CONNECTED (x a c : string) :
  startswith x "CONNECTED" = true -> split1 " " x = Some (a, c) ->
  startswith a "CONNECTED" = true.
Proof. unfold startswith. intros H Hs. peel_prefix H. peel_token Hs. cbn. by rewrite prefix_empty. Qed.

Lemma token_DISCONNECTED (x a c : string) :
  startswith x "DISCONNECTED" = true -> split1 " " x = Some (a, c) ->
  startswith a "DISCONNECTED" = true.
Proof. unfold startswith. intros H Hs. peel_prefix H. peel_token Hs. cbn. by rewrite prefix_empty. Qed.

Lemma token_KILL (x a c : string) :
  startswith x "KILL" = true -> split1 ": " x = Some (a, c) ->
  startswith a "KILL" = true.
Proof. unfold startswith. intros H Hs. peel_prefix H. peel_token Hs. cbn. by rewrite prefix_empty. Qed.

Lemma token_TEAM_KILL (x a c : string) :
  startswith x "TEAM KILL" = true -> split1 ": " x = Some (a, c) ->
  startswith a "TEAM KILL" = true.
Proof. unfold startswith. intros H Hs. peel_prefix H. peel_token Hs. cbn. by rewrite prefix_empty. Qed.


Lemma chat_groups (rest : string) (groups : Re.captures) :
  Re.rmatch 9 chat_regexp rest = Some groups ->
  (exists scope, scope ∈ ["Team"; "Unit"] /\ Re.group groups 1 = Some scope)
  /\ (exists side, side ∈ ["Allies"; "Axis"] /\ Re.group groups 5 = Some side).
Proof.
  intros H. split.
  - apply (ReFacts.rmatch_sets 9 1 chat_regexp _ rest groups); [done|lia|done].
  - apply (ReFacts.rmatch_sets 9 5 chat_regexp _ rest groups); [done|lia|done].
Qed.

Lemma tk_kick_groups (rest : string) (groups : Re.captures) :
  Re.rmatch 5 tk_kick_regexp rest = Some groups ->
  exists type_, type_ ∈ ["KICKED"; "BANNED FOR 2 HOURS"]
                /\ Re.group groups 3 = Some type_.
Proof.
  intros H.
  apply (ReFacts.rmatch_sets 5 3 tk_kick_regexp _ rest groups); [done|lia|done].
Qed.

(** the action the chain of branches assigns, when it assigns one *)
Lemma dispatch_action (rest : string) (v : vars) (a : string) :
  dispatch rest = Some v -> v_action v = Some a -> known_action a.
Proof.
  unfold dispatch.
  destruct (startswith rest "DISCONNECTED" || startswith rest "CONNECTED")
    eqn:Hconn.
  { destruct (split1 " " rest) as [[tok c]|] eqn:Hs; [|discriminate].
    intros [= <-] [= <-]. right.
    apply orb_true_iff in Hconn as [Hp|Hp].
    - exists "DISCONNECTED". split; [in_list|].
      by apply (token_DISCONNECTED rest tok c).
    - exists "CONNECTED". split; [in_list|].
      by apply (token_CONNECTED rest tok c). }
  destruct (startswith rest "KILL" || startswith rest "TEAM KILL") eqn:Hkill.
  { destruct (split1 ": " rest) as [[tok c]|] eqn:Hs; [|discriminate].
    intros [= <-] [= <-]. right.
    apply orb_true_iff in Hkill as [Hp|Hp].
    - exists "KILL". split; [in_list|]. by apply (token_KILL rest tok c).
    - exists "TEAM KILL". split; [in_list|].
      by apply (token_TEAM_KILL rest tok c). }
  destruct (startswith rest "CHAT").
  { destruct (Re.rmatch 9 chat_regexp rest) as [groups|] eqn:Hm;
      [|discriminate].
    destruct (chat_groups _ _ Hm) as [(scope & Hscope & Hg1) (side & Hside & Hg5)].
    simpl. rewrite Hg1, Hg5. intros [= <-] [= <-]. left.
    rewrite !elem_of_cons, elem_of_nil in Hscope, Hside.
    destruct Hscope as [->|[->|[]]], Hside as [->|[->|[]]]; in_list. }
  destruct (startswith rest "VOTE").
  { destruct (startswith rest "VOTE Player"
              && contains " against " (lower rest)).
    { destruct (Re.rmatch 2 vote_started_regexp rest); [|discriminate].
      destruct (last (split "VOTE" rest)); [|discriminate].
      intros [= <-] [= <-]. left. in_list. }
    destruct (startswith rest "VOTE Player" && contains "voted" (lower rest)).
    { destruct (Re.rmatch 1 voted_regexp rest); [|discriminate].
      destruct (last (split "VOTE" rest)); [|discriminate].
      intros [= <-] [= <-]. left. in_list. }
    destruct (contains "completed" (lower rest)).
    { destruct (last (split "VOTE" rest)); [|discriminate].
      intros [= <-] [= <-]. left. in_list. }
    destruct (contains "kick" (lower rest)).
    { destruct (Re.rmatch 1 vote_kick_regexp rest); [|discriminate].
      destruct (last (split "VOTE" rest)); [|discriminate].
      intros [= <-] [= <-]. left. in_list. }
    destruct (last (split "VOTE" rest)); [|discriminate].
    intros [= <-] [= <-]. left. in_list. }
  destruct (startswith (upper rest) "PLAYER").
  { destruct (split1 " " rest) as [[? content]|]; [|discriminate]. simpl.
    destruct (Re.rmatch 2 camera_regexp content).
    - destruct (rsplit1 "]" content) as [[? ?]|]; [|discriminate].
      intros [= <-] [= <-]. left. in_list.
    - intros [= <-] [= <-]. left. in_list. }
  destruct (startswith (upper rest) "TEAMSWITCH").
  { destruct (Re.rmatch 4 teamswitch_regexp rest);
      intros [= <-] [= <-]; left; in_list. }
  destruct (startswith (upper rest) "KICK" && contains "FOR TEAM KILLING" rest).
  { destruct (Re.rmatch 5 tk_kick_regexp rest) as [groups|] eqn:Hm.
    - destruct (tk_kick_groups _ _ Hm) as (type_ & Htype & Hg).
      intros [= <-]. simpl. rewrite Hg. intros [= <-]. left.
      rewrite !elem_of_cons, elem_of_nil in Htype.
      destruct Htype as [->|[->|[]]]; in_list.
    - intros [= <-]. discriminate. }
  destruct (startswith (upper rest) "MATCH START").
  { destruct (split "MATCH START " rest) as [|? [|? [|]]]; try discriminate.
    intros [= <-] [= <-]. left. in_list. }
  destruct (startswith (upper rest) "MATCH ENDED").
  { destruct (split "MATCH ENDED " rest) as [|? [|? [|]]]; try discriminate.
    intros [= <-] [= <-]. left. in_list. }
  discriminate.
Qed.

(** a line the chain of branches does not know is left *)
Lemma dispatch_unknown (rest : string) :
  startswith rest "DISCONNECTED" = false ->
  startswith rest "CONNECTED" = false ->
  startswith rest "KILL" = false ->
  startswith rest "TEAM KILL" = false ->
  startswith rest "CHAT" = false ->
  startswith rest "VOTE" = false ->
  startswith (upper rest) "PLAYER" = false ->
  startswith (upper rest) "TEAMSWITCH" = false ->
  (startswith (upper rest) "KICK" && contains "FOR TEAM KILLING" rest) = false ->
  startswith (upper rest) "MATCH START" = false ->
  startswith (upper rest) "MATCH ENDED" = false ->
  dispatch rest = None.
Proof.
  intros H1 H2 H3 H4 H5 H6 H7 H8 H9 H10 H11. unfold dispatch.
  by rewrite H1, H2, H3, H4, H5, H6, H7, H8, H9, H10, H11.
Qed.

Lemma connection_fields_action (v : vars) :
  v_action (connection_fields v) = v_action v.
Proof. unfold connection_fields. by destruct (in_set _ _). Qed.

Lemma kill_fields_action (v v' : vars) :
  kill_fields v = Some v' -> v_action v' = v_action v.
Proof.
  unfold kill_fields. destruct (in_set _ _); [|by intros [= <-]].
  destruct (split_at _ _ _ _) as [[[? parts] p2]|]; [|discriminate]. simpl.
  destruct (rsplit1 _ _) as [[? ?]|]; [|discriminate]. simpl.
  destruct (Re.rmatch _ _ _); [|discriminate]. by intros [= <-].
Qed.

Variable representable : N -> bool.

(** what a parsed line went through *)
Lemma parse_line_Some (line : string) (time : datetime) (rest : string)
  (v : vars) :
  parse_line representable line = Some (time, rest, v) ->
  exists field v0 n,
    split1 "] " line = Some (field, rest)
    /\ representable n = true /\ time = (1000000 * Z.of_N n)%Z
    /\ dispatch rest = Some v0
    /\ v_action v = v_action v0.
Proof.
  unfold parse_line.
  destruct (split1 "] " line) as [[field rest']|] eqn:Hsp; cbn [mbind option_bind];
    [|discriminate].
  destruct (_extract_time representable (skip 1 field)) as [t|] eqn:Ht;
    cbn [mbind option_bind]; [|discriminate].
  destruct (dispatch rest') as [v0|] eqn:Hd; cbn [mbind option_bind]; [|discriminate].
  destruct (kill_fields (connection_fields v0)) as [v1|] eqn:Hk;
    cbn [mbind option_bind]; [|discriminate].
  intros [= <- <- <-].
  unfold _extract_time in Ht.
  destruct (Re.rmatch 1 log_time_regexp (skip 1 field)) as [g|];
    [|discriminate]. simpl in Ht.
  destruct (Re.group g 1) as [digits|]; [|discriminate]. simpl in Ht.
  unfold fromtimestamp in Ht.
  destruct (representable (int digits)) eqn:Hr; [|discriminate].
  injection Ht as <-.
  exists field, v0, (int digits). repeat split; try done.
  rewrite (kill_fields_action _ _ Hk). apply connection_fields_action.
Qed.

Lemma parse_line_action (line : string) (p : datetime * string * vars)
  (a : string) :
  parse_line representable line = Some p -> v_action (snd p) = Some a ->
  known_action a.
Proof.
  destruct p as [[time rest] v]. intros Hp Ha.
  destruct (parse_line_Some _ _ _ _ Hp) as (field & v0 & n & _ & _ & _ & Hd & Hv).
  simpl in Ha. rewrite Hv in Ha. by apply (dispatch_action rest v0).
Qed.

End DispatchFacts.

Section LoopFacts.
Variable representable : N -> bool.
Variable timestamp_error : datetime -> option exn.

(** what the loop leaves in its three accumulators when it ends *)
Lemma parse_loop_Ok (now : datetime) (fa fp : pystr) (lines : list string) :
  forall st st',
    parse_loop representable timestamp_error now fa fp lines st = Ok st' ->
    res st' = res st ++ omap (emit representable timestamp_error now fa fp)
      lines
    /\ seen_actions st'
       = seen_actions st ∪ list_to_set (line_actions representable lines)
    /\ seen_players st'
       = seen_players st ∪ list_to_set (line_players representable lines).
Proof.
  induction lines as [|line lines IH]; intros st st'.
  - intros [= <-]. simpl. by rewrite app_nil_r, !(right_id_L ∅ (∪)).
  - unfold line_actions, line_players, emit in *.
    cbn [parse_loop omap list_omap mbind list_bind].
    destruct line as [|c line'].
    { rewrite parse_line_empty. simpl. apply IH. }
    destruct (parse_line representable (String c line'))
      as [[[time rest] v]|] eqn:Hp; [|simpl; apply IH].
    cbn [snd fmap option_fmap option_map].
    destruct (passes fa fp (String c line') v) as [[|]|e]; [| |discriminate].
    + destruct (make_event timestamp_error now (String c line') (time, rest, v))
        as [ev|e]; [|discriminate].
      intros H. apply IH in H as (Hres & Hact & Hpl).
      cbn [res seen_actions seen_players] in *.
      rewrite Hres, Hact, Hpl. rewrite <- app_assoc.
      cbn [list_to_set app]. by rewrite <- !(assoc_L (∪)).
    + intros H. apply IH in H as (Hres & Hact & Hpl). cbn [res seen_actions seen_players] in *.
      rewrite Hres, Hact, Hpl.
      cbn [list_to_set app]. by rewrite <- !(assoc_L (∪)).
Qed.

(** the filters raise only on a line left without an action, and only when
    an action filter is set *)
Lemma passes_cases (fa fp : pystr) (line : string) (v : vars) :
  (exists keep, passes fa fp line v = Ok keep)
  \/ (truthy fa = true /\ v_action v = None
      /\ passes fa fp line v = Raise AttributeError).
Proof.
  unfold passes.
  assert (exists keep,
             match fp with
             | Some (String _ _ as f) =>
                 if negb (PyStr.contains f line) then Ok false else Ok true
             | _ => Ok true
             end = Ok keep) as Hplayer.
  { destruct fp as [[|? f]|]; eauto. destruct (negb _); eauto. }
  destruct fa as [[|? f]|]; [by left| |by left].
  destruct (v_action v) as [act|]; [|by right].
  left. destruct (negb _); eauto.
Qed.

Lemma make_event_Ok (now : datetime) (line : string)
  (p : datetime * string * vars) :
  timestamp_error (fst (fst p)) = None ->
  exists e, make_event timestamp_error now line p = Ok e.
Proof.
  destruct p as [[time rest] v]. cbn [fst make_event]. intros ->. by eexists.
Qed.

Lemma make_event_Raise (now : datetime) (line : string)
  (p : datetime * string * vars) (e : exn) :
  timestamp_error (fst (fst p)) = Some e ->
  make_event timestamp_error now line p = Raise e.
Proof.
  destruct p as [[time rest] v]. cbn [fst make_event]. by intros ->.
Qed.

(** an event comes from a line that parsed, passed the filters and whose
    time [timestamp] accepted, and it has the fields of the variables *)
Lemma emit_Some (now : datetime) (fa fp : pystr) (line : string) (e : event) :
  emit representable timestamp_error now fa fp line = Some e ->
  exists time rest v,
    parse_line representable line = Some (time, rest, v)
    /\ passes fa fp line v = Ok true
    /\ timestamp_error time = None
    /\ make_event timestamp_error now line (time, rest, v) = Ok e
    /\ raw e = line /\ line_without_time e = rest
    /\ timestamp_ms e = (time / 1000)%Z
    /\ action e = v_action v
    /\ player e = v_player v /\ player2 e = v_player2 v.
Proof.
  unfold emit.
  destruct (parse_line representable line) as [[[time rest] v]|];
    [|discriminate].
  cbn [snd].
  destruct (passes fa fp line v) as [[|]|] eqn:Hpass; try discriminate.
  destruct (make_event timestamp_error now line (time, rest, v))
    as [ev|] eqn:Hev; [|discriminate].
  intros [= ->]. exists time, rest, v.
  unfold make_event in Hev.
  destruct (timestamp_error time) eqn:Ht; [discriminate|].
  injection Hev as <-. unfold make_event. rewrite Ht. cbn.
  split; [done|]. split; [done|]. split; [done|]. split; [done|].
  split; [done|]. split; [done|]. split; [done|]. split; [done|].
  split; done.
Qed.

(** the loop ends when no line raises, and is left by the exception of the
    first line that raises *)
Lemma parse_loop_returns (now : datetime) (fa fp : pystr) (lines : list string) :
  Forall (fun line =>
            line_error representable timestamp_error fa fp line = None) lines ->
  forall st, exists st',
    parse_loop representable timestamp_error now fa fp lines st = Ok st'.
Proof.
  induction 1 as [|line lines Hline _ IH]; intros st; [by eexists|].
  cbn [parse_loop]. unfold line_error in Hline.
  destruct line as [|c line']; [by apply IH|].
  destruct (parse_line representable (String c line')) as [[[time rest] v]|];
    [|by apply IH].
  cbn [snd fst] in Hline.
  destruct (passes fa fp (String c line') v) as [[|]|e]; [| |done].
  - destruct (make_event_Ok now (String c line') (time, rest, v) Hline)
      as [ev ->]. by apply IH.
  - by apply IH.
Qed.

Lemma parse_loop_raises (now : datetime) (fa fp : pystr) (lines : list string)
  (e : exn) :
  forall st,
    parse_loop representable timestamp_error now fa fp lines st = Raise e ->
    exists line,
      line ∈ lines
      /\ line_error representable timestamp_error fa fp line = Some e.
Proof.
  induction lines as [|line lines IH]; intros st; [discriminate|].
  cbn [parse_loop].
  assert (forall st0,
             parse_loop representable timestamp_error now fa fp lines st0
             = Raise e ->
             exists line0,
               line0 ∈ line :: lines
               /\ line_error representable timestamp_error fa fp line0
                  = Some e) as Hrest.
  { intros st0 H. destruct (IH st0 H) as (l0 & Hin & Herr).
    exists l0. split; [by right|done]. }
  destruct line as [|c line']; [apply Hrest|].
  destruct (parse_line representable (String c line'))
    as [[[time rest] v]|] eqn:Hp; [|apply Hrest].
  destruct (passes fa fp (String c line') v) as [[|]|e'] eqn:Hpass.
  - destruct (timestamp_error time) as [e'|] eqn:Ht.
    + rewrite (make_event_Raise now _ (time, rest, v) e' Ht).
      intros [= <-]. exists (String c line'). split; [left|].
      unfold line_error. rewrite Hp. cbn [snd fst]. by rewrite Hpass.
    + destruct (make_event_Ok now (String c line') (time, rest, v) Ht)
        as [ev ->]. apply Hrest.
  - apply Hrest.
  - intros [= <-]. exists (String c line'). split; [left|].
    unfold line_error. rewrite Hp. cbn [snd]. by rewrite Hpass.
Qed.

(** the clock only shows in the relative time of the events *)
Lemma make_event_shift (now1 now2 : datetime) (line : string)
  (p : datetime * string * vars) :
  match make_event timestamp_error now1 line p with
  | Ok e =>
      make_event timestamp_error now2 line p = Ok (shift (now1 - now2) e)
  | Raise x => make_event timestamp_error now2 line p = Raise x
  end.
Proof.
  destruct p as [[time rest] v]. unfold shift, make_event.
  destruct (timestamp_error time); [done|]. simpl.
  do 2 f_equal. lia.
Qed.

Lemma emit_shift (now1 now2 : datetime) (fa fp : pystr) (line : string) :
  emit representable timestamp_error now2 fa fp line
  = shift (now1 - now2) <$> emit representable timestamp_error now1 fa fp line.
Proof.
  unfold emit. destruct (parse_line representable line) as [p|]; [|done].
  destruct (passes fa fp line (snd p)) as [[|]|]; try done.
  pose proof (make_event_shift now1 now2 line p) as H.
  destruct (make_event timestamp_error now1 line p); by rewrite H.
Qed.

Lemma parse_loop_shift (now1 now2 : datetime) (fa fp : pystr)
  (lines : list string) :
  forall st1 st2,
    res st2 = shift (now1 - now2) <$> res st1 ->
    seen_actions st2 = seen_actions st1 ->
    seen_players st2 = seen_players st1 ->
    match parse_loop representable timestamp_error now1 fa fp lines st1 with
    | Ok st1' =>
        exists st2',
          parse_loop representable timestamp_error now2 fa fp lines st2 = Ok
            st2'
          /\ res st2' = shift (now1 - now2) <$> res st1'
          /\ seen_actions st2' = seen_actions st1'
          /\ seen_players st2' = seen_players st1'
    | Raise e => parse_loop representable timestamp_error now2 fa fp lines st2
      = Raise e
    end.
Proof.
  induction lines as [|line lines IH]; intros st1 st2 Hres Hact Hpl.
  - simpl. eauto.
  - cbn [parse_loop]. destruct line as [|c line']; [by apply IH|].
    destruct (parse_line representable (String c line')) as [[[time rest] v]|];
      [|by apply IH].
    destruct (passes fa fp (String c line') v) as [[|]|e]; [| |done].
    + pose proof (make_event_shift now1 now2 (String c line')
                    (time, rest, v)) as Hev.
      destruct (make_event timestamp_error now1 (String c line')
                  (time, rest, v)) as [ev|e]; rewrite Hev; [|done].
      apply IH; cbn [res seen_actions seen_players]; [|by rewrite Hact|by
        rewrite Hpl].
      rewrite fmap_app, Hres. done.
    + apply IH; cbn [res seen_actions seen_players]; [done|by rewrite Hact|by rewrite Hpl].
Qed.

End LoopFacts.

Section ParseLogsFacts.
Variable representable : N -> bool.
Variable timestamp_error : datetime -> option exn.

Lemma parse_logs_Ok (now : datetime) (raw : string) (fa fp : pystr)
  (b : LogBatch) :
  parse_logs representable timestamp_error now raw fa fp = Ok b ->
  logs b = reverse (omap (emit representable timestamp_error now fa fp)
    (log_lines raw))
  /\ players b
     = elements (list_to_set (line_players representable (log_lines raw))
                 : gset pystr)
  /\ actions b
     = elements (list_to_set (line_actions representable (log_lines raw))
                 : gset pystr)
       ++ (Some <$> LOG_ACTIONS).
Proof.
  unfold parse_logs. fold (log_lines raw).
  destruct (parse_loop representable timestamp_error now fa fp (log_lines raw)
    _)
    as [st|e] eqn:Hloop; [|discriminate].
  intros [= <-]. apply parse_loop_Ok in Hloop as (Hres & Hact & Hpl).
  cbn [res seen_actions seen_players logs players actions] in *.
  rewrite Hres, Hact, Hpl. by rewrite !(left_id_L ∅ (∪)).
Qed.

(** [parse_logs] returns when no line raises *)
Lemma parse_logs_returns (now : datetime) (raw : string) (fa fp : pystr) :
  Forall (fun line =>
            line_error representable timestamp_error fa fp line = None)
         (log_lines raw) ->
  exists b, parse_logs representable timestamp_error now raw fa fp = Ok b.
Proof.
  intros Hok. unfold parse_logs.
  destruct (parse_loop_returns representable timestamp_error now fa fp
              (log_lines raw) Hok
              {| res := []; seen_actions := ∅; seen_players := ∅ |})
    as [st Hst].
  unfold log_lines in Hst. rewrite Hst. by eexists.
Qed.

(** and raises the exception of one of its lines when it does not *)
Lemma parse_logs_raises (now : datetime) (raw : string) (fa fp : pystr)
  (e : exn) :
  parse_logs representable timestamp_error now raw fa fp = Raise e ->
  exists line,
    line ∈ log_lines raw
    /\ line_error representable timestamp_error fa fp line = Some e.
Proof.
  unfold parse_logs. fold (log_lines raw).
  destruct (parse_loop representable timestamp_error now fa fp (log_lines raw)
    _)
    as [st|e'] eqn:Hloop; [discriminate|].
  intros [= <-]. by eapply parse_loop_raises.
Qed.

Lemma omap_two {A B : Type} (f : A -> option B) (l : list A) (i j : nat)
  (x y : A) (a b : B) :
  i < j -> l !! i = Some x -> l !! j = Some y ->
  f x = Some a -> f y = Some b ->
  exists l1 l2 l3, omap f l = l1 ++ a :: l2 ++ b :: l3.
Proof.
  intros Hij Hi Hj Hx Hy.
  rewrite <- (take_drop_middle l i x Hi).
  assert (drop (S i) l !! (j - S i) = Some y) as Hj'.
  { rewrite lookup_drop. rewrite <- Hj. f_equal. lia. }
  rewrite <- (take_drop_middle _ _ _ Hj').
  rewrite omap_app. cbn [omap list_omap]. rewrite Hx.
  rewrite omap_app. cbn [omap list_omap]. rewrite Hy.
  eauto.
Qed.

End ParseLogsFacts.

(** the two lines of [sample_raw], as the parser reads them *)
Example parse_line_connected :
  (fun '(time, rest, v) => (time, v_action v, v_player v))
  <$> parse_line utc_platform "[15:49 min (1606998428)] CONNECTED T17 Scott"
  = Some (1606998428000000%Z, Some "CONNECTED", Some "T17 Scott").
Proof. vm_compute. reflexivity. Qed.

Example parse_line_kill :
  (fun '(time, rest, v) =>
     (v_action v, v_player v, v_steam_id_64_1 v, v_player2 v,
      v_steam_id_64_2 v, v_weapon v))
  <$> parse_line utc_platform
        "[16:01 min (1606998500)] KILL: Alice(Allies/111) -> Bob(Axis/222) with M1 Garand"
  = Some (Some "KILL", Some "Alice", Some "111", Some "Bob", Some "222",
          Some "M1 Garand").
Proof. vm_compute. reflexivity. Qed.

(** What does hold of the filters: two calls on the same blob that both
    return give the same players and the same actions, whatever their
    filters and the clocks they read; the filters only keep events out of
    the list of events. *)
Lemma parse_logs_filters_keep_sets (representable : N -> bool)
  (timestamp_error : datetime -> option exn)
  (now now' : datetime) (raw : string)
  (filter_action filter_player filter_action' filter_player' : pystr)
  (b b' : LogBatch) :
  parse_logs representable timestamp_error now raw filter_action filter_player
  = Ok b ->
  parse_logs representable timestamp_error now' raw filter_action'
    filter_player' = Ok b' ->
  players b = players b' /\ actions b = actions b'.
Proof.
  intros Hb Hb'.
  apply parse_logs_Ok in Hb as (_ & Hpl & Hact).
  apply parse_logs_Ok in Hb' as (_ & Hpl' & Hact').
  by rewrite Hpl, Hpl', Hact, Hact'.
Qed.

Example parse_logs_filters_keep_sets_sample :
  exists b b0,
    parse_logs utc_platform utc_timestamp 0 sample_raw (Some "KILL")
      (Some "Bob") = Ok b
    /\ parse_logs utc_platform utc_timestamp 0 sample_raw None None = Ok b0
    /\ length (logs b) = 1 /\ length (logs b0) = 2
    /\ players b = players b0 /\ actions b = actions b0.
Proof.
  eexists. eexists. split; [vm_compute; reflexivity|].
  split; [vm_compute; reflexivity|]. split; [reflexivity|].
  split; [reflexivity|].
  apply (parse_logs_filters_keep_sets utc_platform utc_timestamp 0 0
           sample_raw (Some "KILL") (Some "Bob") None None);
    vm_compute; reflexivity.
Qed.

(** C7: on the line of [sample_kick], which its branch leaves without an
    action, the call without filters returns the players and the actions
    of the blob, and the call with the action filter "KILL" returns none of
    them: it raises [AttributeError]. *)
Theorem parse_logs_filter_loses_sets :
  (exists b0,
      parse_logs utc_platform utc_timestamp 0 sample_kick None None = Ok b0
      /\ players b0 = [None]
      /\ actions b0 = None :: (Some <$> LOG_ACTIONS))
  /\ parse_logs utc_platform utc_timestamp 0 sample_kick (Some "KILL") None
     = Raise AttributeError
  /\ ~ (exists b,
           parse_logs utc_platform utc_timestamp 0 sample_kick (Some "KILL")
             None = Ok b).
Proof.
  split; [|split].
  - eexists. split; [vm_compute; reflexivity|]. split; reflexivity.
  - vm_compute. reflexivity.
  - intros [b Hb]. vm_compute in Hb. discriminate Hb.
Qed.

(** The filters also decide whether [timestamp] is called: nine hours east
    of Greenwich, a line of the last hours of the year 9999 makes the call
    without filters raise [ValueError], and a call whose filter keeps the
    line out returns the player and the action of the line. *)
Example parse_logs_timestamp_raises :
  parse_logs tokyo_platform tokyo_timestamp 0 sample_last_day None None
  = Raise ValueError
  /\ exists b,
       parse_logs tokyo_platform tokyo_timestamp 0 sample_last_day
         (Some "KILL") None = Ok b
       /\ logs b = []
       /\ players b ≡ₚ [Some "T17 Scott"; None]
       /\ actions b = Some "CONNECTED" :: (Some <$> LOG_ACTIONS).
Proof.
  split; [vm_compute; reflexivity|].
  eexists. split; [vm_compute; reflexivity|].
  split; [reflexivity|]. split; reflexivity.
Qed.

(** C8: the events come out in the reverse of the order of their lines: of
    two lines that both give an event, the event of the later line comes
    first. *)
Theorem parse_logs_reverses (representable : N -> bool)
  (timestamp_error : datetime -> option exn) (now : datetime)
  (raw : string) (filter_action filter_player : pystr) (b : LogBatch) :
  parse_logs representable timestamp_error now raw filter_action filter_player
    = Ok b ->
  logs b
  = reverse (omap (emit representable timestamp_error now filter_action
                     filter_player)
                  (log_lines raw))
  /\ forall (i j : nat) (L1 L2 : string) (e1 e2 : event),
      i < j ->
      log_lines raw !! i = Some L1 -> log_lines raw !! j = Some L2 ->
      emit representable timestamp_error now filter_action filter_player L1
      = Some e1 ->
      emit representable timestamp_error now filter_action filter_player L2
      = Some e2 ->
      exists p q, p < q /\ logs b !! p = Some e2 /\ logs b !! q = Some e1.
Proof.
  intros Hb. apply parse_logs_Ok in Hb as (Hlogs & _ & _).
  split; [done|].
  intros i j L1 L2 e1 e2 Hij Hi Hj He1 He2.
  destruct (omap_two _ _ i j L1 L2 e1 e2 Hij Hi Hj He1 He2)
    as (l1 & l2 & l3 & Hsplit).
  rewrite Hlogs, Hsplit.
  rewrite reverse_app, reverse_cons, reverse_app, reverse_cons.
  rewrite <- !app_assoc. cbn [app].
  exists (length (reverse l3)), (length (reverse l3 ++ e2 :: reverse l2)).
  split; [rewrite length_app; simpl; lia|]. split.
  - by apply list_lookup_middle.
  - change (reverse l3 ++ e2 :: reverse l2 ++ e1 :: reverse l1)
      with (reverse l3 ++ (e2 :: reverse l2) ++ e1 :: reverse l1).
    rewrite app_assoc. by apply list_lookup_middle.
Qed.

Lemma parse_logs_reverses_witness :
  exists b,
    parse_logs utc_platform utc_timestamp 0 sample_raw None None = Ok b
    /\ (action <$> logs b) = [Some "KILL"; Some "CONNECTED"]
    /\ logs b = reverse (omap (emit utc_platform utc_timestamp 0 None None)
                              (log_lines sample_raw)).
Proof.
  eexists. split; [vm_compute; reflexivity|]. split; [reflexivity|].
  apply (parse_logs_reverses utc_platform utc_timestamp 0 sample_raw None None).
  vm_compute. reflexivity.
Defined.



(** C6: on the empty blob the actions returned are those of [LOG_ACTIONS],
    which has neither "CAMERA" nor "TEAM KILL". *)
Theorem parse_logs_actions_lack_camera (representable : N -> bool)
  (timestamp_error : datetime -> option exn)
  (now : datetime) :
  exists b,
    parse_logs representable timestamp_error now "" None None = Ok b
    /\ actions b = Some <$> LOG_ACTIONS
    /\ logs b = []
    /\ (Some "CAMERA" ∉ actions b)
    /\ (Some "TEAM KILL" ∉ actions b).
Proof.
  eexists. split; [vm_compute; reflexivity|].
  split; [reflexivity|]. split; [reflexivity|].
  split; in_list.
Qed.

(** What does hold of every event returned: it has the time stamp decoded
    from the time field of its line, and comes from a line whose time field
    decodes and that one of the branches took to its end; its action, when
    it has one, is not empty: it is an action of the vocabulary, or the
    leading token of a line that begins with CONNECTED, DISCONNECTED, KILL or
    TEAM KILL. *)
Lemma parse_logs_events (representable : N -> bool)
  (timestamp_error : datetime -> option exn) (now : datetime)
  (blob : string) (filter_action filter_player : pystr) (b : LogBatch)
  (e : event) :
  parse_logs representable timestamp_error now blob filter_action filter_player
    = Ok b ->
  e ∈ logs b ->
  (exists (field : string) (n : N),
      PyStr.split1 "] " (raw e) = Some (field, line_without_time e)
      /\ representable n = true
      /\ timestamp_ms e = (1000 * Z.of_N n)%Z)
  /\ (exists p,
         raw e ∈ log_lines blob
         /\ parse_line representable (raw e) = Some p
         /\ is_Some (dispatch (line_without_time e))
         /\ make_event timestamp_error now (raw e) p = Ok e)
  /\ (forall a, action e = Some a -> a <> "" /\ known_action a).
Proof.
  intros Hb He. apply parse_logs_Ok in Hb as (Hlogs & _ & _).
  rewrite Hlogs in He. apply elem_of_reverse, list_elem_of_omap in He
    as (line & Hline & Hemit).
  unfold emit in Hemit.
  destruct (parse_line representable line) as [[[time rest] v]|] eqn:Hp;
    [|discriminate].
  destruct (passes _ _ _ _) as [[|]|]; try discriminate.
  destruct (make_event timestamp_error now line (time, rest, v))
    as [ev|] eqn:Hev; [|discriminate].
  injection Hemit as ->.
  assert (raw e = line /\ line_without_time e = rest
          /\ timestamp_ms e = (time / 1000)%Z /\ action e = v_action v)
    as (Hraw & Hrest & Hstamp & Haction).
  { unfold make_event in Hev. destruct (timestamp_error time); [done|].
    by injection Hev as <-. }
  rewrite Hraw, Hrest, Hstamp, Haction.
  destruct (parse_line_Some _ _ _ _ _ Hp)
    as (field & v0 & n & Hsplit & Hrep & -> & Hd & Hact).
  split; [|split].
  - exists field, n. split; [done|]. split; [done|].
    rewrite Z.mul_comm.
    change 1000000%Z with (1000 * 1000)%Z.
    rewrite Z.mul_assoc. rewrite Z.div_mul by done. lia.
  - exists (1000000 * Z.of_N n, rest, v)%Z.
    split; [done|]. split; [done|]. split; [|done].
    rewrite Hd. by eexists.
  - intros a Ha.
    pose proof (parse_line_action _ _ _ a Hp Ha) as Hknown.
    split; [|done].
    intros ->. destruct Hknown as [Hin|(k & Hk & Hpre)].
    + revert Hin. in_list.
    + unfold token_keywords in Hk.
      rewrite !elem_of_cons, elem_of_nil in Hk.
      destruct Hk as [->|[->|[->|[->|[]]]]]; discriminate.
Qed.

Example parse_logs_events_sample :
  exists b e,
    parse_logs utc_platform utc_timestamp 0 sample_raw None None = Ok b
    /\ e ∈ logs b
    /\ timestamp_ms e = 1606998500000%Z
    /\ forall a, action e = Some a -> a <> "" /\ known_action a.
Proof.
  assert (exists b e,
             parse_logs utc_platform utc_timestamp 0 sample_raw None None = Ok b
             /\ e ∈ logs b /\ timestamp_ms e = 1606998500000%Z)
    as (b & e & Hb & He & Ht).
  { eexists. eexists. split; [vm_compute; reflexivity|].
    split; [left|reflexivity]. }
  exists b, e. split; [exact Hb|]. split; [exact He|]. split; [exact Ht|].
  apply (parse_logs_events utc_platform utc_timestamp 0 sample_raw None None b
    e Hb He).
Qed.

(** the branches test prefixes only: the leading token of a line that
    begins with a keyword is its action, in the vocabulary or not *)
Lemma parse_logs_action_outside_vocabulary :
  ~ (forall (representable : N -> bool)
            (timestamp_error : datetime -> option exn)
            (now : datetime) (blob : string)
            (filter_action filter_player : pystr) (b : LogBatch) (e : event),
        parse_logs representable timestamp_error now blob filter_action
          filter_player = Ok b ->
        e ∈ logs b ->
        exists a, action e = Some a /\ a ∈ vocabulary).
Proof.
  intros H.
  assert (exists b e,
             parse_logs utc_platform utc_timestamp 0
               "[0:01 min (1)] CONNECTEDX y" None None
             = Ok b
             /\ e ∈ logs b /\ action e = Some "CONNECTEDX")
    as (b & e & Hb & He & Ha).
  { eexists. eexists. split; [vm_compute; reflexivity|]. split; [left|done]. }
  destruct (H _ _ _ _ _ _ _ _ Hb He) as (a & Ha' & Hin).
  rewrite Ha in Ha'. injection Ha' as <-.
  revert Hin. in_list.
Qed.

(** a CAMERA line whose fields are not found is returned all the same *)
Example parse_logs_camera_without_fields :
  (fun b => (action <$> logs b, player <$> logs b))
  <$> (match parse_logs utc_platform utc_timestamp 0
               "[0:01 min (1)] PLAYER x" None None with
       | Ok b => Some b
       | Raise _ => None
       end)
  = Some ([Some "CAMERA"], [None]).
Proof. vm_compute. reflexivity. Qed.

(** C1: a KICK line for team killing that the pattern of its branch does
    not match is not dropped.  The branch only logs an error, [action] keeps
    its default [None], and the event is returned with a null action; when
    an action filter is set the call raises on that line instead. *)
Theorem parse_logs_kick_null_action :
  ((fun b => (action <$> logs b, actions b !! 0))
   <$> (match parse_logs utc_platform utc_timestamp 0 sample_kick None None with
        | Ok b => Some b
        | Raise _ => None
        end)
   = Some ([None], Some None))
  /\ parse_logs utc_platform utc_timestamp 0 sample_kick (Some "KILL") None
     = Raise AttributeError.
Proof. split; vm_compute; reflexivity. Qed.

(** ** Sorting *)

Section SortingFacts.
Context {A : Type} (le : A -> A -> bool).

Lemma insert_sorted_Permutation (x : A) (l : list A) :
  insert_sorted le x l ≡ₚ x :: l.
Proof.
  induction l as [|y l IH]; simpl; [done|].
  destruct (le x y); [done|]. rewrite IH. apply Permutation_swap.
Qed.

Lemma sorted_Permutation (l : list A) : sorted le l ≡ₚ l.
Proof.
  induction l as [|x l IH]; simpl; [done|].
  rewrite insert_sorted_Permutation. by rewrite IH.
Qed.

Lemma filter_insert_other (P : A -> bool) (x : A) (l : list A) :
  P x = false ->
  List.filter P (insert_sorted le x l) = List.filter P l.
Proof.
  intros Hx. induction l as [|y l IH]; simpl; [by rewrite Hx|].
  destruct (le x y); simpl; [by rewrite Hx|]. by rewrite IH.
Qed.

Hypothesis le_total : forall a b, le a b = true \/ le b a = true.
Hypothesis le_trans :
  forall a b c, le a b = true -> le b c = true -> le a c = true.

Lemma insert_sorted_Forall (x y : A) (l : list A) :
  le y x = true -> Forall (fun z => le y z = true) l ->
  Forall (fun z => le y z = true) (insert_sorted le x l).
Proof.
  intros Hyx Hl. rewrite insert_sorted_Permutation. by constructor.
Qed.

Lemma insert_sorted_StronglySorted (x : A) (l : list A) :
  StronglySorted (fun a b => le a b = true) l ->
  StronglySorted (fun a b => le a b = true) (insert_sorted le x l).
Proof.
  induction 1 as [|y l Hl IH Hy]; simpl.
  - repeat constructor.
  - destruct (le x y) eqn:Hxy.
    + constructor; [by constructor|]. constructor; [done|].
      eapply Forall_impl; [exact Hy|]. intros z Hz. by eapply le_trans.
    + constructor; [done|]. apply insert_sorted_Forall; [|done].
      destruct (le_total x y) as [H|H]; [congruence|done].
Qed.

(** the result is in order: every element is at most those after it *)
Lemma sorted_StronglySorted (l : list A) :
  StronglySorted (fun a b => le a b = true) (sorted le l).
Proof.
  induction l as [|x l IH]; simpl; [constructor|].
  by apply insert_sorted_StronglySorted.
Qed.

Lemma filter_insert_tied (x0 x : A) (l : list A) :
  tied le x0 x = true ->
  List.filter (tied le x0) (insert_sorted le x l)
  = x :: List.filter (tied le x0) l.
Proof.
  intros Hx. induction l as [|y l IH]; simpl; [by rewrite Hx|].
  destruct (le x y) eqn:Hxy; simpl; [by rewrite Hx|].
  destruct (tied le x0 y) eqn:Hy; [|done].
  exfalso. unfold tied in Hx, Hy.
  apply andb_true_iff in Hx as [_ Hxx0]. apply andb_true_iff in Hy as [Hx0y _].
  rewrite (le_trans x x0 y Hxx0 Hx0y) in Hxy. discriminate.
Qed.

(** the sort is stable: the elements with a given key keep the order they
    had *)
Lemma sorted_stable (x0 : A) (l : list A) :
  List.filter (tied le x0) (sorted le l) = List.filter (tied le x0) l.
Proof.
  induction l as [|x l IH]; simpl; [done|].
  destruct (tied le x0 x) eqn:Hx.
  - rewrite filter_insert_tied by done. by rewrite IH.
  - rewrite filter_insert_other by done. done.
Qed.

End SortingFacts.

Lemma sorted_sorted_desc {A : Type} (le : A -> A -> bool) (l : list A) :
  (forall a b, le a b = true \/ le b a = true) ->
  (forall a b c, le a b = true -> le b c = true -> le a c = true) ->
  sorted_desc le l (sorted (fun a b => le b a) l).
Proof.
  intros Htotal Htrans.
  set (ge := fun a b : A => le b a).
  assert (forall a b, ge a b = true \/ ge b a = true) as Hgt
    by (intros a b; apply Htotal).
  assert (forall a b c, ge a b = true -> ge b c = true -> ge a c = true)
    as Hgtr by (intros a b c H1 H2; by apply (Htrans c b a)).
  split; [apply sorted_Permutation|].
  split; [apply (sorted_StronglySorted ge Hgt Hgtr)|].
  intros x.
  assert (forall y, tied le x y = tied ge x y) as Htied
    by (intros y; unfold tied, ge; apply andb_comm).
  rewrite !(filter_ext _ _ Htied).
  apply (sorted_stable ge Hgtr).
Qed.

(** ** The VIP list *)

Lemma leb_trans (a b c : string) :
  String.leb a b = true -> String.leb b c = true -> String.leb a c = true.
Proof.
  intros Hab Hbc. apply Is_true_true.
  change (String.le a c). transitivity b; apply Is_true_true; done.
Qed.

Lemma name_le_total (a b : vip) : name_le a b = true \/ name_le b a = true.
Proof. apply String.leb_total. Qed.

Lemma name_le_trans (a b c : vip) :
  name_le a b = true -> name_le b c = true -> name_le a c = true.
Proof. apply leb_trans. Qed.

Lemma parse_vips_Ok (res : list string) (l : list vip) :
  parse_vips res = Ok l <-> Forall2 (fun item v => parse_vip item = Ok v) res l.
Proof.
  revert l. induction res as [|item res IH]; intros l; simpl.
  - split; [by intros [= <-]; constructor|by inversion 1].
  - destruct (parse_vip item) as [v|e] eqn:Hv.
    + destruct (parse_vips res) as [l'|e'].
      * split.
        -- intros [= <-]. constructor; [done|]. by apply IH.
        -- inversion 1 as [|? v' ? l'' Hv' Hl]; subst.
           rewrite Hv in Hv'. injection Hv' as <-.
           apply IH in Hl. by injection Hl as <-.
      * split; [discriminate|].
        inversion 1 as [|? v' ? l'' Hv' Hl]; subst. by apply IH in Hl.
    + split; [discriminate|].
      inversion 1 as [|? v' ? l'' Hv' Hl]; subst. congruence.
Qed.

(** C10: when every entry of the reply parses, [get_vip_ids] returns the
    records of the entries sorted by name, ascending, and it does so
    whatever the order of the reply: for any reordering of the reply it
    returns the same records, again sorted by name. *)
Theorem get_vip_ids_sorted (res : list string) :
  Forall (fun item => exists v, parse_vip item = Ok v) res ->
  exists l records,
    get_vip_ids res = Ok l
    /\ Forall2 (fun item v => parse_vip item = Ok v) res records
    /\ l ≡ₚ records
    /\ by_name l
    /\ forall res', res' ≡ₚ res ->
         exists l', get_vip_ids res' = Ok l' /\ l' ≡ₚ l /\ by_name l'.
Proof.
  intros Hall.
  assert (exists records, Forall2 (fun item v => parse_vip item = Ok v) res records)
    as [records Hrec].
  { induction Hall as [|item res [v Hv] _ [records IH]].
    - exists []. constructor.
    - exists (v :: records). by constructor. }
  exists (sorted name_le records), records.
  pose proof (proj2 (parse_vips_Ok _ _) Hrec) as Hparse.
  unfold get_vip_ids. rewrite Hparse.
  split; [done|]. split; [done|].
  split; [apply sorted_Permutation|].
  split; [apply (sorted_StronglySorted name_le name_le_total name_le_trans)|].
  intros res' Hperm.
  destruct (Permutation_Forall2 (Permutation_sym Hperm) Hrec)
    as (records' & Hperm' & Hrec').
  apply parse_vips_Ok in Hrec'. rewrite Hrec'.
  exists (sorted name_le records'). split; [done|]. split.
  - by rewrite !sorted_Permutation, Hperm'.
  - apply (sorted_StronglySorted name_le name_le_total name_le_trans).
Qed.

Lemma get_vip_ids_sorted_witness :
  exists l,
    get_vip_ids sample_vips = Ok l
    /\ (name <$> l) = ["Alice"; "Zed"]
    /\ by_name l.
Proof.
  destruct (get_vip_ids_sorted sample_vips)
    as (l & records & Hl & _ & _ & Hsorted & _).
  { repeat constructor; eexists; vm_compute; reflexivity. }
  exists l. split; [exact Hl|]. split; [|exact Hsorted].
  revert Hl. vm_compute. by intros [= <-].
Defined.

(** ** The scoreboard *)

Section ScoreboardFacts.
Context {float : Type}.
Variable fdiv : nat -> nat -> float.
Variable fle : float -> float -> bool.
Variable fmt2 : float -> string.

(** the order of floats is a total preorder *)
Hypothesis fle_total : forall a b, fle a b = true \/ fle b a = true.
Hypothesis fle_trans :
  forall a b c, fle a b = true -> fle b c = true -> fle a c = true.

Lemma key_le_order (sort : string) (le : score float -> score float -> bool) :
  key_le float fle sort = Some le ->
  (forall a b, le a b = true \/ le b a = true)
  /\ (forall a b c, le a b = true -> le b c = true -> le a c = true).
Proof.
  unfold key_le. repeat case_bool_decide; intros [= <-]; split; intros.
  - apply String.leb_total.
  - by eapply leb_trans.
  - destruct (Nat.leb_spec (real_kills a) (real_kills b));
      [by left|right; apply Nat.leb_le; lia].
  - apply Nat.leb_le. etransitivity; by apply Nat.leb_le.
  - destruct (Nat.leb_spec (real_death a) (real_death b));
      [by left|right; apply Nat.leb_le; lia].
  - apply Nat.leb_le. etransitivity; by apply Nat.leb_le.
  - apply fle_total.
  - by eapply fle_trans.
Qed.

Lemma board_ok (names : list pystr) (events : list event) :
  Forall (entry_ok float fdiv events) (board float fdiv names events).
Proof.
  induction names as [|p names IH]; cbn [board]; [constructor|].
  destruct p as [[|c p]|]; [done| |done].
  destruct (tally (String c p) events 0 0) as [kills death] eqn:Ht.
  destruct ((kills =? 0) && (death =? 0)) eqn:Hz; [done|].
  constructor; [|done]. unfold entry_ok. simpl.
  split; [done|]. split; [|done].
  intros [-> ->]. discriminate.
Qed.

(** the entries of the board come in the order of the names *)
Lemma board_players (names : list pystr) (events : list event) :
  sublist (Some <$> (sc_player <$> board float fdiv names events)) names.
Proof.
  induction names as [|n names IH]; [done|]. cbn [board].
  destruct n as [[|c p]|]; try by apply sublist_cons.
  destruct (tally (String c p) events 0 0) as [kills death].
  destruct ((kills =? 0) && (death =? 0)); [by apply sublist_cons|].
  cbn [fmap list_fmap sc_player]. by apply sublist_skip.
Qed.

(** the sort raises on the first entry when the key is not one of the
    dict, and sorts by the key otherwise *)
Lemma get_scoreboard_sorted (batch : LogBatch) (sort : string)
  (le : score float -> score float -> bool) :
  key_le float fle sort = Some le ->
  get_scoreboard float fdiv fle fmt2 batch sort
  = Ok (format_row float fmt2
        <$> sorted (fun a b => le b a)
              (board float fdiv (players batch) (logs batch))).
Proof.
  intros Hle. unfold get_scoreboard. rewrite Hle.
  by destruct (board float fdiv (players batch) (logs batch)).
Qed.

(** C5: every row of the scoreboard has the quotient of its kills by its
    deaths, the deaths counted as one when there are none, formatted to
    two decimals as its ratio; no row has neither a kill nor a death; and
    the rows are those of the players of the batch, sorted by the key
    asked for, greatest first, the rows with the same key in the order of
    the players of the batch, which is the order the entries are made in:
    by the ratio (the default), by the kills, by the deaths or by the name
    of the player.  A key that is none of these raises [KeyError], unless
    there is no row. *)
Theorem get_scoreboard_rows (batch : LogBatch) (sort : string) :
  match get_scoreboard float fdiv fle fmt2 batch sort with
  | Ok rows =>
      Forall (fun r =>
                row_ratio r
                = fmt2 (fdiv (row_kills r) (Nat.max (row_death r) 1))
                /\ ~ (row_kills r = 0 /\ row_death r = 0)
                /\ (row_kills r, row_death r)
                   = tally (row_player r) (logs batch) 0 0) rows
      /\ sublist
           (Some <$> (sc_player
                      <$> board float fdiv (players batch) (logs batch)))
           (players batch)
      /\ exists entries,
           rows = format_row float fmt2 <$> entries
           /\ entries ≡ₚ board float fdiv (players batch) (logs batch)
           /\ (sort = "ratio" ->
               sorted_desc (fun a b => fle (ratio a) (ratio b))
                 (board float fdiv (players batch) (logs batch)) entries)
           /\ (sort = "(real) kills" ->
               sorted_desc (fun a b => real_kills a <=? real_kills b)
                 (board float fdiv (players batch) (logs batch)) entries)
           /\ (sort = "(real) death" ->
               sorted_desc (fun a b => real_death a <=? real_death b)
                 (board float fdiv (players batch) (logs batch)) entries)
           /\ (sort = "player" ->
               sorted_desc (fun a b => String.leb (sc_player a) (sc_player b))
                 (board float fdiv (players batch) (logs batch)) entries)
           /\ (sort ∉ ["ratio"; "(real) kills"; "(real) death"; "player"] ->
               entries = [])
  | Raise e =>
      e = KeyError
      /\ (sort ∉ ["ratio"; "(real) kills"; "(real) death"; "player"])
      /\ board float fdiv (players batch) (logs batch) <> []
  end.
Proof.
  pose proof (board_ok (players batch) (logs batch)) as Hok.
  assert (forall entries,
             entries ≡ₚ board float fdiv (players batch) (logs batch) ->
             Forall (fun r =>
                row_ratio r
                = fmt2 (fdiv (row_kills r) (Nat.max (row_death r) 1))
                /\ ~ (row_kills r = 0 /\ row_death r = 0)
                /\ (row_kills r, row_death r)
                   = tally (row_player r) (logs batch) 0 0)
               (format_row float fmt2 <$> entries)) as Hrows.
  { intros entries Hperm. apply Forall_fmap.
    rewrite Hperm. eapply Forall_impl; [exact Hok|].
    intros o (Hcount & Hnz & Hratio). simpl. by rewrite Hratio. }
  assert (forall k, k ∈ ["ratio"; "(real) kills"; "(real) death"; "player"]
                    <-> k = "ratio" \/ k = "(real) kills"
                        \/ k = "(real) death" \/ k = "player") as Hkeys.
  { intros k. rewrite !elem_of_cons, elem_of_nil. tauto. }
  destruct (key_le float fle sort) as [le|] eqn:Hle.
  - rewrite (get_scoreboard_sorted batch sort le Hle).
    destruct (key_le_order sort le Hle) as [Htotal Htrans].
    pose proof (sorted_sorted_desc le
                  (board float fdiv (players batch) (logs batch))
                  Htotal Htrans) as Hsorted.
    split; [apply Hrows, sorted_Permutation|].
    split; [apply board_players|].
    eexists. split; [done|]. split; [apply sorted_Permutation|].
    unfold key_le in Hle.
    repeat case_bool_decide; try discriminate; injection Hle as <-; subst sort;
      do 4 (split;
            [first [solve [intros _; exact Hsorted]
                   |solve [intros Heq; discriminate Heq]]|]);
      intros Hn; exfalso; apply Hn, Hkeys; tauto.
  - assert (sort ∉ ["ratio"; "(real) kills"; "(real) death"; "player"])
      as Hnot.
    { intros Hin%Hkeys. unfold key_le in Hle.
      repeat case_bool_decide; try discriminate; tauto. }
    unfold get_scoreboard. rewrite Hle.
    destruct (board float fdiv (players batch) (logs batch)) as [|o l] eqn:Hb.
    + split; [constructor|].
      split; [rewrite <- Hb; apply board_players|].
      exists []. split; [done|]. split; [done|].
      split; [by intros ->; exfalso; apply Hnot, Hkeys; tauto|].
      split; [by intros ->; exfalso; apply Hnot, Hkeys; tauto|].
      split; [by intros ->; exfalso; apply Hnot, Hkeys; tauto|].
      split; [by intros ->; exfalso; apply Hnot, Hkeys; tauto|].
      done.
    + split; [done|]. split; [done|]. done.
Qed.

End ScoreboardFacts.

Lemma Qle_bool_total (a b : Q) : Qle_bool a b = true \/ Qle_bool b a = true.
Proof.
  destruct (Qlt_le_dec a b) as [H|H].
  - left. apply Qle_bool_iff. by apply Qlt_le_weak.
  - right. by apply Qle_bool_iff.
Qed.

Lemma Qle_bool_trans (a b c : Q) :
  Qle_bool a b = true -> Qle_bool b c = true -> Qle_bool a c = true.
Proof.
  rewrite !Qle_bool_iff. apply Qle_trans.
Qed.

Lemma get_scoreboard_rows_witness :
  exists rows,
    get_scoreboard Q q_div Qle_bool q_fmt2 sample_batch "ratio" = Ok rows
    /\ ((fun r => (row_player r, row_kills r, row_death r, row_ratio r)) <$> rows)
       = [("Alice", 1, 0, "1.00"); ("Bob", 0, 1, "0.00")]
    /\ Forall (fun r =>
                 row_ratio r
                 = q_fmt2 (q_div (row_kills r) (Nat.max (row_death r) 1))
                 /\ ~ (row_kills r = 0 /\ row_death r = 0)
                 /\ (row_kills r, row_death r)
                    = tally (row_player r) (logs sample_batch) 0 0) rows
    /\ exists entries,
         rows = format_row Q q_fmt2 <$> entries
         /\ sorted_desc (fun a b => Qle_bool (ratio a) (ratio b))
              (board Q q_div (players sample_batch) (logs sample_batch))
              entries.
Proof.
  pose proof (get_scoreboard_rows q_div Qle_bool q_fmt2 Qle_bool_total
                Qle_bool_trans sample_batch "ratio") as H.
  destruct (get_scoreboard Q q_div Qle_bool q_fmt2 sample_batch "ratio")
    as [rows|e] eqn:Hrows; [|by vm_compute in Hrows].
  exists rows. split; [done|].
  destruct H as (Hall & _ & entries & Hfmt & _ & Hsorted & _).
  split; [vm_compute in Hrows; by injection Hrows as <-|].
  split; [exact Hall|].
  exists entries. split; [exact Hfmt|]. by apply Hsorted.
Defined.

(** ** The map rotation *)

Lemma remove_first_other (a m : string) (l : list string) :
  a ∈ l -> a <> m -> a ∈ remove_first m l.
Proof.
  induction l as [|x l IH]; simpl; intros Hin Hne.
  - by apply elem_of_nil in Hin.
  - apply elem_of_cons in Hin as [->|Hin].
    + rewrite bool_decide_false by done. apply elem_of_cons; by left.
    + case_bool_decide; [done|]. apply elem_of_cons; right; by apply IH.
Qed.

Lemma apply_op_keeps (a : string) (l : list string) (o : op) :
  a ∈ l -> o <> Remove a -> a ∈ apply_op l o.
Proof.
  intros Hin Hne. destruct o as [m|m]; simpl.
  - apply elem_of_app; by left.
  - apply remove_first_other; [done|]. intros ->. by apply Hne.
Qed.

(** a map that no command removes stays in the rotation throughout *)
Lemma states_anchor (a : string) (ops : list op) (l : list string) :
  a ∈ l -> Forall (fun o => o <> Remove a) ops ->
  Forall (fun st => a ∈ st) (states l ops).
Proof.
  revert l. induction ops as [|o ops IH]; simpl; intros l Hin Hall.
  - constructor.
  - inversion Hall as [|? ? Ho Hops]; subst.
    pose proof (apply_op_keeps a l o Hin Ho) as Hin'.
    constructor; [done|]. by apply IH.
Qed.

Lemma states_app (l : list string) (ops1 ops2 : list op) :
  states l (ops1 ++ ops2)
  = states l ops1 ++ states (apply_ops l ops1) ops2.
Proof.
  revert l. induction ops1 as [|o ops1 IH]; simpl; intros l; [done|].
  by rewrite IH.
Qed.

Lemma elem_nonempty (a : string) (sts : list (list string)) :
  Forall (fun st => a ∈ st) sts -> Forall (fun st => st <> []) sts.
Proof.
  intros H. eapply Forall_impl; [exact H|].
  intros st Hin ->. by apply elem_of_nil in Hin.
Qed.

Lemma concat_imap_Forall {A B : Type} (P : B -> Prop) (l : list A) :
  forall f : nat -> A -> list B,
  (forall i x, x ∈ l -> Forall P (f i x)) -> Forall P (concat (imap f l)).
Proof.
  induction l as [|x l IH]; simpl; intros f Hf; [constructor|].
  apply Forall_app. split.
  - apply Hf. apply elem_of_cons; by left.
  - apply IH. intros i y Hy. apply Hf. apply elem_of_cons; by right.
Qed.

(** in the single-map loop every removal is of the current map, and only
    when the desired rotation holds it *)
Lemma single_map_step_removes (c : string) (rotation : list string) :
  forall f : nat -> nat,
  Forall (fun o => forall x, o = Remove x -> x = c /\ c ∈ rotation)
         (concat (imap (fun i => single_map_step [c] (f i)) rotation)).
Proof.
  intros f. apply concat_imap_Forall. intros i m Hm.
  unfold single_map_step. apply Forall_app. split.
  - case_bool_decide; [|constructor].
    constructor; [|constructor]. intros x Hx; discriminate.
  - destruct (bool_decide (m ∈ [c])) eqn:Hc; simpl; [|constructor].
    apply bool_decide_eq_true in Hc. apply list_elem_of_singleton in Hc. subst m.
    destruct (f i =? 0); simpl; [constructor|].
    constructor; [|constructor; [|constructor]].
    + intros x [= <-]. done.
    + intros x Hx; discriminate.
Qed.

Lemma single_map_step_other (c m : string) (k : nat) :
  m <> c -> single_map_step [c] k m = [Add m].
Proof.
  intros Hne. unfold single_map_step.
  rewrite bool_decide_true by (by intros ?%list_elem_of_singleton).
  rewrite (bool_decide_false (m ∈ [c])) by (by intros ?%list_elem_of_singleton).
  done.
Qed.

Lemma single_map_step_first (c : string) : single_map_step [c] 0 c = [].
Proof.
  unfold single_map_step.
  rewrite bool_decide_false; [|intros H; apply H; by apply list_elem_of_singleton].
  by rewrite andb_false_r.
Qed.

Lemma last_elem (d : string) (l : list string) : l <> [] -> List.last l d ∈ l.
Proof.
  induction l as [|x l IH]; [done|]. intros _.
  destruct l as [|y l].
  - apply elem_of_cons; by left.
  - apply elem_of_cons; right. apply IH. done.
Qed.

Lemma single_map_case (c first : string) (rest : list string) :
  first :: rest <> [c] ->
  (forall tl, first :: rest <> c :: c :: tl) ->
  Forall (fun st => st <> [])
    (states [c]
       (concat (imap (single_map_step [c]) (first :: rest))
        ++ (if bool_decide (c ∉ first :: rest)
            then [Remove (List.last (first :: rest) first)] else []))).
Proof.
  intros Hneq Hdup.
  destruct (decide (c ∈ first :: rest)) as [Hin|Hnin].
  - rewrite bool_decide_false by (intros H; by apply H).
    rewrite app_nil_r.
    assert (Hrm : forall (a : string) (l : list string) (f : nat -> nat),
               a <> c ->
               Forall (fun o => o <> Remove a)
                 (concat (imap (fun i => single_map_step [c] (f i)) l))).
    { intros a l f Ha.
      eapply Forall_impl; [apply (single_map_step_removes c l f)|].
      intros o Ho ->. destruct (Ho a eq_refl) as [-> _]. done. }
    destruct (decide (first = c)) as [->|Hfc].
    + destruct rest as [|r1 rest']; [done|].
      assert (r1 <> c) as Hr1 by (intros ->; by apply (Hdup rest')).
      cbn [imap concat]. rewrite single_map_step_first.
      unfold compose at 1. rewrite single_map_step_other by done.
      cbn [app states apply_op].
      constructor; [done|].
      apply (elem_nonempty r1). apply states_anchor.
      * apply elem_of_cons; right. apply elem_of_cons; by left.
      * apply (Hrm r1 rest' (fun i => S (S i)) Hr1).
    + cbn [imap concat]. rewrite single_map_step_other by done.
      cbn [app states apply_op].
      constructor; [done|].
      apply (elem_nonempty first). apply states_anchor.
      * apply elem_of_cons; right. apply elem_of_cons; by left.
      * apply (Hrm first rest S Hfc).
  - rewrite bool_decide_true by done.
    apply (elem_nonempty c). apply states_anchor.
    + apply elem_of_cons; by left.
    + apply Forall_app. split.
      * eapply Forall_impl;
          [apply (single_map_step_removes c (first :: rest) (fun i => i))|].
        intros o Ho ->. destruct (Ho c eq_refl) as [_ Hc]. done.
      * constructor; [|constructor]. intros Heq.
        apply Hnin.
        replace c with (List.last (first :: rest) first) by congruence.
        by apply last_elem.
Qed.

(** C3 (as amended): while [set_maprotation] runs, the rotation of the
    server is never empty after any of its commands, for every non-empty
    current rotation, unless the current rotation is a single map that the
    desired rotation repeats in its first two places. *)
Theorem set_maprotation_never_empty
  (current rotation ret : list string) (ops : list op) :
  current <> [] ->
  (forall c tl, ~ (current = [c] /\ rotation = c :: c :: tl)) ->
  set_maprotation current rotation = Ok (ret, ops) ->
  Forall (fun st => st <> []) (states current ops).
Proof.
  intros Hcur Hdup. unfold set_maprotation.
  destruct rotation as [|first rest]; [discriminate|].
  case_bool_decide as Heq; [intros [= <- <-]; constructor|].
  destruct (length current =? 1) eqn:Hlen.
  - intros [= <- <-].
    destruct current as [|c [|]]; try discriminate.
    apply single_map_case.
    + done.
    + intros tl Htl. by apply (Hdup c tl).
  - intros [= <- <-].
    set (to_remove := list_to_set current ∖ {[first]} : gset string).
    assert (Forall (fun o => o <> Remove first)
              ((Remove <$> elements to_remove) ++ (Add <$> rest))) as Hsafe.
    { apply Forall_app. split; apply Forall_fmap, Forall_forall; intros x Hx.
      - simpl. intros [= ->]. apply elem_of_elements in Hx.
        apply elem_of_difference in Hx as [_ Hx]. apply Hx.
        by apply elem_of_singleton.
      - simpl. discriminate. }
    apply (elem_nonempty first).
    case_bool_decide as Hall.
    + cbn [app states apply_op]. constructor.
      * apply elem_of_app; right. apply elem_of_cons; by left.
      * apply states_anchor; [|done].
        apply elem_of_app; right. apply elem_of_cons; by left.
    + apply states_anchor; [|done].
      destruct (decide (first ∈ current)) as [|Hnin]; [done|].
      exfalso. apply Hall. apply set_eq. intros y.
      unfold to_remove. rewrite elem_of_difference, elem_of_singleton.
      rewrite elem_of_list_to_set. split; [tauto|].
      intros Hy. split; [done|]. by intros ->.
Qed.

(** the rotation is emptied when the current map is asked for twice in a
    row (C3 as stated fails) *)
Lemma set_maprotation_empties_rotation :
  ~ (forall (current rotation ret : list string) (ops : list op),
        rotation <> [] -> current <> [] ->
        set_maprotation current rotation = Ok (ret, ops) ->
        Forall (fun st => st <> []) (states current ops)).
Proof.
  intros H.
  specialize (H ["A"] ["A"; "A"] ["A"; "A"] [Remove "A"; Add "A"]).
  assert (Forall (fun st => st <> []) (states ["A"] [Remove "A"; Add "A"])) as Hall.
  { apply H; [done|done|]. vm_compute. reflexivity. }
  inversion Hall as [|? ? Hhd _]. by apply Hhd.
Qed.

Lemma set_maprotation_never_empty_witness :
  Forall (fun st => st <> []) (states ["A"] [Add "B"; Remove "A"; Add "A"]).
Proof.
  apply (set_maprotation_never_empty ["A"] ["B"; "A"] ["B"; "A"]).
  - done.
  - intros c tl [_ ?]. simplify_eq.
  - vm_compute. reflexivity.
Defined.

(** C2: with the single map "A" on the server and the rotation "B" asked
    for, [set_maprotation] adds "B" and then removes "B", the last map of
    its loop, where the map to remove is the current one: the server is
    left with "A", not with the rotation asked for. *)
Theorem set_maprotation_single_map_kept :
  set_maprotation ["A"] ["B"] = Ok (["B"], [Add "B"; Remove "B"])
  /\ apply_ops ["A"] [Add "B"; Remove "B"] = ["A"]
  /\ set_maprotation ["A"] ["B"; "C"]
     = Ok (["B"; "C"], [Add "B"; Add "C"; Remove "C"])
  /\ apply_ops ["A"] [Add "B"; Add "C"; Remove "C"] = ["A"; "B"].
Proof. repeat split; vm_compute; reflexivity. Qed.

(** *** Where the reconciliation does converge *)

(** no command is sent when the desired rotation is the current one *)
Lemma set_maprotation_same (rotation : list string) :
  rotation <> [] -> set_maprotation rotation rotation = Ok (rotation, []).
Proof.
  intros Hne. unfold set_maprotation.
  destruct rotation as [|first rest]; [done|].
  by rewrite bool_decide_true.
Qed.

Lemma apply_ops_app (l : list string) (ops1 ops2 : list op) :
  apply_ops l (ops1 ++ ops2) = apply_ops (apply_ops l ops1) ops2.
Proof. apply foldl_app. Qed.

Lemma apply_ops_adds (l ms : list string) :
  apply_ops l (Add <$> ms) = l ++ ms.
Proof.
  revert l. induction ms as [|m ms IH]; intros l; simpl.
  - by rewrite app_nil_r.
  - unfold apply_ops in IH. rewrite IH. by rewrite <- app_assoc.
Qed.

Lemma remove_first_absent (m : string) (l : list string) :
  m ∉ l -> remove_first m l = l.
Proof.
  induction l as [|x l IH]; simpl; [done|]. intros Hnin.
  apply not_elem_of_cons in Hnin as [Hne Hnin].
  rewrite bool_decide_false by done. by rewrite IH.
Qed.

Lemma remove_first_NoDup (m : string) (l : list string) :
  NoDup l -> remove_first m l = filter (fun x => x <> m) l.
Proof.
  induction 1 as [|x l Hx Hl IH]; simpl; [done|].
  case_bool_decide as Hxm.
  - subst. rewrite filter_cons_False by (by intros H; apply H).
    rewrite <- IH. symmetry. by apply remove_first_absent.
  - rewrite filter_cons_True by done. by rewrite IH.
Qed.

Lemma filter_none (l : list string) (P : string -> Prop)
  `{!forall x, Decision (P x)} :
  (forall x, x ∈ l -> ~ P x) -> filter P l = [].
Proof.
  induction l as [|x l IH]; intros HP; [done|].
  rewrite filter_cons_False by (apply HP; left).
  apply IH. intros y Hy. apply HP. by right.
Qed.

Lemma filter_all (l : list string) (P : string -> Prop)
  `{!forall x, Decision (P x)} :
  (forall x, x ∈ l -> P x) -> filter P l = l.
Proof.
  induction l as [|x l IH]; intros HP; [done|].
  rewrite filter_cons_True by (apply HP; left).
  f_equal. apply IH. intros y Hy. apply HP. by right.
Qed.

Lemma filter_only (a : string) (l : list string) (P : string -> Prop)
  `{!forall x, Decision (P x)} :
  NoDup l -> a ∈ l -> (forall x, x ∈ l -> P x <-> x = a) -> filter P l = [a].
Proof.
  induction 1 as [|x l Hx Hl IH]; intros Hin HP.
  - by apply elem_of_nil in Hin.
  - destruct (decide (x = a)) as [->|Hne].
    + rewrite filter_cons_True by (apply HP; [left|done]).
      f_equal. apply filter_none. intros y Hy HPy.
      apply HP in HPy; [|by right]. by subst.
    + rewrite filter_cons_False by (intros HPx; apply Hne, HP; [left|done]).
      apply IH.
      * apply elem_of_cons in Hin as [->|Hin]; done.
      * intros y Hy. apply HP. by right.
Qed.

Lemma apply_ops_removes (l rs : list string) :
  NoDup l ->
  apply_ops l (Remove <$> rs) = filter (fun x => x ∉ rs) l.
Proof.
  revert l. induction rs as [|r rs IH]; intros l Hl; simpl.
  - symmetry. apply filter_all. intros x _. apply not_elem_of_nil.
  - unfold apply_ops in IH. rewrite remove_first_NoDup by done.
    rewrite IH by (by apply NoDup_filter).
    rewrite list_filter_filter. apply list_filter_iff.
    intros x. rewrite not_elem_of_cons. tauto.
Qed.

(** the loop of the single-map case over maps other than the current one
    only adds them *)
Lemma loop_adds (F : nat -> string -> list op) (l : list string) :
  (forall i m, m ∈ l -> F i m = [Add m]) ->
  concat (imap F l) = Add <$> l.
Proof.
  revert F. induction l as [|m l IH]; intros F HF; [done|].
  cbn [imap concat fmap list_fmap].
  rewrite HF by left. cbn [app]. f_equal.
  apply IH. intros i x Hx. apply HF. by right.
Qed.

Lemma single_map_loop (c : string) (pre post : list string) :
  c ∉ pre -> c ∉ post ->
  concat (imap (single_map_step [c]) (pre ++ c :: post))
  = (Add <$> pre)
    ++ (match pre with [] => [] | _ :: _ => [Remove c; Add c] end)
    ++ (Add <$> post).
Proof.
  intros Hpre Hpost. rewrite imap_app, concat_app. cbn [imap concat].
  rewrite (loop_adds _ pre).
  2:{ intros i m Hm. apply single_map_step_other. by intros ->. }
  f_equal.
  rewrite (loop_adds _ post).
  2:{ intros i m Hm. apply single_map_step_other. by intros ->. }
  f_equal. unfold single_map_step.
  rewrite bool_decide_false by (intros H; apply H; by apply list_elem_of_singleton).
  rewrite bool_decide_true by (by apply list_elem_of_singleton).
  destruct pre; simpl; done.
Qed.

(** X23: for rotations without repeated maps, and unless the current
    rotation is a single map that the desired one leaves out, the commands
    of [set_maprotation] turn the current rotation into the desired one, in
    its order, which is also the value returned. *)
Lemma set_maprotation_converges
  (current rotation ret : list string) (ops : list op) :
  NoDup current -> NoDup rotation ->
  (forall c, current = [c] -> c ∈ rotation) ->
  set_maprotation current rotation = Ok (ret, ops) ->
  apply_ops current ops = rotation /\ ret = rotation.
Proof.
  intros Hcur Hrot Hsingle. unfold set_maprotation.
  destruct rotation as [|first rest]; [discriminate|].
  case_bool_decide as Heq; [by intros [= <- <-]|].
  destruct (length current =? 1) eqn:Hlen.
  - intros [= <- <-]. split; [|done].
    destruct current as [|c [|]]; try discriminate.
    pose proof (Hsingle c eq_refl) as Hin.
    rewrite bool_decide_false by (intros H; by apply H). rewrite app_nil_r.
    change (single_map_step [c] 0 first
            ++ concat (imap (single_map_step [c] ∘ S) rest))
      with (concat (imap (single_map_step [c]) (first :: rest))).
    apply list_elem_of_split in Hin as (pre & post & Hsplit).
    rewrite Hsplit in *.
    apply NoDup_app in Hrot as (_ & Hpre & Hpost).
    apply NoDup_cons in Hpost as [Hpost _].
    assert (c ∉ pre) as Hcpre by (intros H; apply (Hpre c H); left).
    rewrite single_map_loop by done.
    rewrite apply_ops_app, (apply_ops_adds [c] pre), apply_ops_app.
    destruct pre as [|p pre].
    + cbn [app apply_ops foldl]. apply (apply_ops_adds [c] post).
    + cbn [app apply_ops foldl apply_op remove_first].
      rewrite bool_decide_true by done.
      rewrite (apply_ops_adds _ post). by rewrite <- app_assoc.
  - intros [= <- <-]. split; [|done].
    set (to_remove := list_to_set current ∖ {[first]} : gset string).
    assert (forall x, x ∈ elements to_remove <-> x ∈ current /\ x <> first)
      as Hrem.
    { intros x. unfold to_remove.
      rewrite elem_of_elements, elem_of_difference, elem_of_list_to_set.
      by rewrite elem_of_singleton. }
    apply NoDup_cons in Hrot as [Hfirst Hrest].
    rewrite !apply_ops_app, apply_ops_adds.
    change (first :: rest) with ([first] ++ rest). f_equal.
    case_bool_decide as Hall.
    + assert (first ∉ current) as Hnin.
      { intros Hin. assert (first ∈ to_remove) as H.
        { rewrite Hall. by apply elem_of_list_to_set. }
        apply elem_of_elements, Hrem in H as [_ H]. by apply H. }
      cbn [apply_ops foldl apply_op].
      change (foldl apply_op ?l ?o) with (apply_ops l o).
      rewrite apply_ops_removes.
      * apply filter_only.
        -- apply NoDup_app. split; [done|]. split; [|apply NoDup_singleton].
           intros x Hx ->%list_elem_of_singleton. done.
        -- apply elem_of_app; right. by apply list_elem_of_singleton.
        -- intros x Hx. rewrite Hrem. split.
           ++ intros Hn. apply elem_of_app in Hx as [Hx|Hx%list_elem_of_singleton];
                [|done].
              destruct (decide (x = first)); [done|]. exfalso. by apply Hn.
           ++ intros -> [Hx' _]. done.
      * apply NoDup_app. split; [done|]. split; [|apply NoDup_singleton].
        intros x Hx ->%list_elem_of_singleton. done.
    + assert (first ∈ current) as Hin.
      { destruct (decide (first ∈ current)) as [|Hnin]; [done|].
        exfalso. apply Hall. apply set_eq. intros y.
        unfold to_remove. rewrite elem_of_difference, elem_of_singleton.
        rewrite elem_of_list_to_set. split; [tauto|].
        intros Hy. split; [done|]. by intros ->. }
      cbn [apply_ops foldl app].
      change (foldl apply_op ?l ?o) with (apply_ops l o).
      rewrite apply_ops_removes by done.
      apply filter_only; [done|done|].
      intros x Hx. rewrite Hrem. split.
      * intros Hn. destruct (decide (x = first)); [done|]. exfalso. by apply Hn.
      * intros -> [_ Hx']. done.
Qed.

(** ** The cache protocol *)

Section CacheFacts.
Import Cached.
Context {remote other : Type}.
Variable super : command -> remote -> result string * remote.
Variable super_get_players : remote -> result (list string) * remote.
Variable super_get_profanities : remote -> result (list string) * remote.
Variable super_get_map_rotation : remote -> result (list string) * remote.
Variable map_ok : string -> bool.

Abbreviation world := (Cached.world remote other).
Abbreviation M := (Cached.M remote other).

Lemma lookup_foldr_delete (keys : list string)
  (m : gmap string (value other * N)) (key : string) :
  key ∈ keys -> foldr delete m keys !! key = None.
Proof.
  induction keys as [|k keys IH]; simpl; intros Hin.
  - by apply elem_of_nil in Hin.
  - destruct (decide (k = key)) as [->|Hne].
    + apply lookup_delete_eq.
    + rewrite lookup_delete_ne by done. apply IH.
      apply elem_of_cons in Hin as [->|Hin]; [done|done].
Qed.

Lemma lookup_foldr_delete_None (keys : list string)
  (m : gmap string (value other * N)) (key : string) :
  m !! key = None -> foldr delete m keys !! key = None.
Proof.
  intros Hm. induction keys as [|k keys IH]; simpl; [done|].
  destruct (decide (k = key)) as [->|Hne].
  - apply lookup_delete_eq.
  - by rewrite lookup_delete_ne.
Qed.

(** a read of a key that the cache does not hold calls through *)
Lemma reads_afresh_None (key : string) (w' : world) :
  cache w' !! key = None -> reads_afresh key w'.
Proof. intros H ttl fetch now. unfold ttl_cache. by rewrite H. Qed.

(** a read of a key whose entry was left alone finds it *)
Lemma reads_cached_same (key : string) (w w' : world) :
  cache w' !! key = cache w !! key -> reads_cached key w w'.
Proof.
  intros H ttl fetch now v expiry Hv Hnow. unfold ttl_cache.
  rewrite H, Hv. apply N.ltb_lt in Hnow. by rewrite Hnow.
Qed.

Lemma remotely_keeps {A : Type} (f : remote -> result A * remote) :
  keeps_cache (remotely remote other f).
Proof. intros w. unfold remotely. by destruct (f (server w)). Qed.

Lemma mret_keeps {A : Type} (a : A) : keeps_cache (mret a : M A).
Proof. by intros w. Qed.

Lemma raise_keeps {A : Type} (e : exn) : keeps_cache (raise remote other e : M
  A).
Proof. by intros w. Qed.

Lemma bind_keeps {A B : Type} (m : M A) (f : A -> M B) :
  keeps_cache m -> (forall a, keeps_cache (f a)) -> keeps_cache (m ≫= f).
Proof.
  intros Hm Hf w. unfold mbind, M_bind. specialize (Hm w).
  destruct (m w) as [[a|e] w1]; cbn [snd] in *; [|done].
  by rewrite Hf.
Qed.

Lemma for_each_keeps {A B : Type} (f : A -> M B) (l : list A) :
  (forall a, keeps_cache (f a)) -> keeps_cache (for_each_ remote other f l).
Proof.
  intros Hf. induction l as [|x l IH]; cbn [for_each_]; [apply mret_keeps|].
  apply bind_keeps; [apply Hf|by intros _].
Qed.

Lemma online_by_name_keeps (player steam_id_64 : pystr) :
  keeps_cache (online_by_name remote other super_get_players player
                 steam_id_64).
Proof.
  unfold online_by_name. destruct player as [[|c p]|]; try apply mret_keeps.
  apply bind_keeps; [apply remotely_keeps|].
  intros names. case_bool_decide; apply mret_keeps.
Qed.

Lemma invalidates_evicting {A : Type} (keys : list string) (body : M A) :
  keeps_cache body -> evicting keys (invalidates remote other keys body).
Proof.
  intros Hbody w. unfold invalidates. specialize (Hbody w).
  destruct (body w) as [[a|e] w1]; cbn [snd cache] in *; [|done].
  rewrite Hbody. split; intros key Hkey.
  - by apply lookup_foldr_delete.
  - by apply lookup_foldr_delete_None.
Qed.

Lemma bind_evicting {A B : Type} (keys : list string) (m : M A)
  (f : A -> M B) :
  keeps_cache m -> (forall a, evicting keys (f a)) -> evicting keys (m ≫= f).
Proof.
  intros Hm Hf w. unfold mbind, M_bind. specialize (Hm w).
  destruct (m w) as [[a|e] w1]; cbn [snd] in *; [|done].
  specialize (Hf a w1). destruct (f a w1) as [[b|e] w2].
  - by rewrite <- Hm.
  - by rewrite <- Hm.
Qed.

(** each of the mutators evicts the keys of the invalidation rule *)
Lemma run_evicting (o : mutator) (w : world) :
  match run remote other super super_get_players o w with
  | (None, w') =>
      (forall key, key ∈ keys_of o -> cache w' !! key = None)
      /\ (forall key, cache w !! key = None -> cache w' !! key = None)
  | (Some _, w') => cache w' = cache w
  end.
Proof.
  assert (forall (A : Type) (m : M A),
             evicting (keys_of o) m ->
             match outcome remote other m w with
             | (None, w') =>
                 (forall key, key ∈ keys_of o -> cache w' !! key = None)
                 /\ (forall key, cache w !! key = None ->
                                 cache w' !! key = None)
             | (Some _, w') => cache w' = cache w
             end) as Hout.
  { intros A m Hm. unfold outcome. specialize (Hm w).
    by destruct (m w) as [[a|e] w']. }
  destruct o; cbn [run]; apply Hout; cbn [keys_of];
    try (apply invalidates_evicting;
         first [apply remotely_keeps
               |apply bind_keeps;
                [first [apply remotely_keeps
                       |apply for_each_keeps; intros ?; apply remotely_keeps]
                |intros ?;
                 first [apply mret_keeps
                       |case_bool_decide;
                        first [apply raise_keeps|apply mret_keeps]
                       |destruct (PyStr.startswith _ _);
                        first [apply raise_keeps|apply mret_keeps]]]]).
  - apply bind_evicting; [apply online_by_name_keeps|].
    intros sid. apply invalidates_evicting, remotely_keeps.
  - apply bind_evicting; [apply online_by_name_keeps|].
    intros sid. apply invalidates_evicting, remotely_keeps.
Qed.

(** the mutators that the blocks of [set_profanities] and
    [set_maprotation] call *)
Lemma do_unban_profanities_run (l : list string) :
  outcome remote other (do_unban_profanities remote other super l)
  = run remote other super super_get_players (Do_unban_profanities l).
Proof. done. Qed.

Lemma evicting_run {A : Type} (key : string) (m : M A) (o : mutator) :
  key ∈ keys_of o ->
  (forall w, outcome remote other m w
             = run remote other super super_get_players o w) ->
  evicting [key] m.
Proof.
  intros Hkey Hrun w. pose proof (run_evicting o w) as H.
  rewrite <- Hrun in H. unfold outcome in H.
  destruct (m w) as [[a|e] w']; [|done].
  destruct H as [H1 H2]. split; [|done].
  intros k ->%list_elem_of_singleton. by apply H1.
Qed.

Lemma profanity_calls_evicting (current profanities : list string) :
  Forall (evicting ["get_profanities"])
    (profanity_calls remote other super current profanities).
Proof.
  unfold profanity_calls. apply Forall_app. split; case_bool_decide;
    constructor; try constructor.
  - eapply (evicting_run _ _ (Do_unban_profanities _));
      [by apply list_elem_of_singleton|done].
  - eapply (evicting_run _ _ (Do_ban_profanities _));
      [by apply list_elem_of_singleton|done].
Qed.

Lemma do_add_map_evicting (m : string) :
  evicting ["get_map_rotation"] (do_add_map_to_rotation remote other super m).
Proof.
  eapply (evicting_run _ _ (Do_add_maps_to_rotation [m]));
      [by apply list_elem_of_singleton|done].
Qed.

Lemma do_remove_map_evicting (m : string) :
  evicting ["get_map_rotation"]
    (do_remove_map_from_rotation remote other super m).
Proof.
  eapply (evicting_run _ _ (Do_remove_maps_from_rotation [m]));
      [by apply list_elem_of_singleton|done].
Qed.

Lemma rotation_calls_evicting (current : list string) (first : string)
  (rest : list string) :
  Forall (evicting ["get_map_rotation"])
    (rotation_calls remote other super current first rest).
Proof.
  unfold rotation_calls. destruct (length current =? 1).
  - apply Forall_app. split.
    + apply Forall_concat, Forall_forall. intros calls Hcalls.
      apply list_elem_of_lookup in Hcalls as [i Hi].
      rewrite list_lookup_imap in Hi.
      destruct ((first :: rest) !! i) as [m|]; [|done].
      injection Hi as <-. unfold single_map_calls.
      apply Forall_app. split.
      * case_bool_decide; repeat constructor. apply do_add_map_evicting.
      * destruct (_ && _); repeat constructor;
          [apply do_remove_map_evicting|apply do_add_map_evicting].
    + destruct current as [|c ?]; [constructor|].
      case_bool_decide; repeat constructor. apply do_remove_map_evicting.
  - apply Forall_app. split.
    + case_bool_decide; repeat constructor. apply do_add_map_evicting.
    + repeat constructor.
      * eapply (evicting_run _ _ (Do_remove_maps_from_rotation _));
      [by apply list_elem_of_singleton|done].
      * eapply (evicting_run _ _ (Do_add_maps_to_rotation _));
      [by apply list_elem_of_singleton|done].
Qed.

Lemma run_calls_cons {A : Type} (call : M A) (calls : list (M A))
  (w : world) :
  run_calls remote other (call :: calls) w
  = match call w with
    | (Ok _, w1) => run_calls remote other calls w1
    | (Raise e, w1) => (Raise e, w1)
    end.
Proof. done. Qed.

(** once the key is gone, calls to mutators that evict it leave it gone *)
Lemma run_calls_gone {A : Type} (key : string) (calls : list (M A)) :
  Forall (evicting [key]) calls ->
  forall w, cache w !! key = None ->
            cache (snd (run_calls remote other calls w)) !! key = None.
Proof.
  induction 1 as [|call calls Hcall _ IH]; intros w Hw; [done|].
  rewrite run_calls_cons.
  specialize (Hcall w). destruct (call w) as [[a|e] w1].
  - apply IH. by apply (proj2 Hcall).
  - cbn [snd]. by rewrite Hcall.
Qed.

(** a block made of calls to mutators that evict the key *)
Lemma nested_block {A : Type} (key : string) (calls : list (M A)) :
  Forall (evicting [key]) calls ->
  forall w,
    match invalidates remote other [key] (run_calls remote other calls) w with
    | (Ok _, w') => cache w' !! key = None
    | (Raise _, w') => nested_failure key calls w w'
    end.
Proof.
  intros Hcalls w. unfold invalidates.
  destruct (run_calls remote other calls w) as [[u|e] w'] eqn:Hrun.
  - cbn [cache]. apply lookup_foldr_delete. by apply list_elem_of_singleton.
  - destruct Hcalls as [|call calls Hcall Hcalls]; [discriminate|].
    rewrite run_calls_cons in Hrun. unfold nested_failure.
    specialize (Hcall w). destruct (call w) as [[a|e'] w1].
    + pose proof (run_calls_gone key calls Hcalls w1) as Hgone.
      rewrite Hrun in Hgone. apply Hgone.
      apply (proj1 Hcall). by apply list_elem_of_singleton.
    + by injection Hrun as _ <-.
Qed.

(** a cached read within the time to live of the value held changes
    nothing *)
Lemma ttl_cache_hit (key : string) (ttl : N) (fetch : M (value other))
  (now : N) (w : world) (v : value other) (expiry : N) :
  cache w !! key = Some (v, expiry) -> (now < expiry)%N ->
  ttl_cache remote other key ttl fetch now w = (Ok v, w).
Proof.
  intros Hv Hnow. unfold ttl_cache. rewrite Hv.
  apply N.ltb_lt in Hnow. by rewrite Hnow.
Qed.

(** what [set_profanities] does once the list of profanities is read *)
Lemma set_profanities_after_read (now : N) (profanities : list string)
  (w w1 : world) (current : list string) :
  get_profanities remote other super_get_profanities now w = (Ok current, w1) ->
  match set_profanities remote other super super_get_profanities now
          profanities w with
  | (Ok r, w') => r = profanities /\ reads_afresh "get_profanities" w'
  | (Raise _, w') =>
      nested_failure "get_profanities"
        (profanity_calls remote other super current profanities) w1 w'
  end.
Proof.
  intros Hread. unfold set_profanities.
  unfold mbind at 1. unfold M_bind at 1. rewrite Hread.
  unfold mbind, M_bind.
  pose proof (nested_block "get_profanities" _
                (profanity_calls_evicting current profanities) w1) as H.
  destruct (invalidates remote other _ _ w1) as [[u|e] w']; [|done].
  split; [done|]. by apply reads_afresh_None.
Qed.

Lemma set_maprotation_after_read (now : N) (first : string)
  (rest : list string) (w w1 : world) (current : list string) :
  get_map_rotation remote other super_get_map_rotation map_ok now w
  = (Ok current, w1) ->
  match set_maprotation remote other super super_get_map_rotation map_ok now
          (first :: rest) w with
  | (Ok r, w') =>
      (first :: rest = current /\ r = current /\ w' = w1)
      \/ (first :: rest <> current /\ r = first :: rest
          /\ reads_afresh "get_map_rotation" w')
  | (Raise _, w') =>
      first :: rest <> current
      /\ nested_failure "get_map_rotation"
           (rotation_calls remote other super current first rest) w1 w'
  end.
Proof.
  intros Hread. unfold set_maprotation.
  unfold mbind at 1. unfold M_bind at 1. rewrite Hread.
  case_bool_decide as Heq; [by left|].
  unfold mbind, M_bind.
  pose proof (nested_block "get_map_rotation" _
                (rotation_calls_evicting current first rest) w1) as H.
  destruct (invalidates remote other _ _ w1) as [[u|e] w']; [|done].
  right. split; [done|]. split; [done|]. by apply reads_afresh_None.
Qed.

(** a read that raises is the end of the operation *)
Lemma set_profanities_read_raises (now : N) (profanities : list string)
  (w w1 : world) (e : exn) :
  get_profanities remote other super_get_profanities now w = (Raise e, w1) ->
  set_profanities remote other super super_get_profanities now profanities w
  = (Raise e, w1).
Proof.
  intros Hread. unfold set_profanities.
  unfold mbind at 1. unfold M_bind at 1. by rewrite Hread.
Qed.

Lemma set_maprotation_read_raises (now : N) (first : string)
  (rest : list string) (w w1 : world) (e : exn) :
  get_map_rotation remote other super_get_map_rotation map_ok now w
  = (Raise e, w1) ->
  set_maprotation remote other super super_get_map_rotation map_ok now
    (first :: rest) w
  = (Raise e, w1).
Proof.
  intros Hread. unfold set_maprotation.
  unfold mbind at 1. unfold M_bind at 1. by rewrite Hread.
Qed.

(** the two cached reads are hits within the time to live of a list *)
Lemma get_profanities_hit (now : N) (w : world) (l : list string)
  (expiry : N) :
  cache w !! "get_profanities" = Some (Strings l, expiry) ->
  (now < expiry)%N ->
  get_profanities remote other super_get_profanities now w = (Ok l, w).
Proof.
  intros Hv Hnow. unfold get_profanities, mbind, M_bind.
  by rewrite (ttl_cache_hit _ _ _ _ _ _ _ Hv Hnow).
Qed.

Lemma get_map_rotation_hit (now : N) (w : world) (l : list string)
  (expiry : N) :
  cache w !! "get_map_rotation" = Some (Strings l, expiry) ->
  (now < expiry)%N ->
  get_map_rotation remote other super_get_map_rotation map_ok now w
  = (Ok l, w).
Proof.
  intros Hv Hnow. unfold get_map_rotation, mbind, M_bind.
  by rewrite (ttl_cache_hit _ _ _ _ _ _ _ Hv Hnow).
Qed.


End CacheFacts.



(** * Further properties *)

(** ** More on the parser *)

Section MoreStringFacts.
Import PyStr.

Lemma prefix_skip (p s : string) :
  String.prefix p s = true -> s = p +:+ skip (String.length p) s.
Proof.
  revert s. induction p as [|c p IH]; intros s Hp; [done|].
  apply prefix_cons in Hp as (s' & -> & Hp).
  cbn [String.length skip]. unfold String.app. cbn [append]. f_equal.
  by apply IH.
Qed.

(** [split1] cuts at an occurrence of the separator *)
Lemma split1_Some (sep s a b : string) :
  split1 sep s = Some (a, b) -> s = a +:+ sep +:+ b.
Proof.
  revert a. induction s as [|c s IH]; intros a; cbn [split1].
  - destruct (String.prefix sep "") eqn:Hp; [|done].
    intros [= <- <-]. by apply prefix_skip in Hp.
  - destruct (String.prefix sep (String c s)) eqn:Hp.
    + intros [= <- <-]. by apply prefix_skip in Hp.
    + destruct (split1 sep s) as [[a' b']|]; [|done].
      intros [= <- <-]. unfold String.app. cbn [append]. f_equal.
      by apply IH.
Qed.

Lemma split1_None (sep s : string) :
  contains sep s = false -> split1 sep s = None.
Proof.
  induction s as [|c s IH]; cbn [split1 contains];
    intros [Hp Hc]%orb_false_iff; rewrite Hp; [done|].
  by rewrite IH.
Qed.

Lemma split1_contains (sep s : string) :
  contains sep s = true -> is_Some (split1 sep s).
Proof.
  induction s as [|c s IH]; cbn [split1 contains];
    intros [Hp|Hc]%orb_true_iff.
  - rewrite Hp. by eexists.
  - done.
  - rewrite Hp. by eexists.
  - destruct (String.prefix sep (String c s)); [by eexists|].
    destruct (IH Hc) as [[a b] ->]. by eexists.
Qed.

End MoreStringFacts.

Section MoreParserFacts.
Variable representable : N -> bool.
Variable timestamp_error : datetime -> option exn.

Lemma passes_kept (now : datetime) (fa fp : pystr) (line : string)
  (p : datetime * string * vars) (e : event) :
  make_event timestamp_error now line p = Ok e ->
  match passes fa fp line (snd p) with
  | Ok true => Some e
  | _ => None
  end
  = (if kept fa fp e then Some e else None).
Proof.
  destruct p as [[time rest] v]. unfold make_event.
  destruct (timestamp_error time); [done|]. intros [= <-].
  unfold passes, kept. cbn [snd action raw].
  destruct fa as [[|c f]|], fp as [[|c' f']|]; cbn [andb negb]; try done;
    repeat (match goal with
            | |- context [v_action v] => destruct (v_action v)
            | |- context [PyStr.startswith ?a ?b] =>
                destruct (PyStr.startswith a b)
            | |- context [PyStr.contains ?a ?b] =>
                destruct (PyStr.contains a b)
            end; cbn [andb negb]; try done).
Qed.

Lemma emit_kept (now : datetime) (fa fp : pystr) (line : string) :
  emit representable timestamp_error now fa fp line
  = match emit representable timestamp_error now None None line with
    | Some e => if kept fa fp e then Some e else None
    | None => None
    end.
Proof.
  unfold emit. destruct (parse_line representable line) as [p|]; [|done].
  destruct (make_event timestamp_error now line p) as [e|x] eqn:He.
  - cbn [passes]. rewrite <- (passes_kept now fa fp line p e He).
    by destruct (passes fa fp line (snd p)) as [[|]|].
  - cbn [passes]. by destruct (passes fa fp line (snd p)) as [[|]|].
Qed.

Lemma filter_omap {A B : Type} (f : A -> option B) (P : B -> bool)
  (l : list A) :
  filter (fun y => P y = true) (omap f l)
  = omap (fun x => match f x with
                   | Some y => if P y then Some y else None
                   | None => None
                   end) l.
Proof.
  induction l as [|x l IH]; [done|]. cbn [omap list_omap].
  destruct (f x) as [y|]; [|done].
  destruct (P y) eqn:HP.
  - rewrite filter_cons_True by done. by rewrite IH.
  - rewrite filter_cons_False by (by rewrite HP). done.
Qed.

End MoreParserFacts.

(** X1: when the call under filters and the call without filters both
    return, reading the same clock, the events of the first are the events
    of the second that pass the filters, in the same order: those whose
    action begins with the action filter and whose line holds the player
    filter, an empty or absent filter letting everything through. *)
Theorem parse_logs_filtered (representable : N -> bool)
  (timestamp_error : datetime -> option exn) (now : datetime)
  (blob : string) (filter_action filter_player : pystr) (b b0 : LogBatch) :
  parse_logs representable timestamp_error now blob filter_action filter_player
    = Ok b ->
  parse_logs representable timestamp_error now blob None None = Ok b0 ->
  logs b
  = filter (fun e => kept filter_action filter_player e = true) (logs b0).
Proof.
  intros Hb Hb0.
  apply parse_logs_Ok in Hb as (-> & _ & _).
  apply parse_logs_Ok in Hb0 as (-> & _ & _).
  rewrite filter_reverse, filter_omap. f_equal.
  apply list_omap_ext, Forall2_same_length_lookup_2; [done|].
  intros i x y Hx Hy. assert (x = y) as -> by congruence.
  apply emit_kept.
Qed.

Lemma parse_logs_filtered_witness :
  exists b b0,
    parse_logs utc_platform utc_timestamp 0 sample_raw (Some "KILL")
      (Some "Bob") = Ok b
    /\ parse_logs utc_platform utc_timestamp 0 sample_raw None None = Ok b0
    /\ length (logs b0) = 2
    /\ logs b
       = filter (fun e => kept (Some "KILL") (Some "Bob") e = true) (logs b0).
Proof.
  eexists. eexists. split; [vm_compute; reflexivity|].
  split; [vm_compute; reflexivity|]. split; [reflexivity|].
  apply (parse_logs_filtered utc_platform utc_timestamp 0 sample_raw
           (Some "KILL") (Some "Bob")); vm_compute; reflexivity.
Defined.

(** the two players of an event were recorded when its line was read *)
Lemma events_recorded (representable : N -> bool)
  (timestamp_error : datetime -> option exn)
  (now : datetime) (blob : string) (filter_action filter_player : pystr)
  (b : LogBatch) (e : event) :
  parse_logs representable timestamp_error now blob filter_action filter_player
    = Ok b ->
  e ∈ logs b ->
  player e ∈ players b /\ player2 e ∈ players b.
Proof.
  intros Hb He. apply parse_logs_Ok in Hb as (Hlogs & Hpl & _).
  rewrite Hlogs in He. apply elem_of_reverse, list_elem_of_omap in He
    as (line & Hline & Hemit).
  apply emit_Some in Hemit
    as (time & rest & v & Hp & _ & _ & _ & _ & _ & _ & _ & -> & ->).
  rewrite Hpl.
  split; apply elem_of_elements, elem_of_list_to_set;
    unfold line_players; apply list_elem_of_bind; exists line;
    (split; [|done]); rewrite Hp; cbn [snd]; [left|right; left].
Qed.

(** X2: the player, the second player and the action of every event
    returned are among the players and the actions of the batch. *)
Theorem parse_logs_events_recorded (representable : N -> bool)
  (timestamp_error : datetime -> option exn)
  (now : datetime) (blob : string) (filter_action filter_player : pystr)
  (b : LogBatch) (e : event) :
  parse_logs representable timestamp_error now blob filter_action filter_player
    = Ok b ->
  e ∈ logs b ->
  player e ∈ players b /\ player2 e ∈ players b /\ action e ∈ actions b.
Proof.
  intros Hb He.
  destruct (events_recorded _ _ _ _ _ _ _ e Hb He) as [H1 H2].
  split; [done|]. split; [done|].
  apply parse_logs_Ok in Hb as (Hlogs & _ & Hact).
  rewrite Hlogs in He. apply elem_of_reverse, list_elem_of_omap in He
    as (line & Hline & Hemit).
  apply emit_Some in Hemit
    as (time & rest & v & Hp & _ & _ & _ & _ & _ & _ & -> & _).
  rewrite Hact. apply elem_of_app; left.
  apply elem_of_elements, elem_of_list_to_set.
  unfold line_actions. apply list_elem_of_omap. exists line.
  split; [done|]. by rewrite Hp.
Qed.

Lemma parse_logs_events_recorded_witness :
  exists b e,
    parse_logs utc_platform utc_timestamp 0 sample_raw None None = Ok b
    /\ e ∈ logs b
    /\ player e ∈ players b /\ player2 e ∈ players b /\ action e ∈ actions b.
Proof.
  assert (exists b e,
             parse_logs utc_platform utc_timestamp 0 sample_raw None None = Ok b
             /\ e ∈ logs b) as (b & e & Hb & He).
  { eexists. eexists. split; [vm_compute; reflexivity|left]. }
  exists b, e. split; [exact Hb|]. split; [exact He|].
  apply (parse_logs_events_recorded utc_platform utc_timestamp 0 sample_raw
    None None b e
           Hb He).
Defined.

(** X3: every event keeps its line word for word: [raw] is a line of the
    blob, and it is the time field, the two characters "] " and
    [line_without_time], in that order. *)
Theorem parse_logs_raw_line (representable : N -> bool)
  (timestamp_error : datetime -> option exn) (now : datetime)
  (blob : string) (filter_action filter_player : pystr) (b : LogBatch)
  (e : event) :
  parse_logs representable timestamp_error now blob filter_action filter_player
    = Ok b ->
  e ∈ logs b ->
  raw e ∈ log_lines blob
  /\ exists field, raw e = field +:+ "] " +:+ line_without_time e.
Proof.
  intros Hb He.
  destruct (parse_logs_events representable timestamp_error now blob
    filter_action
              filter_player b e Hb He)
    as ((field & n & Hsplit & _ & _) & (p & Hline & _) & _).
  split; [done|]. exists field. by apply split1_Some.
Qed.

Lemma parse_logs_raw_line_witness :
  exists b e,
    parse_logs utc_platform utc_timestamp 0 sample_raw None None = Ok b
    /\ e ∈ logs b
    /\ raw e ∈ log_lines sample_raw
    /\ exists field, raw e = field +:+ "] " +:+ line_without_time e.
Proof.
  assert (exists b e,
             parse_logs utc_platform utc_timestamp 0 sample_raw None None = Ok b
             /\ e ∈ logs b) as (b & e & Hb & He).
  { eexists. eexists. split; [vm_compute; reflexivity|left]. }
  exists b, e. split; [exact Hb|]. split; [exact He|].
  apply (parse_logs_raw_line utc_platform utc_timestamp 0 sample_raw None None
    b e Hb He).
Defined.

(** ** More on strings *)

Section SplitFacts.
Import PyStr.

Lemma app_String (c : ascii) (a b : string) :
  String c a +:+ b = String c (a +:+ b).
Proof. done. Qed.

Lemma app_empty_r (s : string) : s +:+ "" = s.
Proof.
  induction s as [|c s IH]; [done|]. rewrite app_String. by f_equal.
Qed.

Lemma app_assoc_String (a b c : string) : (a +:+ b) +:+ c = a +:+ b +:+ c.
Proof.
  induction a as [|x a IH]; [done|]. rewrite !app_String. by f_equal.
Qed.

Lemma length_app_String (a b : string) :
  String.length (a +:+ b) = String.length a + String.length b.
Proof.
  induction a as [|x a IH]; [done|]. rewrite app_String. simpl. by f_equal.
Qed.

Lemma prefix_refl (p : string) : String.prefix p p = true.
Proof.
  induction p as [|c p IH]; [done|]. simpl.
  by destruct (ascii_dec c c).
Qed.

Lemma prefix_app (p a b : string) :
  String.prefix p a = true -> String.prefix p (a +:+ b) = true.
Proof.
  revert a. induction p as [|c p IH]; intros a Hp;
    [apply prefix_empty|].
  apply prefix_cons in Hp as (a' & -> & Hp). rewrite app_String. simpl.
  destruct (ascii_dec c c); [|done]. by apply IH.
Qed.

Lemma prefix_app_l (p s : string) : String.prefix p (p +:+ s) = true.
Proof. apply prefix_app, prefix_refl. Qed.

Lemma skip_app (p s : string) : skip (String.length p) (p +:+ s) = s.
Proof. induction p as [|c p IH]; [by destruct s|]. done. Qed.

Lemma prefix_char (c d : ascii) (s : string) :
  String.prefix (String c "") (String d s) = bool_decide (c = d).
Proof.
  simpl. destruct (ascii_dec c d); case_bool_decide; try done.
  apply prefix_empty.
Qed.

(** the text before the first occurrence holds no occurrence *)
Lemma split1_first (sep s a b : string) :
  sep <> "" -> split1 sep s = Some (a, b) -> contains sep a = false.
Proof.
  intros Hsep. revert a. induction s as [|c s IH]; intros a; cbn [split1].
  - destruct (String.prefix sep "") eqn:Hp; [|done].
    intros [= <- <-]. by destruct sep.
  - destruct (String.prefix sep (String c s)) eqn:Hp.
    + intros [= <- <-]. by destruct sep.
    + destruct (split1 sep s) as [[a' b']|] eqn:Hs; [|done].
      intros [= <- <-]. cbn [contains]. rewrite (IH a' eq_refl).
      rewrite orb_false_r.
      destruct (String.prefix sep (String c a')) eqn:Hp'; [|done].
      apply split1_Some in Hs. rewrite Hs in Hp.
      rewrite <- app_String in Hp.
      by rewrite (prefix_app _ _ _ Hp') in Hp.
Qed.

(** a separator of one character is found where it first stands *)
Lemma split1_char (c : ascii) (a b : string) :
  contains (String c "") a = false ->
  split1 (String c "") (a +:+ String c b) = Some (a, b).
Proof.
  induction a as [|d a IH]; cbn [contains].
  - intros _. change ("" +:+ String c b) with (String c b).
    cbn [split1]. rewrite prefix_char, bool_decide_true by done. done.
  - intros [Hp Hc]%orb_false_iff. rewrite app_String. cbn [split1].
    rewrite prefix_char in *. rewrite Hp. by rewrite IH.
Qed.

Lemma rsplit1_None (sep s : string) :
  contains sep s = false -> rsplit1 sep s = None.
Proof.
  induction s as [|c s IH]; cbn [rsplit1 contains]; [done|].
  intros [Hp Hc]%orb_false_iff. by rewrite IH, Hp.
Qed.

Lemma rsplit1_contains (sep s : string) :
  sep <> "" -> contains sep s = true -> is_Some (rsplit1 sep s).
Proof.
  intros Hsep. induction s as [|c s IH]; cbn [rsplit1 contains].
  - by destruct sep.
  - intros [Hp|Hc]%orb_true_iff.
    + destruct (rsplit1 sep s) as [[a b]|]; [by eexists|].
      rewrite Hp. by eexists.
    + destruct (IH Hc) as [[a b] ->]. by eexists.
Qed.

(** and where it last stands, from the right *)
Lemma rsplit1_char (c : ascii) (a b : string) :
  contains (String c "") b = false ->
  rsplit1 (String c "") (a +:+ String c b) = Some (a, b).
Proof.
  intros Hb. induction a as [|d a IH].
  - change ("" +:+ String c b) with (String c b). cbn [rsplit1].
    rewrite (rsplit1_None _ _ Hb), prefix_char, bool_decide_true by done.
    done.
  - rewrite app_String. cbn [rsplit1]. by rewrite IH.
Qed.

Lemma take_app (s t : string) : take (String.length s) (s +:+ t) = s.
Proof.
  induction s as [|c s IH]; [by destruct t|].
  rewrite app_String. cbn [String.length take]. by f_equal.
Qed.

Lemma but_last_app (s : string) (c : ascii) :
  but_last (s +:+ String c "") = s.
Proof.
  unfold but_last. rewrite length_app_String. cbn [String.length].
  replace (String.length s + 1 - 1) with (String.length s) by lia.
  apply take_app.
Qed.

(** without an occurrence of the separator, [split] gives the text whole *)
Lemma split_go_whole (sep cur s : string) :
  contains sep s = false -> split_go sep 0 cur s = [cur +:+ s].
Proof.
  revert cur. induction s as [|c s IH]; intros cur; cbn [contains split_go].
  - intros _. by rewrite app_empty_r.
  - intros [Hp Hc]%orb_false_iff. rewrite Hp, IH by done.
    by rewrite app_assoc_String.
Qed.

Lemma split_whole (sep s : string) :
  contains sep s = false -> split sep s = [s].
Proof. apply split_go_whole. Qed.

End SplitFacts.

(** ** The player list *)

Lemma for_each_Ok {A B : Type} (f : A -> result B) (l : list A)
  (r : list B) :
  for_each f l = Ok r <-> Forall2 (fun x y => f x = Ok y) l r.
Proof.
  revert r. induction l as [|x l IH]; intros r; cbn [for_each rbind].
  - split; [intros [= <-]; constructor|by intros ->%Forall2_nil_inv_l].
  - destruct (f x) as [y|e] eqn:Hx.
    + destruct (for_each f l) as [ys|e] eqn:Hl; cbn [rbind].
      * split.
        -- intros [= <-]. constructor; [done|]. by apply IH.
        -- intros (y' & ys' & Hy & Hys & ->)%Forall2_cons_inv_l.
           apply IH in Hys. congruence.
      * split; [done|].
        intros (y' & ys' & Hy & Hys & ->)%Forall2_cons_inv_l.
        by apply IH in Hys.
    + split; [done|].
      intros (y' & ys' & Hy & Hys & ->)%Forall2_cons_inv_l. congruence.
Qed.

Lemma for_each_returns {A B : Type} (f : A -> result B) (l : list A) :
  Forall (fun x => exists y, f x = Ok y) l -> exists r, for_each f l = Ok r.
Proof.
  induction 1 as [|x l [y Hy] _ [r IH]]; [by exists []|].
  exists (y :: r). cbn [for_each]. rewrite Hy. cbn [rbind]. by rewrite IH.
Qed.

Lemma for_each_Raise {A B : Type} (f : A -> result B) (l : list A)
  (e : exn) :
  for_each f l = Raise e -> exists x, x ∈ l /\ f x = Raise e.
Proof.
  induction l as [|x l IH]; cbn [for_each]; [done|].
  destruct (f x) as [y|e'] eqn:Hx; cbn [rbind].
  - destruct (for_each f l) as [ys|e'] eqn:Hl; cbn [rbind]; [done|].
    intros [= ->]. destruct (IH eq_refl) as (x' & Hin & Hx').
    exists x'. split; [by right|done].
  - intros [= ->]. exists x. split; [left|done].
Qed.

(** X4: an entry of the form name, " : ", steam id is read back as that
    name and that steam id, whatever the name holds (colons included), as
    long as the steam id holds no colon. *)
Theorem parse_playerid_round_trip (nm steamid : string) :
  PyStr.contains ":" steamid = false ->
  parse_playerid (nm +:+ " : " +:+ steamid) = Ok (nm, steamid).
Proof.
  intros Hid. unfold parse_playerid.
  change (nm +:+ " : " +:+ steamid)
    with (nm +:+ String " " (String ":" (String " " steamid))).
  replace (nm +:+ String " " (String ":" (String " " steamid)))
    with ((nm +:+ " ") +:+ String ":" (String " " steamid))
    by (by rewrite app_assoc_String).
  rewrite rsplit1_char.
  - by rewrite but_last_app.
  - cbn [PyStr.contains]. rewrite prefix_char. by rewrite Hid.
Qed.

Lemma parse_playerid_round_trip_witness :
  PyStr.contains ":" "76561198000000001" = false
  /\ parse_playerid ("T17: Scott" +:+ " : " +:+ "76561198000000001")
     = Ok ("T17: Scott", "76561198000000001").
Proof.
  split; [reflexivity|].
  apply (parse_playerid_round_trip "T17: Scott" "76561198000000001").
  reflexivity.
Defined.

(** X5: [get_playerids] returns one pair for each entry of the reply, in
    its order, when every entry holds a colon, and raises [ValueError]
    when one does not. *)
Theorem get_playerids_returns (raw_list : list string) :
  (Forall (fun item => PyStr.contains ":" item = true) raw_list ->
   exists l, get_playerids raw_list = Ok l
             /\ Forall2 (fun item p => parse_playerid item = Ok p) raw_list l)
  /\ (~ Forall (fun item => PyStr.contains ":" item = true) raw_list ->
      get_playerids raw_list = Raise ValueError).
Proof.
  assert (forall item,
             PyStr.contains ":" item = true ->
             exists p, parse_playerid item = Ok p) as Hok.
  { intros item Hc. unfold parse_playerid.
    destruct (rsplit1_contains ":" item) as [[a b] ->]; by eauto. }
  assert (forall item e,
             parse_playerid item = Raise e ->
             e = ValueError /\ PyStr.contains ":" item = false) as Hraise.
  { intros item e. unfold parse_playerid.
    destruct (PyStr.contains ":" item) eqn:Hc.
    - destruct (rsplit1_contains ":" item) as [[a b] ->]; done.
    - rewrite rsplit1_None by done. by intros [= <-]. }
  split.
  - intros Hall. unfold get_playerids.
    destruct (for_each_returns parse_playerid raw_list) as [l Hl].
    { eapply Forall_impl; [exact Hall|]. intros item. apply Hok. }
    exists l. split; [done|]. by apply for_each_Ok.
  - intros Hnot. unfold get_playerids.
    destruct (for_each parse_playerid raw_list) as [l|e] eqn:Hl.
    + exfalso. apply Hnot. apply for_each_Ok in Hl.
      apply Forall_forall. intros item Hin.
      apply list_elem_of_lookup in Hin as [i Hi].
      destruct (Forall2_lookup_l _ _ _ _ _ Hl Hi) as (p & _ & Hp).
      destruct (PyStr.contains ":" item) eqn:Hc; [done|].
      unfold parse_playerid in Hp. by rewrite rsplit1_None in Hp.
    + apply for_each_Raise in Hl as (item & _ & Hitem).
      by apply Hraise in Hitem as [-> _].
Qed.

Lemma get_playerids_returns_witness :
  exists l, get_playerids ["a : 1"; "b : 2"] = Ok l
            /\ Forall2 (fun item p => parse_playerid item = Ok p)
                       ["a : 1"; "b : 2"] l.
Proof.
  apply (proj1 (get_playerids_returns ["a : 1"; "b : 2"])).
  repeat constructor.
Defined.

Lemma foldl_insert_lookup (l : list (string * string))
  (d : gmap string string) (nm : string) :
  foldl (fun d p => <[fst p := snd p]> d) d l !! nm
  = match last (filter (fun p => fst p = nm) l) with
    | Some p => Some (snd p)
    | None => d !! nm
    end.
Proof.
  revert d. induction l as [|[n s] l IH]; intros d; [done|].
  cbn [foldl]. rewrite IH. cbn [fst snd].
  destruct (decide (n = nm)) as [->|Hne].
  - rewrite filter_cons_True by done.
    destruct (filter _ l) as [|q qs] eqn:Hf.
    + cbn [last]. by rewrite lookup_insert_eq.
    + rewrite last_cons_cons.
      destruct (last (q :: qs)) eqn:Hl; [done|]. by apply last_None in Hl.
  - rewrite filter_cons_False by done.
    destruct (last _); [done|]. by rewrite lookup_insert_ne.
Qed.

(** X6: read as a dict, the reply gives each name the steam id of the
    last entry that bears it, and no steam id to a name no entry bears. *)
Theorem get_playerids_dict_last (raw_list : list string)
  (l : list (string * string)) :
  get_playerids raw_list = Ok l ->
  exists d,
    get_playerids_dict raw_list = Ok d
    /\ forall nm,
         d !! nm = snd <$> last (filter (fun p => fst p = nm) l).
Proof.
  unfold get_playerids, get_playerids_dict. intros ->. cbn [rbind].
  eexists. split; [done|]. intros nm. rewrite foldl_insert_lookup.
  destruct (last _); [done|]. apply lookup_empty.
Qed.

Lemma get_playerids_dict_last_witness :
  exists d,
    get_playerids_dict ["Bob : 1"; "Al : 2"; "Bob : 3"] = Ok d
    /\ forall nm,
         d !! nm
         = snd <$> last (filter (fun p => fst p = nm)
                           [("Bob", "1"); ("Al", "2"); ("Bob", "3")]).
Proof.
  apply (get_playerids_dict_last ["Bob : 1"; "Al : 2"; "Bob : 3"]).
  reflexivity.
Defined.

(** ** The console administrators *)

(** X7: an entry made of a steam id, a role and a name between two
    delimiters, separated by single spaces, is read back as that steam id,
    role and name, whatever the name holds, as long as the steam id and the
    role hold no space. *)
Theorem parse_admin_round_trip (sid role nm : string) (q1 q2 : ascii) :
  PyStr.contains " " sid = false ->
  PyStr.contains " " role = false ->
  parse_admin (sid +:+ " " +:+ role +:+ " " +:+ String q1 (nm +:+ String q2 ""))
  = Ok {| admin_steam_id_64 := sid; admin_name := nm; admin_role := role |}.
Proof.
  intros Hsid Hrole. unfold parse_admin.
  change (sid +:+ " " +:+ role +:+ " " +:+ String q1 (nm +:+ String q2 ""))
    with (sid +:+ String " " (role +:+ String " "
                                (String q1 (nm +:+ String q2 "")))).
  rewrite split1_char by done. rewrite split1_char by done.
  cbn [PyStr.skip]. by rewrite but_last_app.
Qed.

Lemma parse_admin_round_trip_witness :
  parse_admin ("7656" +:+ " " +:+ "owner" +:+ " "
               +:+ String PyStr.DQUOTE ("Big Boss" +:+ String PyStr.DQUOTE ""))
  = Ok {| admin_steam_id_64 := "7656"; admin_name := "Big Boss";
          admin_role := "owner" |}.
Proof.
  apply (parse_admin_round_trip "7656" "owner" "Big Boss"); reflexivity.
Defined.

(** ** The shape of the groups of a match *)

Module ReShapeFacts.
Import Re ReShape.

Lemma fits_app (sh1 sh2 : list pos) (a b : string) :
  fits sh1 a = true -> fits sh2 b = true -> fits (sh1 ++ sh2) (a +:+ b) = true.
Proof.
  revert a. induction sh1 as [|p sh1 IH]; intros a; cbn [fits].
  - destruct a; [done|discriminate].
  - destruct a as [|x a]; [discriminate|].
    intros [Hp Ha]%andb_true_iff Hb. rewrite app_String.
    cbn [app fits]. rewrite Hp. by apply IH.
Qed.

Lemma fits_Lit (l : string) : fits (Char <$> list_ascii_of_string l) l = true.
Proof.
  induction l as [|c l IH]; [done|]. cbn. by rewrite Ascii.eqb_refl.
Qed.

Lemma run_shape (r : regex) :
  forall sh s caps a caps' s',
    shape r = Some sh -> In (a, caps', s') (run r s caps) -> fits sh a = true.
Proof.
  induction r as [l|c|c|c|r1 IH1 r2 IH2|r1 IH1 r2 IH2|n r IH];
    intros sh s caps a caps' s'; cbn [shape run]; try discriminate.
  - intros [= <-]. destruct (String.prefix l s); simpl; [|done].
    intros [[= <- _ _]|[]]. apply fits_Lit.
  - intros [= <-]. destruct s as [|x s]; [done|].
    destruct (cls_test c x) eqn:Hx; simpl; [|done].
    intros [[= <- _ _]|[]]. cbn. by rewrite Hx.
  - destruct (shape r1) as [sh1|]; [|discriminate].
    destruct (shape r2) as [sh2|]; [|discriminate].
    intros [= <-] ([[a1 caps1] s1] & H1 & H2)%in_flat_map.
    apply in_map_iff in H2 as ([[a2 caps2] s2] & [= <- _ _] & H2).
    apply fits_app; [by eapply IH1|by eapply IH2].
  - intros Hsh ([[a0 caps0] s0] & [= <- _ _] & H)%in_map_iff.
    by eapply IH.
Qed.

Lemma run_sets_shape (r : regex) (n : nat) (sh : list pos) :
  sets_shape r n sh = true ->
  forall s caps a caps' s',
    n < length caps -> In (a, caps', s') (run r s caps) ->
    exists g, fits sh g = true /\ caps' !! n = Some (Some g).
Proof.
  induction r as [l|c|c|c|r1 IH1 r2 IH2|r1 IH1 r2 IH2|m r IH];
    intros Hs s caps a caps' s' Hn; simpl in *; try discriminate.
  - intros ([[a1 caps1] s1] & H1 & H2)%in_flat_map.
    apply in_map_iff in H2 as ([[a2 caps2] s2] & [= _ <- _] & H2).
    pose proof (ReFacts.run_length _ _ _ _ _ _ H1) as Hlen.
    apply orb_true_iff in Hs as [Hs|[Hs Ht]%andb_true_iff].
    + eapply (IH2 Hs); [|exact H2]. lia.
    + apply negb_true_iff in Ht.
      rewrite (ReFacts.run_untouched _ _ Ht _ _ _ _ _ H2).
      apply (IH1 Hs _ _ _ _ _ Hn H1).
  - apply andb_true_iff in Hs as [Hs1 Hs2].
    intros [H|H]%in_app_iff;
      [by apply (IH1 Hs1 _ _ _ _ _ Hn H)|by apply (IH2 Hs2 _ _ _ _ _ Hn H)].
  - intros ([[a0 caps0] s0] & [= _ <- _] & H)%in_map_iff.
    pose proof (ReFacts.run_length _ _ _ _ _ _ H) as Hlen.
    destruct (m =? n) eqn:Hm.
    + apply Nat.eqb_eq in Hm as ->. apply bool_decide_eq_true in Hs.
      exists a0. split.
      * by apply (run_shape _ _ _ _ _ _ _ Hs H).
      * apply list_lookup_insert_eq. lia.
    + apply Nat.eqb_neq in Hm. rewrite list_lookup_insert_ne by done.
      by apply (IH Hs _ _ _ _ _ Hn H).
Qed.

(** a group once set stays set *)
Lemma run_keeps_some (r : regex) (n : nat) :
  forall s caps a caps' s',
    In (a, caps', s') (run r s caps) ->
    (exists g, caps !! n = Some (Some g)) ->
    exists g, caps' !! n = Some (Some g).
Proof.
  induction r as [l|c|c|c|r1 IH1 r2 IH2|r1 IH1 r2 IH2|m r IH];
    intros s caps a caps' s'; simpl.
  - destruct (String.prefix l s); simpl; [|done]. by intros [[= _ <- _]|[]].
  - destruct s as [|x s]; [done|]. destruct (cls_test c x); simpl; [|done].
    by intros [[= _ <- _]|[]].
  - intros ([a0 b0] & [= _ <- _] & _)%in_map_iff. done.
  - intros ([a0 b0] & [= _ <- _] & _)%in_map_iff. done.
  - intros ([[a1 caps1] s1] & H1 & H2)%in_flat_map Hg.
    apply in_map_iff in H2 as ([[a2 caps2] s2] & [= _ <- _] & H2).
    eapply IH2; [exact H2|]. by eapply IH1.
  - intros [H|H]%in_app_iff Hg; [by eapply IH1|by eapply IH2].
  - intros ([[a0 caps0] s0] & [= _ <- _] & H)%in_map_iff Hg.
    destruct (IH _ _ _ _ _ H Hg) as [g Hg'].
    destruct (decide (m = n)) as [->|Hne].
    + exists a0. apply list_lookup_insert_eq.
      by apply lookup_lt_Some in Hg'.
    + exists g. by rewrite list_lookup_insert_ne.
Qed.

Lemma run_sets_some (r : regex) (n : nat) :
  sets_some r n = true ->
  forall s caps a caps' s',
    n < length caps -> In (a, caps', s') (run r s caps) ->
    exists g, caps' !! n = Some (Some g).
Proof.
  induction r as [l|c|c|c|r1 IH1 r2 IH2|r1 IH1 r2 IH2|m r IH];
    intros Hs s caps a caps' s' Hn; simpl in *; try discriminate.
  - intros ([[a1 caps1] s1] & H1 & H2)%in_flat_map.
    apply in_map_iff in H2 as ([[a2 caps2] s2] & [= _ <- _] & H2).
    pose proof (ReFacts.run_length _ _ _ _ _ _ H1) as Hlen.
    apply orb_true_iff in Hs as [Hs|Hs].
    + eapply (IH2 Hs); [|exact H2]. lia.
    + eapply run_keeps_some; [exact H2|]. by eapply (IH1 Hs).
  - apply andb_true_iff in Hs as [Hs1 Hs2].
    intros [H|H]%in_app_iff;
      [by apply (IH1 Hs1 _ _ _ _ _ Hn H)|by apply (IH2 Hs2 _ _ _ _ _ Hn H)].
  - intros ([[a0 caps0] s0] & [= _ <- _] & H)%in_map_iff.
    pose proof (ReFacts.run_length _ _ _ _ _ _ H) as Hlen.
    destruct (m =? n) eqn:Hm.
    + apply Nat.eqb_eq in Hm as ->. exists a0.
      apply list_lookup_insert_eq. lia.
    + apply Nat.eqb_neq in Hm. rewrite list_lookup_insert_ne by done.
      simpl in Hs. by apply (IH Hs _ _ _ _ _ Hn H).
Qed.

Lemma fits_length (sh : list pos) (s : string) :
  fits sh s = true -> String.length s = length sh.
Proof.
  revert s. induction sh as [|p sh IH]; intros [|c s]; cbn [fits];
    try done.
  intros [_ H]%andb_true_iff. cbn. f_equal. by apply IH.
Qed.

End ReShapeFacts.

(** ** The bans *)

(** X8: [_struct_ban] returns for a ban line that holds " :" and raises
    [ValueError] for one that does not.  The record keeps the line and the
    type as given, and its steam id is the text before the first " :" of
    the line. *)
Theorem struct_ban_returns (ban_log type_ : string) :
  match _struct_ban ban_log type_ with
  | Ok b =>
      ban_raw b = ban_log /\ ban_type b = type_
      /\ (exists rest, ban_log = ban_steam_id_64 b +:+ " :" +:+ rest)
      /\ PyStr.contains " :" (ban_steam_id_64 b) = false
  | Raise e => e = ValueError /\ PyStr.contains " :" ban_log = false
  end.
Proof.
  unfold _struct_ban.
  destruct (PyStr.split1 " :" ban_log) as [[sid rest]|] eqn:Hs.
  - cbn [ban_raw ban_type ban_steam_id_64]. repeat split.
    + exists rest. by apply split1_Some.
    + by eapply split1_first.
  - split; [done|].
    destruct (PyStr.contains " :" ban_log) eqn:Hc; [|done].
    apply split1_contains in Hc as [? Hc]. congruence.
Qed.

(** X9: for a ban line without " by admin ", the field "by" is not empty:
    it is the whole line, its double quotes taken out. *)
Theorem struct_ban_by_whole (ban_log type_ : string) (b : ban) :
  PyStr.contains " by admin " ban_log = false ->
  _struct_ban ban_log type_ = Ok b ->
  ban_by b = PyStr.remove_char PyStr.DQUOTE ban_log.
Proof.
  intros Hby. unfold _struct_ban.
  destruct (PyStr.split1 " :" ban_log) as [[sid rest]|]; [|done].
  intros [= <-]. cbn [ban_by]. by rewrite split_whole.
Qed.

Lemma struct_ban_by_whole_witness :
  exists b,
    _struct_ban "765 : banned" "perma" = Ok b
    /\ ban_by b = "765 : banned".
Proof.
  eexists. split; [reflexivity|].
  apply (struct_ban_by_whole "765 : banned" "perma"); reflexivity.
Defined.

(** X10: the date and the reason of a ban are set together or not at all,
    and a date that is set reads as four digits, a dot, two digits, a dot,
    two digits, a dash, two digits, a dot, two digits, any character but a
    line feed, two digits: 19 characters. *)
Theorem struct_ban_date (ban_log type_ : string) (b : ban) :
  _struct_ban ban_log type_ = Ok b ->
  match ban_time b with
  | Some d =>
      ReShape.fits ReShape.date_shape d = true /\ String.length d = 19
      /\ is_Some (ban_reason b)
  | None => ban_reason b = None
  end.
Proof.
  unfold _struct_ban.
  destruct (PyStr.split1 " :" ban_log) as [[sid rest]|]; [|done].
  intros [= <-]. cbn [ban_time ban_reason].
  unfold Re.rmatch.
  destruct (Re.run _ ban_log _) as [|[[a caps] s'] l] eqn:Hrun; [done|].
  assert (In (a, caps, s')
             (Re.run (Re.Grp 0 BanPatterns.ban_regexp) ban_log
                (replicate 3 None))) as Hin by (rewrite Hrun; by left).
  assert (ReShape.sets_shape (Re.Grp 0 BanPatterns.ban_regexp) 1
            ReShape.date_shape = true) as Hshape by (vm_compute; reflexivity).
  assert (ReShape.sets_some (Re.Grp 0 BanPatterns.ban_regexp) 2 = true)
    as Hsome by (vm_compute; reflexivity).
  destruct (ReShapeFacts.run_sets_shape _ _ _ Hshape ban_log
              (replicate 3 None) a caps s') as (d & Hd & Hlook);
    [simpl; lia|exact Hin|].
  destruct (ReShapeFacts.run_sets_some _ _ Hsome ban_log
              (replicate 3 None) a caps s') as (g & Hlook2);
    [simpl; lia|exact Hin|].
  unfold Re.group. rewrite Hlook, Hlook2. split; [done|].
  split; [|by eexists]. by apply ReShapeFacts.fits_length in Hd.
Qed.

Lemma struct_ban_date_witness :
  exists b,
    _struct_ban "1 : banned on 2020.12.03-12.40x08 for fun" "temp" = Ok b
    /\ ban_time b = Some "2020.12.03-12.40x08"
    /\ match ban_time b with
       | Some d =>
           ReShape.fits ReShape.date_shape d = true /\ String.length d = 19
           /\ is_Some (ban_reason b)
       | None => ban_reason b = None
       end.
Proof.
  eexists. split; [reflexivity|]. split; [reflexivity|].
  apply (struct_ban_date "1 : banned on 2020.12.03-12.40x08 for fun" "temp").
  reflexivity.
Defined.

Lemma for_each_app {A B : Type} (f : A -> result B) (l1 l2 : list A)
  (r1 r2 : list B) :
  for_each f l1 = Ok r1 -> for_each f l2 = Ok r2 ->
  for_each f (l1 ++ l2) = Ok (r1 ++ r2).
Proof.
  intros H1%for_each_Ok H2%for_each_Ok. apply for_each_Ok.
  by apply Forall2_app.
Qed.

Lemma unban_filtered (type_ : string) (ctor : string -> unban_op)
  (steam_id_64 : string) (reply : list string) (bans : list ban) :
  (forall b, ban_type b = type_ -> unban_one b = Ok (ctor (ban_raw b))) ->
  Forall2 (fun log b => _struct_ban log type_ = Ok b) reply bans ->
  for_each unban_one
    (filter (fun b => ban_steam_id_64 b = steam_id_64) bans)
  = Ok (ctor <$> bans_of steam_id_64 reply).
Proof.
  intros Hone. induction 1 as [|log b reply bans Hb _ IH]; [done|].
  unfold bans_of in *. unfold _struct_ban in Hb.
  destruct (PyStr.split1 " :" log) as [[sid rest]|] eqn:Hs; [|done].
  injection Hb as <-. rewrite !filter_cons, Hs. cbn [ban_steam_id_64 fmap option_fmap option_map fst].
  destruct (decide (sid = steam_id_64)) as [->|Hne].
  - rewrite decide_True by done. cbn [for_each]. rewrite Hone by done.
    cbn [rbind ban_raw]. rewrite IH. done.
  - rewrite decide_False by congruence. apply IH.
Qed.

(** X11: [do_unban] sends one removal for each ban line of the two replies
    that begins with the steam id, with that line as its argument: first
    the temporary bans in the order of their reply, then the permanent ones
    in the reverse order of theirs.  When a line of either reply holds no
    " :", it raises [ValueError] and sends nothing. *)
Theorem do_unban_commands (temp_bans perma_bans : list string)
  (steam_id_64 : string) :
  (Forall (fun b => PyStr.contains " :" b = true) (temp_bans ++ perma_bans) ->
   do_unban temp_bans perma_bans steam_id_64
   = Ok ((RemoveTempBan <$> bans_of steam_id_64 temp_bans)
         ++ (RemovePermaBan <$> reverse (bans_of steam_id_64 perma_bans))))
  /\ (~ Forall (fun b => PyStr.contains " :" b = true)
          (temp_bans ++ perma_bans) ->
      do_unban temp_bans perma_bans steam_id_64 = Raise ValueError).
Proof.
  assert (forall t l,
             Forall (fun b => PyStr.contains " :" b = true) l ->
             exists r, for_each (fun b => _struct_ban b t) l = Ok r) as Hok.
  { intros t l Hl. apply for_each_returns.
    eapply Forall_impl; [exact Hl|]. intros log Hc. cbn beta in *.
    pose proof (struct_ban_returns log t) as H.
    destruct (_struct_ban log t) as [b|e]; [by eexists|].
    destruct H as [_ H]. congruence. }
  assert (forall t l e,
             for_each (fun b => _struct_ban b t) l = Raise e ->
             e = ValueError
             /\ ~ Forall (fun b => PyStr.contains " :" b = true) l) as Hraise.
  { intros t l e (log & Hin & Hlog)%for_each_Raise.
    pose proof (struct_ban_returns log t) as H. rewrite Hlog in H.
    destruct H as [-> H]. split; [done|].
    intros Hall. rewrite Forall_forall in Hall.
    specialize (Hall log Hin). cbn beta in Hall. congruence. }
  unfold do_unban, get_bans. split.
  - intros [Ht Hp]%Forall_app.
    destruct (Hok "temp" _ Ht) as [temp Htemp].
    destruct (Hok "perma" _ Hp) as [perma Hperma].
    rewrite Htemp, Hperma. cbn [rbind].
    rewrite filter_app.
    apply for_each_Ok in Htemp, Hperma.
    apply for_each_app.
    + apply (unban_filtered "temp" RemoveTempBan); [|done].
      intros b Hb. unfold unban_one. by rewrite bool_decide_true.
    + unfold bans_of. rewrite <- filter_reverse.
      apply (unban_filtered "perma" RemovePermaBan steam_id_64
               (reverse perma_bans) (reverse perma));
        [|by apply Forall2_reverse].
      intros b Hb. unfold unban_one.
      rewrite bool_decide_false by (by rewrite Hb).
      by rewrite bool_decide_true.
  - intros Hnot.
    destruct (for_each _ temp_bans) as [temp|e] eqn:Htemp; cbn [rbind].
    + destruct (for_each _ perma_bans) as [perma|e] eqn:Hperma; cbn [rbind].
      * exfalso. apply Hnot, Forall_app. split.
        -- destruct (decide (Forall (fun b => PyStr.contains " :" b = true)
                               temp_bans)) as [|Hn]; [done|].
           exfalso. apply Hn. apply for_each_Ok in Htemp.
           apply Forall_forall. intros log Hin.
           apply list_elem_of_lookup in Hin as [i Hi].
           destruct (Forall2_lookup_l _ _ _ _ _ Htemp Hi) as (b & _ & Hb).
           pose proof (struct_ban_returns log "temp") as H.
           rewrite Hb in H. destruct H as (_ & _ & [rest Hrest] & _).
           destruct (PyStr.contains " :" log) eqn:Hc; [done|].
           apply split1_None in Hc. unfold _struct_ban in Hb.
           by rewrite Hc in Hb.
        -- apply for_each_Ok in Hperma.
           apply Forall_forall. intros log Hin.
           apply list_elem_of_lookup in Hin as [i Hi].
           destruct (Forall2_lookup_l _ _ _ _ _ Hperma Hi) as (b & _ & Hb).
           destruct (PyStr.contains " :" log) eqn:Hc; [done|].
           apply split1_None in Hc. unfold _struct_ban in Hb.
           by rewrite Hc in Hb.
      * by apply Hraise in Hperma as [-> _].
    + by apply Hraise in Htemp as [-> _].
Qed.

Lemma do_unban_commands_witness :
  do_unban ["1 : a"; "2 : b"] ["1 : c"; "3 : d"; "1 : e"] "1"
  = Ok [RemoveTempBan "1 : a"; RemovePermaBan "1 : e"; RemovePermaBan "1 : c"].
Proof.
  apply (proj1 (do_unban_commands ["1 : a"; "2 : b"]
                  ["1 : c"; "3 : d"; "1 : e"] "1")).
  repeat constructor.
Defined.

(** ** The next map *)

Section RemoveSubFacts.
Import PyStr.

Lemma prefix_length (p s : string) :
  String.prefix p s = true -> String.length p <= String.length s.
Proof.
  revert s. induction p as [|c p IH]; intros s Hp; [simpl; lia|].
  apply prefix_cons in Hp as (s' & -> & Hp). simpl.
  apply IH in Hp. lia.
Qed.

Lemma prefix_skip_mono (d : nat) (a b : string) :
  String.prefix a b = true -> String.prefix (skip d a) (skip d b) = true.
Proof.
  revert a b. induction d as [|d IH]; intros a b Hp; [done|].
  destruct a as [|c a]; [apply prefix_empty|].
  apply prefix_cons in Hp as (b' & -> & Hp). cbn [skip]. by apply IH.
Qed.

Lemma prefix_app_inv (p m q : string) :
  String.prefix p (m +:+ q) = true -> String.length p <= String.length m ->
  String.prefix p m = true.
Proof.
  revert m. induction p as [|c p IH]; intros m Hp Hlen;
    [apply prefix_empty|].
  destruct m as [|x m]; [simpl in Hlen; lia|].
  rewrite app_String in Hp.
  apply prefix_cons in Hp as (s' & Heq & Hp).
  injection Heq as -> <-. simpl.
  destruct (ascii_dec c c); [|done]. apply IH; [done|]. simpl in Hlen. lia.
Qed.

Lemma remove_sub_go_short (p : string) (k : nat) (s : string) :
  String.length s <= k -> remove_sub_go p k s = "".
Proof.
  revert k. induction s as [|c s IH]; intros k Hk; [done|].
  destruct k as [|k]; [simpl in Hk; lia|]. cbn [remove_sub_go].
  apply IH. simpl in Hk. lia.
Qed.

(** an occurrence of a border-free [p] put after a text leaves the
    occurrences found in the text as they were, and goes itself *)
Lemma remove_sub_go_app (p : string) :
  p <> "" -> border_free p = true ->
  forall m k,
    k <= String.length m ->
    remove_sub_go p k (m +:+ p) = remove_sub_go p k m.
Proof.
  intros Hp Hfree. induction m as [|c m IH]; intros k Hk.
  - assert (k = 0) as -> by (simpl in Hk; lia).
    change ("" +:+ p) with p. destruct p as [|x p]; [done|].
    cbn [remove_sub_go]. rewrite prefix_refl.
    apply remove_sub_go_short. simpl. lia.
  - rewrite app_String. destruct k as [|k].
    + cbn [remove_sub_go]. rewrite <- app_String.
      destruct (String.prefix p (String c m +:+ p)) eqn:Hpre.
      * assert (String.prefix p (String c m) = true) as Hin.
        { destruct (decide (String.length p <= String.length (String c m)))
            as [Hle|Hgt]; [by eapply prefix_app_inv|].
          exfalso.
          apply (prefix_skip_mono (String.length (String c m))) in Hpre.
          rewrite skip_app in Hpre.
          unfold border_free in Hfree. rewrite forallb_forall in Hfree.
          specialize (Hfree (String.length (String c m))).
          rewrite Hpre in Hfree. cbn [negb] in Hfree.
          assert (true = false -> False) as Hne by done. apply Hne.
          symmetry. apply Hfree. apply in_seq. simpl in *. lia. }
        rewrite Hin. apply IH.
        apply prefix_length in Hin. simpl in Hin. lia.
      * destruct (String.prefix p (String c m)) eqn:Hin.
        -- by rewrite (prefix_app _ _ _ Hin) in Hpre.
        -- f_equal. apply IH. lia.
    + cbn [remove_sub_go]. apply IH. simpl in Hk. lia.
Qed.

Lemma remove_sub_app (p m : string) :
  p <> "" -> border_free p = true ->
  remove_sub p (m +:+ p) = remove_sub p m.
Proof.
  intros Hp Hfree. unfold remove_sub. apply remove_sub_go_app; [done..|lia].
Qed.

End RemoveSubFacts.

Lemma index_of_Some (x : string) (l : list string) (i : nat) :
  index_of x l = Some i -> l !! i = Some x.
Proof.
  revert i. induction l as [|y l IH]; intros i; cbn [index_of]; [done|].
  case_bool_decide as Hy; [by intros [= <-]; subst|].
  destruct (index_of x l) as [j|]; [|done]. intros [= <-]. by apply IH.
Qed.

Lemma index_of_None (x : string) (l : list string) :
  index_of x l = None <-> x ∉ l.
Proof.
  induction l as [|y l IH]; cbn [index_of].
  - split; [intros _; apply not_elem_of_nil|done].
  - case_bool_decide as Hy.
    + split; [done|]. intros H. exfalso. apply H. subst. left.
    + rewrite not_elem_of_cons. destruct (index_of x l).
      * split; [done|]. intros [_ H]. by apply IH in H.
      * split; [|done]. intros _. split; [done|]. by apply IH.
Qed.

Lemma index_of_first (x : string) (pre post : list string) :
  x ∉ pre -> index_of x (pre ++ x :: post) = Some (length pre).
Proof.
  induction pre as [|y pre IH]; intros Hx; cbn [index_of app].
  - by rewrite bool_decide_true.
  - apply not_elem_of_cons in Hx as [Hne Hx].
    rewrite bool_decide_false by done. by rewrite IH.
Qed.

(** X12: [get_next_map] returns a map of the rotation; only an empty
    rotation makes it fail, with the [IndexError] of its last line. *)
Theorem get_next_map_in_rotation (current : string) (rotation : list string) :
  match get_next_map current rotation with
  | Some m => m ∈ rotation
  | None => rotation = []
  end.
Proof.
  unfold get_next_map.
  destruct (index_of _ rotation) as [i|] eqn:Hi.
  - apply index_of_Some, lookup_lt_Some in Hi.
    destruct (S i =? length rotation) eqn:Hlen.
    + destruct rotation as [|m l]; [simpl in Hi; lia|]. left.
    + apply Nat.eqb_neq in Hlen.
      destruct (lookup_lt_is_Some_2 rotation (S i)) as [m Hm]; [lia|].
      rewrite Hm. by eapply list_elem_of_lookup_2.
  - destruct rotation as [|m l]; [done|]. left.
Qed.

(** X13: the next map is the one that follows the first occurrence of the
    current map in the rotation, the first map of the rotation following
    the last; when the current map is not in the rotation, the next map is
    the first of the rotation.  The current map is taken without its
    marks "_RESTART". *)
Theorem get_next_map_successor (current : string) (rotation : list string) :
  (forall pre post,
      rotation = pre ++ remove_sub "_RESTART" current :: post ->
      remove_sub "_RESTART" current ∉ pre ->
      get_next_map current rotation
      = head (post ++ pre ++ [remove_sub "_RESTART" current]))
  /\ (remove_sub "_RESTART" current ∉ rotation ->
      get_next_map current rotation = head rotation).
Proof.
  unfold get_next_map. split.
  - intros pre post -> Hpre. rewrite index_of_first by done.
    rewrite length_app. destruct post as [|n post]; cbn [length].
    + rewrite (proj2 (Nat.eqb_eq _ _)) by lia. by rewrite head_lookup.
    + rewrite (proj2 (Nat.eqb_neq _ _)) by lia.
      rewrite lookup_app_r by lia.
      replace (S (length pre) - length pre) with 1 by lia. done.
  - intros Hnot. apply index_of_None in Hnot. rewrite Hnot.
    by destruct rotation.
Qed.

Lemma get_next_map_successor_witness :
  get_next_map "b_RESTART" ["a"; "b"; "c"; "b"] = Some "c"
  /\ get_next_map "c" ["a"; "b"; "c"] = Some "a"
  /\ get_next_map "z" ["a"; "b"; "c"] = Some "a".
Proof.
  split; [|split].
  - apply (proj1 (get_next_map_successor "b_RESTART" ["a"; "b"; "c"; "b"])
             ["a"] ["c"; "b"]); [reflexivity|].
    by apply (bool_decide_unpack _).
  - apply (proj1 (get_next_map_successor "c" ["a"; "b"; "c"])
             ["a"; "b"] []); [reflexivity|].
    by apply (bool_decide_unpack _).
  - apply (proj2 (get_next_map_successor "z" ["a"; "b"; "c"])).
    by apply (bool_decide_unpack _).
Defined.

(** X14: a current map that bears the mark "_RESTART" at its end has the
    next map of the map without it, whatever the name and the rotation. *)
Theorem get_next_map_restart (m : string) (rotation : list string) :
  get_next_map (m +:+ "_RESTART") rotation = get_next_map m rotation.
Proof.
  unfold get_next_map. by rewrite remove_sub_app.
Qed.

(** ** Shuffling the rotation *)

Lemma remove_first_app_l (m : string) (l1 l2 : list string) :
  m ∈ l1 -> remove_first m (l1 ++ l2) = remove_first m l1 ++ l2.
Proof.
  induction l1 as [|x l1 IH]; intros Hm; [by apply elem_of_nil in Hm|].
  cbn [app remove_first]. case_bool_decide as Hx; [done|].
  apply elem_of_cons in Hm as [->|Hm]; [done|]. by rewrite IH.
Qed.

Lemma filter_ext_elem {A : Type} (P Q : A -> Prop)
  `{!forall x, Decision (P x), !forall x, Decision (Q x)} (l : list A) :
  (forall x, x ∈ l -> P x <-> Q x) -> filter P l = filter Q l.
Proof.
  induction l as [|x l IH]; intros Hext; [done|].
  rewrite !filter_cons.
  rewrite IH by (intros y Hy; apply Hext; by right).
  destruct (decide (P x)) as [HP|HP], (decide (Q x)) as [HQ|HQ]; try done.
  - exfalso. apply HQ, Hext; [left|done].
  - exfalso. apply HP, Hext; [left|done].
Qed.

Lemma randomize_loop (current : list string) :
  NoDup current ->
  forall ms done_,
    NoDup (done_ ++ ms) ->
    apply_ops (filter (fun x => x ∉ done_) current ++ done_)
      (ms ≫= (fun m => (if bool_decide (m ∈ current) then [Remove m] else [])
                        ++ [Add m]))
    = filter (fun x => x ∉ done_ ++ ms) current ++ done_ ++ ms.
Proof.
  intros Hcur. induction ms as [|m ms IH]; intros done_ Hnd.
  - by rewrite !app_nil_r.
  - cbn [mbind list_bind]. rewrite apply_ops_app.
    assert (m ∉ done_) as Hm.
    { apply NoDup_app in Hnd as (_ & Hd & _). intros H.
      apply (Hd m H). left. }
    assert (apply_ops (filter (fun x => x ∉ done_) current ++ done_)
              ((if bool_decide (m ∈ current) then [Remove m] else [])
               ++ [Add m])
            = filter (fun x => x ∉ done_ ++ [m]) current ++ done_ ++ [m])
      as ->.
    { case_bool_decide as Hin; cbn [app apply_ops foldl apply_op].
      - rewrite remove_first_app_l
          by (apply list_elem_of_filter; by split).
        rewrite remove_first_NoDup by (by apply NoDup_filter).
        rewrite list_filter_filter, <- (assoc_L (++)). f_equal.
        apply list_filter_iff. intros x. rewrite not_elem_of_app.
        rewrite list_elem_of_singleton. tauto.
      - rewrite <- (assoc_L (++)). f_equal.
        apply filter_ext_elem. intros x Hx. rewrite not_elem_of_app.
        rewrite list_elem_of_singleton. split; [|tauto].
        intros Hd. split; [done|]. by intros ->. }
    rewrite IH by (by rewrite <- (assoc_L (++))).
    by rewrite <- !(assoc_L (++)).
Qed.

(** X15: shuffling the rotation.  When neither the rotation nor the maps
    to shuffle repeat a map, the commands of [do_randomize_map_rotation]
    leave the server with the maps of the rotation that are not among the
    shuffled ones, in their order, followed by the shuffled maps in the
    order returned. *)
Theorem do_randomize_map_rotation_result
  (shuffle : list string -> list string) (maps all_maps current ret : list string)
  (ops : list op) :
  (forall l, shuffle l ≡ₚ l) ->
  NoDup (match maps with [] => all_maps | _ :: _ => maps end) ->
  NoDup current ->
  do_randomize_map_rotation shuffle maps all_maps current = (ret, ops) ->
  ret ≡ₚ match maps with [] => all_maps | _ :: _ => maps end
  /\ apply_ops current ops = filter (fun x => x ∉ ret) current ++ ret.
Proof.
  intros Hshuffle Hmaps Hcur. unfold do_randomize_map_rotation.
  intros [= <- <-]. split; [apply Hshuffle|].
  pose proof (randomize_loop current Hcur
                (shuffle match maps with [] => all_maps | _ :: _ => maps end)
                []) as H.
  cbn [app] in H. rewrite app_nil_r in H.
  rewrite <- H by (by rewrite Hshuffle). f_equal.
  symmetry. apply filter_all. intros x _. apply not_elem_of_nil.
Qed.

Lemma do_randomize_map_rotation_result_witness :
  apply_ops ["b"; "x"; "a"]
    (snd (do_randomize_map_rotation reverse [] ["a"; "b"; "c"] ["b"; "x"; "a"]))
  = ["x"; "c"; "b"; "a"].
Proof.
  apply (do_randomize_map_rotation_result reverse [] ["a"; "b"; "c"]
           ["b"; "x"; "a"] ["c"; "b"; "a"]).
  - intros l. apply reverse_Permutation.
  - by apply (bool_decide_unpack _).
  - by apply (bool_decide_unpack _).
  - reflexivity.
Defined.

(** ** The profanities *)

(** X16: [set_profanities] sends at most one command to unban and then at
    most one to ban.  The words unbanned are the current words that are
    not wanted, the words banned the wanted words that are not current,
    each once; a command with no word is not sent, so that nothing is sent
    when the wanted words are the current ones, in whatever order and
    however often repeated. *)
Theorem set_profanities_commands (current profanities : list string) :
  exists unban ban_,
    set_profanities current profanities
    = (profanities,
       (match unban with [] => [] | _ :: _ => [UnbanProfanities unban] end)
       ++ (match ban_ with [] => [] | _ :: _ => [BanProfanities ban_] end))
    /\ NoDup unban /\ NoDup ban_
    /\ (forall w, w ∈ unban <-> w ∈ current /\ w ∉ profanities)
    /\ (forall w, w ∈ ban_ <-> w ∈ profanities /\ w ∉ current).
Proof.
  exists (elements (list_to_set current ∖ list_to_set profanities
                    : gset string)),
         (elements (list_to_set profanities ∖ list_to_set current
                    : gset string)).
  split; [|split; [apply NoDup_elements|split; [apply NoDup_elements|]]].
  - unfold set_profanities. f_equal. f_equal.
    + case_bool_decide as He.
      * by rewrite He, elements_empty.
      * destruct (elements _) as [|w ws] eqn:Hel; [|done].
        by apply elements_empty_inv, leibniz_equiv in Hel.
    + case_bool_decide as He.
      * by rewrite He, elements_empty.
      * destruct (elements _) as [|w ws] eqn:Hel; [|done].
        by apply elements_empty_inv, leibniz_equiv in Hel.
  - split; intros w; rewrite elem_of_elements, elem_of_difference,
      !elem_of_list_to_set; done.
Qed.

(** ** The scoreboard: what the rows add up to *)

Section CountingFacts.
Context {A : Type}.

Lemma filter_length_none (P : A -> Prop) `{!forall x, Decision (P x)}
  (l : list A) :
  (forall x, x ∈ l -> ~ P x) -> length (filter P l) = 0.
Proof.
  induction l as [|x l IH]; intros Hnone; [done|].
  rewrite filter_cons_False by (apply Hnone; left).
  apply IH. intros y Hy. apply Hnone. by right.
Qed.

Lemma filter_length_or (P Q : A -> Prop)
  `{!forall x, Decision (P x), !forall x, Decision (Q x)} (l : list A) :
  (forall x, x ∈ l -> P x -> Q x -> False) ->
  length (filter (fun x => P x \/ Q x) l)
  = length (filter P l) + length (filter Q l).
Proof.
  induction l as [|x l IH]; intros Hdis; [done|].
  rewrite !filter_cons.
  specialize (IH (fun y Hy => Hdis y (list_elem_of_further _ _ _ Hy))).
  pose proof (Hdis x (list_elem_of_here _ _)) as Hx.
  destruct (decide (P x)), (decide (Q x)), (decide (P x \/ Q x));
    cbn [length]; try tauto; lia.
Qed.

End CountingFacts.

Section TotalsFacts.
Context {float : Type}.
Variable fdiv : nat -> nat -> float.
Variable fle : float -> float -> bool.
Variable fmt2 : float -> string.

Lemma tally_counts (p : string) (events : list event) (kills death : nat) :
  tally p events kills death
  = (kills + length (filter (fun e => player e = Some p) events),
     death + length (filter (fun e => player2 e = Some p
                                      /\ player e <> player2 e) events)).
Proof.
  revert kills death. induction events as [|e events IH]; intros kills death;
    cbn [tally]; [by rewrite !Nat.add_0_r|].
  rewrite !filter_cons.
  case_bool_decide as H1.
  - rewrite IH. rewrite decide_True by done.
    rewrite decide_False by (intros [H2 H3]; congruence).
    cbn [length]. f_equal; lia.
  - case_bool_decide as H2.
    + rewrite IH. rewrite decide_False by done.
      rewrite decide_True by (split; [done|congruence]).
      cbn [length]. f_equal; lia.
    + rewrite IH. rewrite decide_False by done.
      rewrite decide_False by tauto. done.
Qed.

Lemma board_sums (names : list pystr) (events : list event) :
  sum_list_with real_kills (board float fdiv names events)
  = sum_list_with (fun n => fst (counts_of events n)) names
  /\ sum_list_with real_death (board float fdiv names events)
     = sum_list_with (fun n => snd (counts_of events n)) names.
Proof.
  induction names as [|n names [IHk IHd]]; [done|].
  cbn [board sum_list_with].
  destruct n as [[|c p]|]; cbn [counts_of fst snd]; [done| |done].
  destruct (tally (String c p) events 0 0) as [kills death] eqn:Ht.
  cbn [fst snd].
  destruct ((kills =? 0) && (death =? 0)) eqn:Hz.
  - apply andb_true_iff in Hz as [->%Nat.eqb_eq ->%Nat.eqb_eq]. done.
  - cbn [sum_list_with real_kills real_death]. by rewrite IHk, IHd.
Qed.

Lemma sum_over_names (f : event -> pystr) (C : event -> Prop)
  `{!forall e, Decision (C e)} (names : list pystr) (events : list event) :
  NoDup names ->
  sum_list_with
    (fun n => if truthy n
              then length (filter (fun e => f e = n /\ C e) events) else 0)
    names
  = length (filter (fun e => truthy (f e) = true /\ f e ∈ names /\ C e)
              events).
Proof.
  induction 1 as [|n names Hn Hnd IH]; cbn [sum_list_with].
  - symmetry. apply filter_length_none.
    intros e _ (_ & Hin & _). by apply elem_of_nil in Hin.
  - rewrite IH.
    trans (length
             (filter (fun e => (truthy n = true /\ f e = n /\ C e)
                               \/ (truthy (f e) = true /\ f e ∈ names /\ C e))
                events)).
    + rewrite filter_length_or.
      * f_equal. destruct (truthy n) eqn:Ht.
        -- apply (f_equal length), filter_ext_elem. intros e _. tauto.
        -- symmetry. apply filter_length_none. by intros e _ (Hf & _).
      * intros e _ (_ & Heq & _) (_ & Hin & _). congruence.
    + apply (f_equal length), filter_ext_elem. intros e _.
      rewrite elem_of_cons. split.
      * intros [(Ht & Heq & HC)|(Ht & Hin & HC)].
        -- split; [congruence|]. split; [by left|done].
        -- split; [done|]. split; [by right|done].
      * intros (Ht & [Heq|Hin] & HC); [left|right]; try done.
        split; [congruence|done].
Qed.

Lemma sum_list_with_ext {B : Type} (f g : B -> nat) (l : list B) :
  (forall x, f x = g x) -> sum_list_with f l = sum_list_with g l.
Proof.
  intros Hfg. induction l as [|x l IH]; [done|].
  cbn [sum_list_with]. by rewrite Hfg, IH.
Qed.

Lemma sum_list_with_fmap {B D : Type} (f : D -> nat) (g : B -> D)
  (l : list B) :
  sum_list_with f (g <$> l) = sum_list_with (fun x => f (g x)) l.
Proof.
  induction l as [|x l IH]; [done|].
  cbn [fmap list_fmap sum_list_with]. by f_equal.
Qed.

Lemma get_scoreboard_Permutation (batch : LogBatch) (sort : string)
  (rows : list score_row) :
  get_scoreboard float fdiv fle fmt2 batch sort = Ok rows ->
  rows ≡ₚ format_row float fmt2
          <$> board float fdiv (players batch) (logs batch).
Proof.
  unfold get_scoreboard.
  destruct (board float fdiv (players batch) (logs batch)) as [|o l];
    [by intros [= <-]|].
  destruct (key_le float fle sort) as [le|]; [|done].
  intros Heq.
  assert (rows = format_row float fmt2
                 <$> sorted (fun a b => le b a) (o :: l)) as ->
    by congruence.
  apply fmap_Permutation, sorted_Permutation.
Qed.

(** X17: on the batch of a call of [parse_logs], the kills of the rows of
    the scoreboard add up to the number of events whose player is a
    non-empty text, and the deaths to the number of events whose second
    player is a non-empty text other than the player; and no player has
    two rows. *)
Theorem get_scoreboard_totals (representable : N -> bool)
  (timestamp_error : datetime -> option exn) (now : datetime)
  (blob : string) (filter_action filter_player : pystr) (batch : LogBatch)
  (sort : string) (rows : list score_row) :
  parse_logs representable timestamp_error now blob filter_action filter_player
    = Ok batch ->
  get_scoreboard float fdiv fle fmt2 batch sort = Ok rows ->
  sum_list_with row_kills rows
  = length (filter (fun e => truthy (player e) = true) (logs batch))
  /\ sum_list_with row_death rows
     = length (filter (fun e => truthy (player2 e) = true
                                /\ player e <> player2 e) (logs batch))
  /\ NoDup (row_player <$> rows).
Proof.
  intros Hbatch Hrows%get_scoreboard_Permutation.
  assert (NoDup (players batch)) as Hnd.
  { apply parse_logs_Ok in Hbatch as (_ & -> & _). apply NoDup_elements. }
  pose proof (board_sums (players batch) (logs batch)) as [Hk Hd].
  rewrite !Hrows, !sum_list_with_fmap. cbn [format_row row_kills row_death].
  split; [|split].
  - change (sum_list_with (fun x => real_kills x)
              (board float fdiv (players batch) (logs batch)))
      with (sum_list_with real_kills
              (board float fdiv (players batch) (logs batch))).
    rewrite Hk.
    rewrite (sum_list_with_ext _
               (fun n => if truthy n
                         then length (filter (fun e => player e = n /\ True)
                                        (logs batch))
                         else 0)).
    + rewrite sum_over_names by done.
      apply (f_equal length), filter_ext_elem. intros e He.
      destruct (events_recorded _ _ _ _ _ _ _ e Hbatch He) as (Hp & _).
      tauto.
    + intros [[|c p]|]; cbn [counts_of truthy fst]; try done.
      rewrite tally_counts. cbn [fst].
      apply (f_equal length), filter_ext_elem. intros e _. tauto.
  - change (sum_list_with (fun x => real_death x)
              (board float fdiv (players batch) (logs batch)))
      with (sum_list_with real_death
              (board float fdiv (players batch) (logs batch))).
    rewrite Hd.
    rewrite (sum_list_with_ext _
               (fun n => if truthy n
                         then length
                                (filter (fun e => player2 e = n
                                                  /\ player e <> player2 e)
                                   (logs batch))
                         else 0)).
    + rewrite (sum_over_names player2 (fun e => player e <> player2 e))
        by done.
      apply (f_equal length), filter_ext_elem. intros e He.
      destruct (events_recorded _ _ _ _ _ _ _ e Hbatch He) as (_ & Hp).
      tauto.
    + intros [[|c p]|]; cbn [counts_of truthy snd]; try done.
      by rewrite tally_counts.
  - change (fun x => row_player (format_row float fmt2 x))
      with (@sc_player float).
    rewrite <- list_fmap_compose.
    change (row_player ∘ format_row float fmt2) with (@sc_player float).
    apply (NoDup_fmap_1 Some), (sublist_NoDup _ (players batch));
      [done|apply board_players].
Qed.

End TotalsFacts.

Lemma get_scoreboard_totals_witness :
  exists rows,
    get_scoreboard Q q_div Qle_bool q_fmt2 sample_batch "ratio" = Ok rows
    /\ sum_list_with row_kills rows = 1
    /\ sum_list_with row_death rows = 1
    /\ NoDup (row_player <$> rows).
Proof.
  eexists. split; [vm_compute; reflexivity|].
  apply (get_scoreboard_totals q_div Qle_bool q_fmt2 utc_platform utc_timestamp
    0
           sample_raw (Some "KILL") None sample_batch "ratio").
  - vm_compute. reflexivity.
  - vm_compute. reflexivity.
Defined.

(** ** The VIP list: what a name is left with *)

Section StripFacts.
Import PyStr.

Lemma remove_char_gone (c : ascii) (s : string) :
  contains (String c "") (remove_char c s) = false.
Proof.
  induction s as [|d s IH]; [done|]. cbn [remove_char].
  destruct (Ascii.eqb c d) eqn:Hcd; [done|].
  cbn [contains]. rewrite prefix_char, IH.
  apply Ascii.eqb_neq in Hcd. by rewrite bool_decide_false.
Qed.

Lemma remove_char_keeps (c x : ascii) (s : string) :
  contains (String x "") s = false ->
  contains (String x "") (remove_char c s) = false.
Proof.
  induction s as [|d s IH]; [done|]. cbn [contains remove_char].
  intros [Hp Hc]%orb_false_iff.
  destruct (Ascii.eqb c d); [by apply IH|].
  cbn [contains]. rewrite prefix_char in *. by rewrite Hp, IH.
Qed.

Lemma lstrip_keeps (x : ascii) (s : string) :
  contains (String x "") s = false ->
  contains (String x "") (lstrip s) = false.
Proof.
  induction s as [|d s IH]; [done|]. cbn [lstrip].
  destruct (isspace d); [|done].
  cbn [contains]. intros [_ Hc]%orb_false_iff. by apply IH.
Qed.

Lemma rstrip_keeps (x : ascii) (s : string) :
  contains (String x "") s = false ->
  contains (String x "") (rstrip s) = false.
Proof.
  induction s as [|d s IH]; [done|]. cbn [contains rstrip].
  rewrite prefix_char. intros [Hp Hc]%orb_false_iff.
  specialize (IH Hc). destruct (rstrip s) as [|e t].
  - destruct (isspace d); [done|]. cbn [contains].
    by rewrite prefix_char, Hp.
  - cbn [contains] in *. by rewrite prefix_char, Hp, IH.
Qed.

Lemma lstrip_idem (s : string) : lstrip (lstrip s) = lstrip s.
Proof.
  induction s as [|d s IH]; [done|]. cbn [lstrip].
  destruct (isspace d) eqn:Hd; [done|]. cbn [lstrip]. by rewrite Hd.
Qed.

Lemma rstrip_idem (s : string) : rstrip (rstrip s) = rstrip s.
Proof.
  induction s as [|d s IH]; [done|]. cbn [rstrip].
  destruct (rstrip s) as [|e t] eqn:Hr.
  - destruct (isspace d) eqn:Hd; [done|]. cbn [rstrip]. by rewrite Hd.
  - cbn [rstrip] in *. by rewrite IH.
Qed.

Lemma lstrip_rstrip (s : string) :
  lstrip s = s -> lstrip (rstrip s) = rstrip s.
Proof.
  destruct s as [|d s]; [done|]. cbn [lstrip rstrip].
  destruct (isspace d) eqn:Hd.
  - intros Heq. exfalso.
    assert (String.length (lstrip s) <= String.length s) as Hlen.
    { clear. induction s as [|c s IH]; [done|]. cbn [lstrip].
      destruct (isspace c); simpl; lia. }
    rewrite Heq in Hlen. simpl in Hlen. lia.
  - intros _. destruct (rstrip s); cbn [lstrip]; by rewrite Hd.
Qed.

Lemma strip_idem (s : string) : strip (strip s) = strip s.
Proof.
  unfold strip. rewrite lstrip_rstrip by apply lstrip_idem.
  apply rstrip_idem.
Qed.

Lemma strip_keeps (x : ascii) (s : string) :
  contains (String x "") s = false ->
  contains (String x "") (strip s) = false.
Proof. intros H. by apply rstrip_keeps, lstrip_keeps. Qed.

End StripFacts.

(** X18: [get_vip_ids] returns a record for each item of the reply when
    every item holds a space, and raises [ValueError] when an item holds
    none.  The steam id of a record holds no space, and its name no double
    quote, no line feed and no white space at either end. *)
Theorem get_vip_ids_clean (reply : list string) :
  match get_vip_ids reply with
  | Ok l =>
      Forall (fun item => PyStr.contains " " item = true) reply
      /\ length l = length reply
      /\ Forall (fun v =>
                   PyStr.contains " " (steam_id_64 v) = false
                   /\ PyStr.contains (String PyStr.DQUOTE "") (name v) = false
                   /\ PyStr.contains (String PyStr.LF "") (name v) = false
                   /\ PyStr.strip (name v) = name v) l
  | Raise e =>
      e = ValueError
      /\ exists item, item ∈ reply /\ PyStr.contains " " item = false
  end.
Proof.
  unfold get_vip_ids.
  destruct (parse_vips reply) as [l|e] eqn:Hl.
  - apply parse_vips_Ok in Hl. split; [|split].
    + apply Forall_forall. intros item Hitem.
      apply list_elem_of_lookup in Hitem as [i Hi].
      destruct (Forall2_lookup_l _ _ _ _ _ Hl Hi) as (v & _ & Hv).
      unfold parse_vip in Hv.
      destruct (PyStr.contains " " item) eqn:Hc; [done|].
      by rewrite (split1_None _ _ Hc) in Hv.
    + rewrite (Permutation_length (sorted_Permutation name_le l)).
      symmetry. by eapply Forall2_length.
    + rewrite (sorted_Permutation name_le l).
      apply Forall_forall. intros v Hv.
      apply list_elem_of_lookup in Hv as [i Hi].
      destruct (Forall2_lookup_r _ _ _ _ _ Hl Hi) as (item & _ & Hitem).
      unfold parse_vip in Hitem.
      destruct (PyStr.split1 " " item) as [[sid nm]|] eqn:Hs; [|done].
      injection Hitem as <-. cbn [steam_id_64 name].
      split; [by eapply split1_first|].
      split; [apply strip_keeps, remove_char_keeps, remove_char_gone|].
      split; [apply strip_keeps, remove_char_gone|apply strip_idem].
  - revert e Hl. induction reply as [|item reply IH]; intros e;
      cbn [parse_vips]; [done|].
    destruct (parse_vip item) as [v|e'] eqn:Hv.
    + destruct (parse_vips reply) as [l|e'] eqn:Hl; [done|].
      intros [= ->]. destruct (IH e eq_refl) as (-> & x & Hx & Hc).
      split; [done|]. exists x. split; [by right|done].
    + intros [= ->]. unfold parse_vip in Hv.
      destruct (PyStr.split1 " " item) as [[sid nm]|] eqn:Hs; [done|].
      injection Hv as <-. split; [done|]. exists item.
      split; [left|].
      destruct (PyStr.contains " " item) eqn:Hc; [|done].
      apply split1_contains in Hc as [? Hc]. congruence.
Qed.

(** ** Lines that are not log lines *)

Lemma parse_loop_skips (representable : N -> bool)
  (timestamp_error : datetime -> option exn) (now : datetime)
  (fa fp : pystr) (lines : list string) (st : acc) :
  Forall (fun line => PyStr.contains "] " line = false) lines ->
  parse_loop representable timestamp_error now fa fp lines st = Ok st.
Proof.
  induction 1 as [|line lines Hline _ IH]; [done|]. cbn [parse_loop].
  destruct line as [|c line]; [done|].
  unfold parse_line. rewrite (split1_None _ _ Hline). done.
Qed.

(** X19: lines without the mark "] " that ends the time of a log line are
    passed over, whatever the filters: a blob made of such lines, the empty
    blob among them, gives no event and no player, and its actions are the
    constant list. *)
Theorem parse_logs_no_log_line (representable : N -> bool)
  (timestamp_error : datetime -> option exn) (now : datetime)
  (blob : string) (filter_action filter_player : pystr) :
  Forall (fun line => PyStr.contains "] " line = false) (log_lines blob) ->
  parse_logs representable timestamp_error now blob filter_action filter_player
  = Ok {| actions := Some <$> LOG_ACTIONS; players := []; logs := [] |}.
Proof.
  intros Hlines. unfold parse_logs. fold (log_lines blob).
  rewrite parse_loop_skips by done.
  cbn [res seen_actions seen_players]. by rewrite elements_empty.
Qed.

Lemma parse_logs_no_log_line_witness :
  parse_logs utc_platform utc_timestamp 0
    ("Connection lost" +:+ String PyStr.LF "retry")
    (Some "KILL") None
  = Ok {| actions := Some <$> LOG_ACTIONS; players := []; logs := [] |}.
Proof.
  apply (parse_logs_no_log_line utc_platform utc_timestamp 0
           ("Connection lost" +:+ String PyStr.LF "retry") (Some "KILL") None).
  by apply (bool_decide_unpack _).
Defined.

(** ** Connection lines *)

Section BorderFacts.
Import PyStr.

Lemma length_skip (d : nat) (s : string) :
  String.length (skip d s) = String.length s - d.
Proof.
  revert s. induction d as [|d IH]; intros [|c s]; cbn [skip]; done.
Qed.

(** a border-free separator put after a text that holds none is found
    there by [split1] *)
Lemma split1_border_free (sep a b : string) :
  sep <> "" -> border_free sep = true -> contains sep a = false ->
  split1 sep (a +:+ sep +:+ b) = Some (a, b).
Proof.
  intros Hsep Hfree. induction a as [|c a IH]; intros Ha.
  - change ("" +:+ sep +:+ b) with (sep +:+ b).
    destruct sep as [|x sep]; [done|]. rewrite app_String.
    cbn [split1]. rewrite <- app_String, prefix_app_l.
    by rewrite skip_app.
  - cbn [contains] in Ha. apply orb_false_iff in Ha as [Hp Hc].
    rewrite app_String. cbn [split1]. rewrite <- app_String.
    destruct (String.prefix sep (String c a +:+ sep +:+ b)) eqn:Hpre.
    + exfalso.
      destruct (decide (String.length sep <= String.length (String c a)))
        as [Hle|Hgt].
      * by rewrite (prefix_app_inv _ _ _ Hpre Hle) in Hp.
      * apply (prefix_skip_mono (String.length (String c a))) in Hpre.
        rewrite skip_app in Hpre.
        apply prefix_app_inv in Hpre; [|rewrite length_skip; lia].
        unfold border_free in Hfree. rewrite forallb_forall in Hfree.
        specialize (Hfree (String.length (String c a))).
        rewrite Hpre in Hfree. cbn [negb] in Hfree.
        assert (true = false -> False) as Hne by done. apply Hne.
        symmetry. apply Hfree. apply in_seq. simpl in *. lia.
    + by rewrite IH.
Qed.

End BorderFacts.

(** X20: a line made of a time field, the mark "] ", one of the words
    CONNECTED and DISCONNECTED, a space and a name is read as that action
    by that player, whatever the name holds: the name is both the player
    and the message, and the other fields are left empty. *)
Theorem parse_line_connection (representable : N -> bool)
  (field kw nm : string) (t : datetime) :
  kw = "CONNECTED" \/ kw = "DISCONNECTED" ->
  PyStr.contains "] " field = false ->
  _extract_time representable (PyStr.skip 1 field) = Some t ->
  parse_line representable (field +:+ "] " +:+ kw +:+ " " +:+ nm)
  = Some (t, kw +:+ " " +:+ nm,
          {| v_action := Some kw; v_player := Some nm; v_player2 := None;
             v_weapon := None; v_steam_id_64_1 := None;
             v_steam_id_64_2 := None; v_content := nm;
             v_sub_content := None |}).
Proof.
  intros Hkw Hfield Htime. unfold parse_line.
  rewrite split1_border_free by done.
  cbn [mbind option_bind]. rewrite Htime. cbn [mbind option_bind].
  unfold dispatch, PyStr.startswith.
  assert (forall w, PyStr.contains " " w = false ->
                    PyStr.split1 " " (w +:+ " " +:+ nm) = Some (w, nm))
    as Hsplit by (intros w Hw; by apply (split1_char " " w nm)).
  destruct Hkw as [-> | ->].
  - rewrite (prefix_app_l "CONNECTED"), orb_true_r.
    rewrite Hsplit by done. vm_compute. reflexivity.
  - rewrite (prefix_app_l "DISCONNECTED"). cbn [orb].
    rewrite Hsplit by done. vm_compute. reflexivity.
Qed.

Lemma parse_line_connection_witness :
  parse_line utc_platform
    ("[15:49 min (1606998428)" +:+ "] " +:+ "CONNECTED" +:+ " "
     +:+ "T17 Scott [x] ")
  = Some (1606998428000000%Z, "CONNECTED" +:+ " " +:+ "T17 Scott [x] ",
          {| v_action := Some "CONNECTED"; v_player := Some "T17 Scott [x] ";
             v_player2 := None; v_weapon := None; v_steam_id_64_1 := None;
             v_steam_id_64_2 := None; v_content := "T17 Scott [x] ";
             v_sub_content := None |}).
Proof.
  apply (parse_line_connection utc_platform "[15:49 min (1606998428)"
           "CONNECTED" "T17 Scott [x] " 1606998428000000%Z).
  - by left.
  - reflexivity.
  - vm_compute. reflexivity.
Defined.

(** ** The team kill board *)

Section TeamkillFacts.
Context {float : Type}.
Variable fdiv : nat -> nat -> float.
Variable fle : float -> float -> bool.
Variable fmt2 : float -> string.

(** what the inner loop leaves in its variables *)
Lemma tk_scan (p : string) (events : list event) :
  let c := foldl (tk_step p) tk_start events in
  tk c = length (filter (fun e => action e = Some "TEAM KILL"
                                  /\ player e = Some p) events)
  /\ death_by_tk c
     = length (filter (fun e => action e = Some "TEAM KILL"
                                /\ player e <> Some p
                                /\ player2 e = Some p) events)
  /\ (forall e, e ∈ events -> involves p e ->
        (exists f, first_timestamp c = Some f /\ (f <= timestamp_ms e)%Z)
        /\ (timestamp_ms e <= last_timestamp c)%Z)
  /\ (forall f, first_timestamp c = Some f ->
        exists e, e ∈ events /\ involves p e /\ timestamp_ms e = f)
  /\ (0 <= last_timestamp c)%Z
  /\ (last_timestamp c = 0%Z
      \/ exists e, e ∈ events /\ involves p e
                   /\ timestamp_ms e = last_timestamp c).
Proof.
  induction events as [|x events IH] using rev_ind.
  - cbn. split; [done|]. split; [done|].
    split; [by intros e ?%elem_of_nil|]. split; [done|].
    split; [done|by left].
  - cbn zeta in *. rewrite foldl_app. cbn [foldl].
    destruct IH as (Htk & Hd & Hin & Hfirst & Hpos & Hlast).
    set (c := foldl (tk_step p) tk_start events) in *.
    rewrite !filter_app, !length_app, !filter_cons, !filter_nil.
    assert (first_timestamp (tk_step p c x)
            = if bool_decide (player x = Some p)
                 || bool_decide (player2 x = Some p)
              then Some (match first_timestamp c with
                         | Some f => Z.min (timestamp_ms x) f
                         | None => timestamp_ms x
                         end)
              else first_timestamp c) as Hf'.
    { unfold tk_step. by repeat case_bool_decide. }
    assert (last_timestamp (tk_step p c x)
            = if bool_decide (player x = Some p)
                 || bool_decide (player2 x = Some p)
              then Z.max (timestamp_ms x) (last_timestamp c)
              else last_timestamp c) as Hl'.
    { unfold tk_step. by repeat case_bool_decide. }
    assert (bool_decide (player x = Some p)
            || bool_decide (player2 x = Some p) = true
            <-> involves p x) as Hinv.
    { rewrite orb_true_iff, !bool_decide_eq_true. done. }
    split; [|split].
    + unfold tk_step. rewrite <- Htk.
      repeat case_bool_decide;
        repeat (first [rewrite decide_True by tauto
                      |rewrite decide_False by tauto]);
        cbn [tk length]; lia.
    + unfold tk_step. rewrite <- Hd.
      repeat case_bool_decide;
        repeat (first [rewrite decide_True by tauto
                      |rewrite decide_False by tauto]);
        cbn [death_by_tk length]; lia.
    + rewrite Hf', Hl'. destruct (decide (involves p x)) as [Hx|Hnot].
      * rewrite (proj2 Hinv Hx). split; [|split; [|split]].
        -- intros e [He|He]%elem_of_app Hp.
           ++ destruct (Hin e He Hp) as ((f & Hf & Hle) & Hle').
              rewrite Hf. split; [|lia]. eexists. split; [done|]. lia.
           ++ apply list_elem_of_singleton in He as ->.
              split; [|lia]. eexists. split; [done|].
              destruct (first_timestamp c); lia.
        -- intros f [= <-].
           destruct (first_timestamp c) as [f|] eqn:Hf.
           ++ destruct (Z.min_spec (timestamp_ms x) f) as [[_ ->]|[_ ->]].
              ** exists x. split; [|done]. apply elem_of_app. right. left.
              ** destruct (Hfirst f eq_refl) as (e & He & Hp & Hts).
                 exists e. split; [|done]. apply elem_of_app. by left.
           ++ exists x. split; [|done]. apply elem_of_app. right. left.
        -- lia.
        -- destruct (Z.max_spec (timestamp_ms x) (last_timestamp c))
             as [[_ ->]|[_ ->]].
           ++ destruct Hlast as [Hz|(e & He & Hp & Hts)]; [by left|].
              right. exists e. split; [|done]. apply elem_of_app. by left.
           ++ right. exists x. split; [|done]. apply elem_of_app.
              right. left.
      * assert (bool_decide (player x = Some p)
                || bool_decide (player2 x = Some p) = false) as ->.
        { apply not_true_iff_false. intros Hp. by apply Hnot, Hinv. }
        split; [|split; [|split]].
        -- intros e [He|He]%elem_of_app Hp; [by apply Hin|].
           by apply list_elem_of_singleton in He as ->.
        -- intros f Hf. destruct (Hfirst f Hf) as (e & He & Hp & Hts).
           exists e. split; [|done]. apply elem_of_app. by left.
        -- done.
        -- destruct Hlast as [Hz|(e & He & Hp & Hts)]; [by left|].
           right. exists e. split; [|done]. apply elem_of_app. by left.
Qed.

Lemma filter_length_pos {B : Type} (P : B -> Prop)
  `{!forall x, Decision (P x)} (l : list B) :
  length (filter P l) <> 0 -> exists x, x ∈ l /\ P x.
Proof.
  destruct (filter P l) as [|x l'] eqn:Hf; [done|]. intros _.
  assert (x ∈ filter P l) as [HP Hx]%list_elem_of_filter
    by (rewrite Hf; left).
  by exists x.
Qed.

Lemma tk_board_ok (names : list pystr) (events : list event) :
  Forall (fun e => (0 <= timestamp_ms e)%Z) events ->
  exists l,
    tk_board float fdiv names events = Some l
    /\ Forall (fun o =>
                 tk_row_ok events (format_tk_row float fmt2 o)
                 /\ tk_minutes o
                    = fdiv (teamkills o)
                        (Z.to_nat (Z.max (play_time o) 1))) l.
Proof.
  intros Hpos. induction names as [|n names (l & Hl & Hok)];
    [by exists []|].
  cbn [tk_board]. destruct n as [[|x p]|]; [by exists l| |by exists l].
  set (q := String x p). set (c := foldl (tk_step q) tk_start events).
  destruct ((tk c =? 0) && (death_by_tk c =? 0)) eqn:Hz; [by exists l|].
  apply andb_false_iff in Hz.
  destruct (tk_scan q events) as (Htk & Hd & Hin & Hfirst & Hlpos & Hlast).
  fold c in Htk, Hd, Hin, Hfirst, Hlpos, Hlast.
  assert (exists e, e ∈ events /\ involves q e) as (e & He & Hq).
  { destruct Hz as [Hz|Hz]; apply Nat.eqb_neq in Hz.
    - rewrite Htk in Hz. apply filter_length_pos in Hz as (e & He & _ & Hp).
      exists e. split; [done|by left].
    - rewrite Hd in Hz.
      apply filter_length_pos in Hz as (e & He & _ & _ & Hp).
      exists e. split; [done|by right]. }
  destruct (Hin e He Hq) as ((f & Hf & Hfe) & Hel).
  unfold tk_entry. fold c. rewrite Hf, Hl.
  eexists. split; [done|]. constructor; [|done]. split; [|done].
  unfold tk_row_ok.
  cbn [format_tk_row tk_row_player tk_row_teamkills tk_row_death
         tk_row_play_time tk_player teamkills death_by_teamkill play_time].
  split; [done|]. split; [done|]. split.
  { intros [H1 H2]. destruct Hz as [Hz|Hz]; apply Nat.eqb_neq in Hz; lia. }
  destruct (Hfirst f Hf) as (e1 & He1 & Hq1 & Hts1).
  assert (exists e2, e2 ∈ events /\ involves q e2
                     /\ timestamp_ms e2 = last_timestamp c)
    as (e2 & He2 & Hq2 & Hts2).
  { destruct Hlast as [Hzero|H]; [|done]. exists e.
    split; [done|]. split; [done|].
    rewrite Forall_forall in Hpos. specialize (Hpos e He).
    cbn beta in Hpos. lia. }
  exists e1, e2. repeat (split; [done|]). split.
  - intros e' He' Hq'.
    destruct (Hin e' He' Hq') as ((f' & Hf' & Hfe') & Hel').
    assert (f' = f) as -> by congruence. lia.
  - rewrite Hts1, Hts2. rewrite Z.div_div by lia. done.
Qed.

(** X21: on the batch of a call of [parse_logs], the team kill board is
    made of numbers: the first time a player is seen is never left at the
    infinity it starts from.  Each row counts the team kills by its player
    and the team kills of its player by another, not both zero; its play
    time is the whole minutes between the first and the last event that
    involve the player, and its rate the team kills per minute of play,
    counted over one minute at least, to two decimals.  A sort key that is
    none of the five keys of a row raises [KeyError], unless the board is
    empty, and a key that is one of them never does. *)
Theorem get_teamkills_boards_rows (representable : N -> bool)
  (timestamp_error : datetime -> option exn)
  (now : datetime) (blob : string) (filter_action filter_player : pystr)
  (batch : LogBatch) (sort : string) :
  parse_logs representable timestamp_error now blob filter_action filter_player
    = Ok batch ->
  match get_teamkills_boards float fdiv fle fmt2 batch sort with
  | Some (Ok rows) =>
      Forall (fun o =>
                tk_row_ok (logs batch) o
                /\ tk_row_minutes o
                   = fmt2 (fdiv (tk_row_teamkills o)
                             (Z.to_nat (Z.max (tk_row_play_time o) 1)))) rows
      /\ (sort ∈ ["player"; "Teamkills"; "Death by TK";
                  "Estimated play time (minutes)"; "TK Minutes"]
          \/ rows = [])
  | Some (Raise e) =>
      e = KeyError /\ tk_key_le float fle sort = None
      /\ (sort ∉ ["player"; "Teamkills"; "Death by TK";
                  "Estimated play time (minutes)"; "TK Minutes"])
      /\ exists o l,
           tk_board float fdiv (players batch) (logs batch) = Some (o :: l)
  | None => False
  end.
Proof.
  intros Hbatch.
  assert (Forall (fun e => (0 <= timestamp_ms e)%Z) (logs batch)) as Hpos.
  { apply Forall_forall. intros e He.
    destruct (parse_logs_events _ _ _ _ _ _ _ e Hbatch He)
      as ((field & n & _ & _ & ->) & _). lia. }
  destruct (tk_board_ok (players batch) (logs batch) Hpos) as (l & Hl & Hok).
  unfold get_teamkills_boards. rewrite Hl.
  destruct l as [|o l]; [split; [done|by right]|].
  assert (forall k,
             k ∈ ["player"; "Teamkills"; "Death by TK";
                  "Estimated play time (minutes)"; "TK Minutes"]
             <-> k = "player" \/ k = "Teamkills" \/ k = "Death by TK"
                 \/ k = "Estimated play time (minutes)"
                 \/ k = "TK Minutes") as Hkeys.
  { intros k. rewrite !elem_of_cons, elem_of_nil. tauto. }
  destruct (tk_key_le float fle sort) as [le|] eqn:Hle.
  - split.
    + apply Forall_fmap. rewrite sorted_Permutation.
      eapply Forall_impl; [exact Hok|].
      intros o' [H1 H2]. split; [done|].
      cbn [format_tk_row tk_row_minutes tk_row_teamkills tk_row_play_time].
      by rewrite H2.
    + left. apply Hkeys. unfold tk_key_le in Hle.
      repeat case_bool_decide; try discriminate; tauto.
  - split; [done|]. split; [done|]. split; [|by eauto].
    intros Hin%Hkeys. unfold tk_key_le in Hle.
    repeat case_bool_decide; try discriminate; tauto.
Qed.

End TeamkillFacts.

Lemma get_teamkills_boards_rows_witness :
  exists batch,
    parse_logs utc_platform utc_timestamp 0 sample_teamkill None None = Ok batch
    /\ match get_teamkills_boards Q q_div Qle_bool q_fmt2 batch
               "TK Minutes" with
       | Some (Ok rows) =>
           (fun o => (tk_row_player o, tk_row_teamkills o, tk_row_death o,
                      tk_row_play_time o, tk_row_minutes o)) <$> rows
           = [("Alice", 1, 0, 10%Z, "0.10"); ("Bob", 0, 1, 0%Z, "0.00")]
           /\ Forall (fun o =>
                        tk_row_ok (logs batch) o
                        /\ tk_row_minutes o
                           = q_fmt2 (q_div (tk_row_teamkills o)
                                       (Z.to_nat
                                          (Z.max (tk_row_play_time o) 1))))
                     rows
       | _ => False
       end.
Proof.
  eexists. split; [vm_compute; reflexivity|].
  match goal with
  | |- match get_teamkills_boards _ _ _ _ ?b ?k with _ => _ end =>
      pose proof (get_teamkills_boards_rows q_div Qle_bool q_fmt2
                    utc_platform utc_timestamp 0 sample_teamkill None None b k
                    ltac:(vm_compute; reflexivity)) as H
  end.
  destruct (get_teamkills_boards _ _ _ _ _ _) as [[rows|e]|] eqn:Hrows;
    [|by vm_compute in Hrows|done].
  split; [|exact (proj1 H)].
  vm_compute in Hrows. by injection Hrows as <-.
Defined.

(** ** The slots *)

Module ReShapesFacts.
Import Re ReShape.

Lemma star_runs_sound (p : ascii -> bool) (s a b : string) :
  In (a, b) (star_runs p s) -> s = a +:+ b.
Proof.
  revert a b. induction s as [|c s IH]; intros a b; cbn [star_runs].
  - by intros [[= <- <-]|[]].
  - destruct (p c).
    + intros [H|[[= <- <-]|[]]]%in_app_iff; [|done].
      apply in_map_iff in H as ([a' b'] & [= <- <-] & H).
      rewrite app_String. f_equal. by apply IH.
    + by intros [[= <- <-]|[]].
Qed.

(** what a match consumes and what it leaves make up the text *)
Lemma run_sound (r : regex) :
  forall s caps a caps' s',
    In (a, caps', s') (run r s caps) -> s = a +:+ s'.
Proof.
  induction r as [l|c|c|c|r1 IH1 r2 IH2|r1 IH1 r2 IH2|n r IH];
    intros s caps a caps' s'; cbn [run].
  - destruct (String.prefix l s) eqn:Hp; simpl; [|done].
    intros [[= <- _ <-]|[]]. by apply prefix_skip.
  - destruct s as [|x s]; [done|]. destruct (cls_test c x); simpl; [|done].
    by intros [[= <- _ <-]|[]].
  - intros ([a0 b0] & [= <- _ <-] & H)%in_map_iff.
    by apply star_runs_sound in H.
  - intros ([a0 b0] & [= <- _ <-] & H)%in_map_iff.
    apply list_elem_of_In, list_elem_of_filter in H as [_ H].
    apply list_elem_of_In in H. by apply star_runs_sound in H.
  - intros ([[a1 caps1] s1] & H1 & H2)%in_flat_map.
    apply in_map_iff in H2 as ([[a2 caps2] s2] & [= <- _ <-] & H2).
    rewrite app_assoc_String.
    rewrite (IH1 _ _ _ _ _ H1). f_equal. by eapply IH2.
  - intros [H|H]%in_app_iff; [by eapply IH1|by eapply IH2].
  - intros ([[a0 caps0] s0] & [= <- _ <-] & H)%in_map_iff. by eapply IH.
Qed.

Lemma fits_Lit_inv (l a : string) :
  fits (Char <$> list_ascii_of_string l) a = true -> a = l.
Proof.
  revert a. induction l as [|c l IH]; intros [|x a]; cbn; try done.
  intros [Hc Ha]%andb_true_iff. apply Ascii.eqb_eq in Hc as ->.
  f_equal. by apply IH.
Qed.

Lemma fits_app_inv (sh1 sh2 : list pos) (a : string) :
  fits (sh1 ++ sh2) a = true ->
  exists a1 a2, a = a1 +:+ a2 /\ fits sh1 a1 = true /\ fits sh2 a2 = true.
Proof.
  revert a. induction sh1 as [|p sh1 IH]; intros a.
  - intros H. by exists "", a.
  - destruct a as [|x a]; [done|]. cbn [app fits].
    intros [Hp (a1 & a2 & -> & H1 & H2)%IH]%andb_true_iff.
    exists (String x a1), a2. cbn [fits]. by rewrite Hp, H1.
Qed.

(** a match of a pattern without repetition has one of its shapes *)
Lemma run_shapes (r : regex) :
  star_free r = true ->
  forall s caps a caps' s',
    In (a, caps', s') (run r s caps) ->
    exists sh, sh ∈ shapes r /\ fits sh a = true.
Proof.
  induction r as [l|c|c|c|r1 IH1 r2 IH2|r1 IH1 r2 IH2|n r IH];
    intros Hfree s caps a caps' s'; cbn [run shapes star_free] in *;
    try discriminate.
  - destruct (String.prefix l s); simpl; [|done].
    intros [[= <- _ _]|[]]. eexists. split; [left|apply ReShapeFacts.fits_Lit].
  - destruct s as [|x s]; [done|].
    destruct (cls_test c x) eqn:Hx; simpl; [|done].
    intros [[= <- _ _]|[]]. eexists. split; [left|]. cbn. by rewrite Hx.
  - apply andb_true_iff in Hfree as [Hf1 Hf2].
    intros ([[a1 caps1] s1] & H1 & H2)%in_flat_map.
    apply in_map_iff in H2 as ([[a2 caps2] s2] & [= <- _ _] & H2).
    destruct (IH1 Hf1 _ _ _ _ _ H1) as (sh1 & Hsh1 & Hfit1).
    destruct (IH2 Hf2 _ _ _ _ _ H2) as (sh2 & Hsh2 & Hfit2).
    exists (sh1 ++ sh2). split; [|by apply ReShapeFacts.fits_app].
    apply list_elem_of_bind. exists sh1. split; [|done].
    apply list_elem_of_bind. exists sh2. split; [left|done].
  - apply andb_true_iff in Hfree as [Hf1 Hf2].
    intros [H|H]%in_app_iff.
    + destruct (IH1 Hf1 _ _ _ _ _ H) as (sh & Hsh & Hfit).
      exists sh. split; [|done]. apply elem_of_app. by left.
    + destruct (IH2 Hf2 _ _ _ _ _ H) as (sh & Hsh & Hfit).
      exists sh. split; [|done]. apply elem_of_app. by right.
  - intros ([[a0 caps0] s0] & [= <- _ _] & H)%in_map_iff. by eapply IH.
Qed.

(** and a text of one of its shapes is matched, whatever follows it *)
Lemma run_complete (r : regex) :
  forall sh a t caps,
    sh ∈ shapes r -> fits sh a = true ->
    exists caps', In (a, caps', t) (run r (a +:+ t) caps).
Proof.
  induction r as [l|c|c|c|r1 IH1 r2 IH2|r1 IH1 r2 IH2|n r IH];
    intros sh a t caps; cbn [run shapes].
  - intros ->%list_elem_of_singleton ->%fits_Lit_inv.
    rewrite prefix_app_l, skip_app. exists caps. by left.
  - intros ->%list_elem_of_singleton Hfit.
    destruct a as [|x [|y a]]; try done.
    + cbn in Hfit. rewrite app_String. cbn [run].
      apply andb_true_iff in Hfit as [-> _]. exists caps. by left.
    + cbn in Hfit. by apply andb_true_iff in Hfit as [_ Hfit].
  - by intros ?%elem_of_nil.
  - by intros ?%elem_of_nil.
  - intros (sh1 & Hin & Hsh1)%list_elem_of_bind.
    apply list_elem_of_bind in Hin as (sh2 & ->%list_elem_of_singleton & Hsh2).
    intros (a1 & a2 & -> & Hfit1 & Hfit2)%fits_app_inv.
    destruct (IH1 sh1 a1 (a2 +:+ t) caps Hsh1 Hfit1) as (caps1 & H1).
    destruct (IH2 sh2 a2 t caps1 Hsh2 Hfit2) as (caps2 & H2).
    exists caps2. rewrite app_assoc_String. apply in_flat_map.
    exists (a1, caps1, a2 +:+ t). split; [done|].
    apply in_map_iff. by exists (a2, caps2, t).
  - intros [Hsh|Hsh]%elem_of_app Hfit.
    + destruct (IH1 sh a t caps Hsh Hfit) as (caps' & H).
      exists caps'. apply in_app_iff. by left.
    + destruct (IH2 sh a t caps Hsh Hfit) as (caps' & H).
      exists caps'. apply in_app_iff. by right.
  - intros Hsh Hfit. destruct (IH sh a t caps Hsh Hfit) as (caps' & H).
    eexists. apply in_map_iff. by exists (a, caps', t).
Qed.

End ReShapesFacts.

Section SlotsFacts.
Import Re ReShape.

Lemma fits_digits (s : string) :
  all_digits s = true -> fits (replicate (String.length s) (Class Digit)) s = true.
Proof.
  induction s as [|c s IH]; [done|]. cbn.
  intros [-> Hs]%andb_true_iff. by apply IH.
Qed.

Lemma all_digits_without (c : ascii) (s : string) :
  PyStr.isdigit c = false -> all_digits s = true ->
  PyStr.contains (String c "") s = false.
Proof.
  intros Hc. induction s as [|d s IH]; [done|]. cbn [all_digits PyStr.contains].
  intros [Hd Hs]%andb_true_iff. rewrite prefix_char, IH by done.
  rewrite bool_decide_false; [done|]. intros ->. congruence.
Qed.

Lemma player_count_digits (a x : string) :
  all_digits a = true -> player_count (a +:+ "/" +:+ x) = a.
Proof.
  intros Ha. unfold player_count, first_part.
  change (a +:+ "/" +:+ x) with (a +:+ String "/" x).
  rewrite split1_char; [done|]. by apply all_digits_without.
Qed.

Lemma fits_digits_inv (n : nat) (s : string) :
  fits (replicate n (Class Digit)) s = true ->
  all_digits s = true /\ String.length s = n.
Proof.
  revert s. induction n as [|n IH]; intros [|c s]; cbn; try done.
  intros [-> [Hs <-]%IH]%andb_true_iff. by rewrite Hs.
Qed.

(** the shapes of the pattern of the slots: one to three digits, a slash,
    two or three digits *)
Lemma slots_shapes (sh : list pos) :
  sh ∈ shapes SlotPatterns.slots_regexp
  <-> exists n m,
        sh = replicate n (Class Digit) ++ [Char "/"]
             ++ replicate m (Class Digit)
        /\ 1 <= n <= 3 /\ 2 <= m <= 3.
Proof.
  split.
  - intros Hsh. vm_compute in Hsh.
    repeat (apply elem_of_cons in Hsh as [->|Hsh]);
      [..|by apply elem_of_nil in Hsh];
      first [ exists 1, 2; split; [reflexivity|lia]
            | exists 1, 3; split; [reflexivity|lia]
            | exists 2, 2; split; [reflexivity|lia]
            | exists 2, 3; split; [reflexivity|lia]
            | exists 3, 2; split; [reflexivity|lia]
            | exists 3, 3; split; [reflexivity|lia] ].
  - intros (n & m & -> & Hn & Hm).
    assert (n = 1 \/ n = 2 \/ n = 3) as [->|[->| ->]] by lia;
      assert (m = 2 \/ m = 3) as [->| ->] by lia; in_list.
Qed.

Lemma at_end_cases (t : string) :
  at_end t = true <-> t = "" \/ t = String PyStr.LF "".
Proof.
  unfold at_end. by rewrite orb_true_iff, !bool_decide_eq_true.
Qed.

(** X22: [get_slots] lets a reply through when it is one to three digits,
    a slash and two or three digits, alone or followed by one line feed,
    and raises [CommandFailedError] for any other reply.  The player count
    of the status is then the digits before the slash. *)
Theorem get_slots_accepts (reply : string) :
  match get_slots reply with
  | Ok res =>
      res = reply
      /\ exists a b t,
           reply = a +:+ "/" +:+ b +:+ t /\ slots_text a b t
           /\ player_count res = a
  | Raise e =>
      e = CommandFailedError "Server returned crap"
      /\ ~ exists a b t, reply = a +:+ "/" +:+ b +:+ t /\ slots_text a b t
  end.
Proof.
  unfold get_slots. destruct (slots_match reply) eqn:Hm.
  - split; [done|]. unfold slots_match in Hm.
    apply existsb_exists in Hm as ([[a0 caps] t] & Hin & Hend).
    cbn [snd] in Hend. apply at_end_cases in Hend.
    pose proof (ReShapesFacts.run_sound _ _ _ _ _ _ Hin) as ->.
    destruct (ReShapesFacts.run_shapes SlotPatterns.slots_regexp eq_refl
                _ _ _ _ _ Hin) as (sh & Hsh & Hfit).
    apply slots_shapes in Hsh as (n & m & -> & Hn & Hm).
    apply ReShapesFacts.fits_app_inv in Hfit as (a & x & -> & Ha & Hx).
    apply (ReShapesFacts.fits_app_inv [Char "/"]) in Hx
      as (y & b & -> & Hy & Hb).
    apply (ReShapesFacts.fits_Lit_inv "/") in Hy as ->.
    apply fits_digits_inv in Ha as [Ha <-], Hb as [Hb <-].
    exists a, b, t. rewrite !app_assoc_String.
    split; [done|]. split; [done|]. by apply player_count_digits.
  - split; [done|]. intros (a & b & t & -> & Ha & Hla & Hb & Hlb & Ht).
    apply not_true_iff_false in Hm. apply Hm. unfold slots_match.
    apply existsb_exists.
    destruct (ReShapesFacts.run_complete SlotPatterns.slots_regexp
                (replicate (String.length a) (Class Digit) ++ [Char "/"]
                 ++ replicate (String.length b) (Class Digit))
                (a +:+ "/" +:+ b) t []) as (caps & Hin).
    + apply slots_shapes. by eexists _, _.
    + apply ReShapeFacts.fits_app; [by apply fits_digits|].
      apply (ReShapeFacts.fits_app [Char "/"] _ "/"); [done|].
      by apply fits_digits.
    + exists (a +:+ "/" +:+ b, caps, t). rewrite !app_assoc_String in Hin.
      split; [done|]. by apply at_end_cases.
Qed.

End SlotsFacts.

(** ** The map rotation: an instance of convergence *)

Lemma set_maprotation_converges_witness :
  exists ops,
    set_maprotation ["A"; "B"] ["B"; "C"; "A"]
    = Ok (["B"; "C"; "A"], ops)
    /\ apply_ops ["A"; "B"] ops = ["B"; "C"; "A"].
Proof.
  eexists. split; [reflexivity|].
  eapply proj1.
  apply (set_maprotation_converges ["A"; "B"] ["B"; "C"; "A"]
           ["B"; "C"; "A"]).
  - by apply (bool_decide_unpack _).
  - by apply (bool_decide_unpack _).
  - intros c [=].
  - reflexivity.
Defined.

(** ** The first match of a pattern *)

Module ReFirstFacts.
Import Re ReFirst.

Lemma contains_app_l (l a b : string) :
  PyStr.contains l a = true -> PyStr.contains l (a +:+ b) = true.
Proof.
  induction a as [|c a IH]; cbn [PyStr.contains].
  - rewrite orb_false_r. intros H. destruct l; [|done]. by destruct b.
  - intros [H|H]%orb_true_iff; rewrite app_String; cbn [PyStr.contains].
    + rewrite <- app_String, (prefix_app _ _ _ H). done.
    + rewrite (IH H). apply orb_true_r.
Qed.

Lemma contains_app_r (l a b : string) :
  PyStr.contains l b = true -> PyStr.contains l (a +:+ b) = true.
Proof.
  intros H. induction a as [|c a IH]; [done|].
  rewrite app_String. cbn [PyStr.contains]. rewrite IH. apply orb_true_r.
Qed.

Lemma contains_refl (l : string) : PyStr.contains l l = true.
Proof. destruct l; cbn [PyStr.contains]; by rewrite prefix_refl. Qed.

(** a literal that every match passes over is in the text matched *)
Lemma run_has_lit (r : regex) (l : string) :
  has_lit r l = true ->
  forall s caps a caps' s',
    In (a, caps', s') (run r s caps) -> PyStr.contains l a = true.
Proof.
  induction r as [l'|c|c|c|r1 IH1 r2 IH2|r1 IH1 r2 IH2|n r IH];
    intros Hl s caps a caps' s'; cbn [run has_lit] in *; try discriminate.
  - apply bool_decide_eq_true in Hl as ->.
    destruct (String.prefix l s); simpl; [|done].
    intros [[= <- _ _]|[]]. apply contains_refl.
  - intros ([[a1 caps1] s1] & H1 & H2)%in_flat_map.
    apply in_map_iff in H2 as ([[a2 caps2] s2] & [= <- _ _] & H2).
    apply orb_true_iff in Hl as [Hl|Hl].
    + apply contains_app_l. by eapply IH1.
    + apply contains_app_r. by eapply IH2.
  - apply andb_true_iff in Hl as [Hl1 Hl2].
    intros [H|H]%in_app_iff; [by eapply IH1|by eapply IH2].
  - intros ([[a0 caps0] s0] & [= <- _ _] & H)%in_map_iff. by eapply IH.
Qed.

(** a pattern finds no match in a text that lacks one of its literals *)
Lemma run_lacks_lit (r : regex) (l s : string) (caps : captures) :
  has_lit r l = true -> PyStr.contains l s = false -> run r s caps = [].
Proof.
  intros Hl Hs. destruct (run r s caps) as [|[[a caps'] s'] os] eqn:Hrun;
    [done|].
  assert (In (a, caps', s') (run r s caps)) as Hin by (rewrite Hrun; by left).
  pose proof (ReShapesFacts.run_sound _ _ _ _ _ _ Hin) as ->.
  apply (run_has_lit _ _ Hl) in Hin.
  by rewrite (contains_app_l _ _ _ Hin) in Hs.
Qed.

Lemma run_Lit_app (l s : string) (caps : captures) :
  run (Lit l) (l +:+ s) caps = [(l, caps, s)].
Proof. cbn [run]. by rewrite prefix_app_l, skip_app. Qed.

Lemma first_Lit (l s : string) (caps : captures) :
  first_outcome (Lit l) (l +:+ s) caps = Some (l, caps, s).
Proof. unfold first_outcome. by rewrite run_Lit_app. Qed.

Lemma first_Seq (r1 r2 : regex) (s s1 s2 a1 a2 : string)
  (caps caps1 caps2 : captures) :
  first_outcome r1 s caps = Some (a1, caps1, s1) ->
  first_outcome r2 s1 caps1 = Some (a2, caps2, s2) ->
  first_outcome (Seq r1 r2) s caps = Some (a1 +:+ a2, caps2, s2).
Proof.
  unfold first_outcome. cbn [run].
  destruct (run r1 s caps) as [|o1 os1]; [done|]. intros [= ->].
  cbn [flat_map].
  destruct (run r2 s1 caps1) as [|o2 os2]; [done|]. by intros [= ->].
Qed.

Lemma first_Grp (n : nat) (r : regex) (s s' a : string)
  (caps caps' : captures) :
  first_outcome r s caps = Some (a, caps', s') ->
  first_outcome (Grp n r) s caps = Some (a, <[n := Some a]> caps', s').
Proof.
  unfold first_outcome. cbn [run].
  destruct (run r s caps) as [|o os]; [done|]. by intros [= ->].
Qed.

Lemma first_Alt_l (r1 r2 : regex) (s : string) (caps : captures)
  (o : outcome) :
  first_outcome r1 s caps = Some o ->
  first_outcome (Alt r1 r2) s caps = Some o.
Proof.
  unfold first_outcome. cbn [run].
  destruct (run r1 s caps) as [|o1 os1]; [done|]. by intros [= ->].
Qed.

Lemma first_Alt_r (r1 r2 : regex) (s : string) (caps : captures)
  (o : outcome) :
  run r1 s caps = [] ->
  first_outcome r2 s caps = Some o ->
  first_outcome (Alt r1 r2) s caps = Some o.
Proof. unfold first_outcome. cbn [run]. by intros ->. Qed.

(** the runs of a class over a text that begins with characters of the
    class: the longest ones first go on into the rest of the text *)
Lemma star_runs_app (p : ascii -> bool) (a s : string) :
  (forall c, In c (list_ascii_of_string a) -> p c = true) ->
  exists shorter,
    star_runs p (a +:+ s)
    = map (fun '(x, y) => (a +:+ x, y)) (star_runs p s) ++ shorter.
Proof.
  induction a as [|c a IH]; intros Ha.
  - exists []. rewrite app_nil_r. change ("" +:+ s) with s.
    induction (star_runs p s) as [|[x y] l IHl]; [done|].
    cbn [map]. by rewrite <- IHl.
  - destruct IH as [shorter IH]; [intros d Hd; apply Ha; by right|].
    rewrite app_String. cbn [star_runs].
    rewrite Ha by (by left). rewrite IH, map_app, map_map.
    eexists. rewrite <- app_assoc. f_equal.
    apply map_ext. by intros [x y].
Qed.

(** the last of the runs is the empty one; the others are not empty *)
Lemma star_runs_last (p : ascii -> bool) (s : string) :
  exists longer,
    star_runs p s = longer ++ [("", s)]
    /\ Forall (fun x => fst x <> "") longer.
Proof.
  destruct s as [|c s]; [by exists []|]. cbn [star_runs].
  destruct (p c); [|by exists []].
  eexists. split; [done|]. apply Forall_forall.
  intros [x y] Hin. apply list_elem_of_In, in_map_iff in Hin
    as ([x' y'] & [= <- <-] & _). done.
Qed.

Lemma one_line_chars (a : string) :
  one_line a = true ->
  forall c, In c (list_ascii_of_string a) -> cls_test Dot c = true.
Proof.
  induction a as [|d a IH]; [done|]. cbn.
  intros [Hd Ha]%andb_true_iff c [<-|Hc]; [done|]. by apply IH.
Qed.

Lemma flat_map_nil {A B : Type} (f : A -> list B) (l : list A) :
  Forall (fun x => f x = []) l -> flat_map f l = [].
Proof.
  induction 1 as [|x l Hx _ IH]; [done|]. cbn [flat_map]. by rewrite Hx, IH.
Qed.

Lemma flat_map_map {A B D : Type} (f : B -> list D) (g : A -> B)
  (l : list A) :
  flat_map f (map g l) = flat_map (fun x => f (g x)) l.
Proof.
  induction l as [|x l IH]; [done|]. cbn [map flat_map]. by rewrite IH.
Qed.

Lemma run_Grp_Star_Seq (n : nat) (c : cls) (k : regex) (s : string)
  (caps : captures) :
  run (Seq (Grp n (Star c)) k) s caps
  = flat_map (fun xy =>
                map (fun '(a2, caps2, s2) => (fst xy +:+ a2, caps2, s2))
                    (run k (snd xy) (<[n := Some (fst xy)]> caps)))
             (star_runs (cls_test c) s).
Proof.
  cbn [run]. rewrite map_map, flat_map_map.
  apply flat_map_ext. by intros [x y].
Qed.

(** a greedy group of any characters before a pattern [k]: when [k]
    matches after the text [a] and at no later place of the line, the group
    takes [a] *)
Lemma first_Star_greedy (n : nat) (k : regex) (a s1 a2 s2 : string)
  (caps caps2 : captures) :
  one_line a = true ->
  (forall x y caps',
      s1 = x +:+ y -> x <> "" -> run k y caps' = []) ->
  first_outcome k s1 (<[n := Some a]> caps) = Some (a2, caps2, s2) ->
  first_outcome (Seq (Grp n (Star Dot)) k) (a +:+ s1) caps
  = Some (a +:+ a2, caps2, s2).
Proof.
  intros Ha Hlater Hk. unfold first_outcome in *.
  rewrite run_Grp_Star_Seq.
  destruct (star_runs_app (cls_test Dot) a s1 (one_line_chars a Ha))
    as [shorter ->].
  pose proof (fun x y => ReShapesFacts.star_runs_sound (cls_test Dot) s1 x y)
    as Hsound.
  destruct (star_runs_last (cls_test Dot) s1) as (longer & Heq & Hlonger).
  rewrite Heq in *. clear Heq.
  rewrite map_app, !flat_map_app, flat_map_map. cbn [map flat_map].
  rewrite flat_map_nil.
  - cbn [app fst snd]. rewrite app_empty_r.
    destruct (run k s1 (<[n:=Some a]> caps)) as [|o os]; [done|].
    injection Hk as ->. done.
  - apply Forall_forall. intros [x y] Hxy. cbn [fst snd].
    rewrite Forall_forall in Hlonger. pose proof (Hlonger _ Hxy) as Hne.
    cbn [fst] in Hne.
    rewrite (Hlater x y); [done| |done].
    apply Hsound. apply in_app_iff. left. by apply list_elem_of_In.
Qed.

(** a greedy run of any characters at the end of the pattern takes a line
    whole *)
Lemma first_Star_all (s : string) (caps : captures) :
  one_line s = true ->
  first_outcome (Star Dot) s caps = Some (s, caps, "").
Proof.
  intros Hs. unfold first_outcome. cbn [run].
  assert (exists l, star_runs (cls_test Dot) s = (s, "") :: l) as [l ->].
  { induction s as [|c s IH]; [by exists []|].
    cbn [one_line] in Hs. apply andb_true_iff in Hs as [Hc Hs].
    destruct (IH Hs) as [l Hl]. cbn [star_runs].
    rewrite Hc, Hl. cbn [map app]. by eexists. }
  done.
Qed.

(** a greedy run of digits takes all the digits before another character *)
Lemma first_Plus_digits (d s : string) (caps : captures) :
  all_digits d = true -> d <> "" ->
  match s with "" => true | String c _ => negb (PyStr.isdigit c) end = true ->
  first_outcome (Plus Digit) (d +:+ s) caps = Some (d, caps, s).
Proof.
  intros Hd Hne Hs. unfold first_outcome. cbn [run].
  assert (star_runs (cls_test Digit) s = [("", s)]) as Hstop.
  { destruct s as [|c s]; [done|]. cbn [star_runs cls_test].
    apply negb_true_iff in Hs. by rewrite Hs. }
  destruct (star_runs_app (cls_test Digit) d s) as [shorter ->].
  { clear Hne. induction d as [|c d IH]; [done|]. cbn [all_digits] in Hd.
    apply andb_true_iff in Hd as [Hc Hd]. intros x [<-|Hx]; [done|].
    by apply IH. }
  rewrite Hstop. cbn [map app]. rewrite app_empty_r.
  rewrite filter_cons_True; [done|]. by destruct d.
Qed.

End ReFirstFacts.

(** ** Kill lines *)

Section KillFacts.
Import Re ReFirst ReFirstFacts Patterns InfoPatterns.

Lemma app_split (a b x y : string) :
  a +:+ b = x +:+ y ->
  (exists m, a = x +:+ m /\ y = m +:+ b)
  \/ (exists m, x = a +:+ m /\ b = m +:+ y).
Proof.
  revert x. induction a as [|c a IH]; intros x H.
  - right. by exists x.
  - destruct x as [|d x].
    + left. by exists (String c a).
    + rewrite !app_String in H. injection H as -> H.
      destruct (IH x H) as [(m & -> & ->)|(m & -> & ->)];
        [left|right]; by exists m.
Qed.

Lemma contains_app_r_false (l a b : string) :
  PyStr.contains l (a +:+ b) = false -> PyStr.contains l b = false.
Proof.
  intros H. destruct (PyStr.contains l b) eqn:Hb; [|done].
  by rewrite (contains_app_r _ a _ Hb) in H.
Qed.

Lemma run_Seq_nil (r1 r2 : regex) (s : string) (caps : captures) :
  run r1 s caps = [] -> run (Seq r1 r2) s caps = [].
Proof. cbn [run]. by intros ->. Qed.

Lemma run_Seq_assoc (r1 r2 r3 : regex) (s : string) (caps : captures) :
  run (Seq (Seq r1 r2) r3) s caps = run (Seq r1 (Seq r2 r3)) s caps.
Proof.
  cbn [run]. induction (run r1 s caps) as [|[[a1 c1] s1] l IH]; [done|].
  cbn [flat_map]. rewrite flat_map_app, IH. f_equal.
  induction (run r2 s1 c1) as [|[[a2 c2] s2] l2 IH2]; [done|].
  cbn [map flat_map]. rewrite map_app, <- IH2. f_equal.
  rewrite !map_map. apply map_ext. intros [[a3 c3] s3].
  by rewrite app_assoc_String.
Qed.

(** after an opening bracket of the line, a pattern that begins with an
    opening bracket matches at no later place, when the text up to [tail]
    holds no other bracket and [tail] is empty or lacks a literal of the
    pattern *)
Lemma later_fails (k' : regex) (lit h tail : string) :
  PyStr.contains "(" h = false ->
  tail = "" \/ (has_lit (Seq (Lit "(") k') lit = true
                /\ PyStr.contains lit tail = false) ->
  forall x y caps',
    "(" +:+ h +:+ tail = x +:+ y -> x <> "" ->
    run (Seq (Lit "(") k') y caps' = [].
Proof.
  intros Hh Htail x y caps' Heq Hx.
  destruct x as [|c x]; [done|]. rewrite !app_String in Heq.
  injection Heq as <- Heq. change ("" +:+ h +:+ tail) with (h +:+ tail) in Heq.
  assert (forall m, m <> "" -> PyStr.contains "(" m = false ->
                    forall z, run (Seq (Lit "(") k') (m +:+ z) caps' = [])
    as Hinside.
  { intros [|d m] Hm Hc z; [done|]. apply run_Seq_nil.
    rewrite app_String. cbn [run]. rewrite prefix_char.
    cbn [PyStr.contains] in Hc. apply orb_false_iff in Hc as [Hc _].
    rewrite prefix_char in Hc. by rewrite Hc. }
  assert (forall z, (exists m, tail = m +:+ z) ->
                    run (Seq (Lit "(") k') z caps' = []) as Hafter.
  { intros z [m ->]. destruct Htail as [Htail|[Hlit Htail]].
    - destruct m; [|done]. change ("" +:+ z) with z in Htail.
      rewrite Htail. by apply run_Seq_nil.
    - apply (run_lacks_lit _ lit); [done|].
      by apply contains_app_r_false in Htail. }
  destruct (app_split _ _ _ _ Heq) as [(m & -> & ->)|(m & -> & Ht)].
  - destruct m as [|d m].
    + apply Hafter. by exists "".
    + apply Hinside; [done|]. by apply contains_app_r_false in Hh.
  - apply Hafter. by exists m.
Qed.

Lemma contains_char_app (c : ascii) (a b : string) :
  PyStr.contains (String c "") (a +:+ b)
  = PyStr.contains (String c "") a || PyStr.contains (String c "") b.
Proof.
  induction a as [|d a IH]; [by destruct b|].
  rewrite app_String. cbn [PyStr.contains].
  by rewrite !prefix_char, IH, orb_assoc.
Qed.

Lemma info_no_bracket (side sid after : string) :
  is_side side -> is_steam_id sid ->
  PyStr.contains "(" after = false ->
  PyStr.contains "(" (side +:+ "/" +:+ sid +:+ after) = false.
Proof.
  intros Hside [Hsid _] Hafter. rewrite !contains_char_app.
  rewrite (all_digits_without "(" sid) by done. rewrite Hafter.
  by destruct Hside as [-> | ->].
Qed.

(** the first match of the part of [player_info_regexp] after the name,
    on a side and a steam id between brackets *)
Lemma first_info_tail (side sid rest : string) (caps : captures) :
  is_side side -> is_steam_id sid -> 5 < length caps ->
  exists caps',
    first_outcome info_tail
      ("(" +:+ side +:+ "/" +:+ sid +:+ ")" +:+ rest) caps
    = Some ("(" +:+ side +:+ "/" +:+ sid +:+ ")", caps', rest)
    /\ caps' !! 5 = Some (Some sid)
    /\ caps' !! 1 = caps !! 1
    /\ caps' !! 0 = caps !! 0
    /\ length caps' = length caps.
Proof.
  intros Hside [Hsid Hne] Hlen. unfold info_tail.
  assert (exists caps2,
             first_outcome (Grp 2 (Alt (Grp 3 (Lit "Allies"))
                                       (Grp 4 (Lit "Axis"))))
               (side +:+ "/" +:+ sid +:+ ")" +:+ rest) caps
             = Some (side, caps2, "/" +:+ sid +:+ ")" +:+ rest)
             /\ caps2 !! 1 = caps !! 1 /\ caps2 !! 0 = caps !! 0
             /\ length caps2 = length caps) as (caps2 & H2 & H21 & H20 & Hl2).
  { destruct Hside as [-> | ->]; eexists; (split; [|split; [|split]]).
    - apply first_Grp, first_Alt_l, first_Grp, first_Lit.
    - by rewrite !list_lookup_insert_ne.
    - by rewrite !list_lookup_insert_ne.
    - by rewrite !length_insert.
    - apply first_Grp, first_Alt_r; [done|]. apply first_Grp, first_Lit.
    - by rewrite !list_lookup_insert_ne.
    - by rewrite !list_lookup_insert_ne.
    - by rewrite !length_insert. }
  eexists. split; [|split; [|split; [|split]]].
  - eapply first_Seq; [apply first_Lit|].
    eapply first_Seq; [exact H2|].
    eapply first_Seq; [apply first_Lit|].
    eapply first_Seq; [|apply first_Lit].
    apply first_Grp, first_Plus_digits; done.
  - apply list_lookup_insert_eq. lia.
  - by rewrite list_lookup_insert_ne.
  - by rewrite list_lookup_insert_ne.
  - by rewrite length_insert.
Qed.

Lemma split_at_first (n : nat) (r : regex) (before s a after : string)
  (caps : captures) :
  first_outcome (Grp 0 r) s (replicate (S n) None) = Some (a, caps, after) ->
  split_at n r before s = Some (before, caps, after).
Proof.
  unfold first_outcome. intros H.
  destruct s; cbn [split_at];
    destruct (run (Grp 0 r) _ (replicate (S n) None)) as [|o os];
    try done; by injection H as ->.
Qed.

Lemma rmatch_first (n : nat) (r : regex) (s a after : string)
  (caps : captures) :
  first_outcome (Grp 0 r) s (replicate (S n) None) = Some (a, caps, after) ->
  rmatch n r s = Some caps.
Proof.
  unfold first_outcome, rmatch. intros H.
  destruct (run (Grp 0 r) _ (replicate (S n) None)) as [|o os];
    try done; by injection H as ->.
Qed.

(** the last occurrence of a separator, when none begins after it *)
Lemma rsplit1_last (sep a b : string) :
  sep <> "" ->
  PyStr.contains sep (PyStr.skip 1 (sep +:+ b)) = false ->
  PyStr.rsplit1 sep (a +:+ sep +:+ b) = Some (a, b).
Proof.
  intros Hsep Hb. induction a as [|c a IH].
  - change ("" +:+ sep +:+ b) with (sep +:+ b).
    destruct sep as [|x sep]; [done|]. rewrite app_String in *.
    cbn [PyStr.rsplit1]. cbn [PyStr.skip] in Hb.
    rewrite (rsplit1_None _ _ Hb).
    rewrite <- app_String, prefix_app_l. by rewrite skip_app.
  - rewrite app_String. cbn [PyStr.rsplit1]. by rewrite IH.
Qed.

(** [player_info_regexp] on a name, a side and a steam id: the name and
    the steam id are the groups 1 and 5 *)
Lemma rmatch_player_info (nm side sid : string) :
  one_line nm = true -> is_side side -> is_steam_id sid ->
  exists caps,
    rmatch 5 player_info_regexp (player_info_text nm side sid) = Some caps
    /\ group caps 1 = Some nm /\ group caps 5 = Some sid.
Proof.
  intros Hnm Hside Hsid.
  destruct (first_info_tail side sid "" (<[1 := Some nm]> (replicate 6 None))
              Hside Hsid) as (caps' & Hfirst & H5 & H1 & H0 & Hlen);
    [rewrite length_insert, length_replicate; lia|].
  exists (<[0 := Some (nm +:+ "(" +:+ side +:+ "/" +:+ sid +:+ ")")]> caps').
  split; [|split].
  - eapply rmatch_first, first_Grp.
    change player_info_regexp with (Seq (Grp 1 (Star Dot)) info_tail).
    unfold player_info_text.
    change (nm +:+ "(" +:+ side +:+ "/" +:+ sid +:+ ")")
      with (nm +:+ "(" +:+ side +:+ "/" +:+ sid +:+ ")" +:+ "").
    apply first_Star_greedy; [done| |exact Hfirst].
    intros x y caps0 Heq Hx. unfold info_tail.
    apply (later_fails _ "" (side +:+ "/" +:+ sid +:+ ")") "" ) with x;
      [|by left| |done].
    + apply info_no_bracket; done.
    + rewrite <- Heq. by rewrite !app_assoc_String.
  - unfold group. rewrite list_lookup_insert_ne by done. rewrite H1.
    done.
  - unfold group. rewrite list_lookup_insert_ne by done. by rewrite H5.
Qed.

(** [re.split] at the first killer of a kill line *)
Lemma split_at_kill (nm side sid tail : string) :
  one_line nm = true -> is_side side -> is_steam_id sid ->
  PyStr.contains " -> " tail = false ->
  exists parts,
    split_at 5 kill_split_regexp ""
      (player_info_text nm side sid +:+ " -> " +:+ tail)
    = Some ("", parts, tail)
    /\ group parts 1 = Some nm /\ group parts 5 = Some sid.
Proof.
  intros Hnm Hside Hsid Htail.
  destruct (first_info_tail side sid (" -> " +:+ tail)
              (<[1 := Some nm]> (replicate 6 None)) Hside Hsid)
    as (caps' & Hfirst & H5 & H1 & H0 & Hlen);
    [rewrite length_insert, length_replicate; lia|].
  eexists. split; [|split].
  - eapply split_at_first, first_Grp.
    unfold first_outcome, kill_split_regexp.
    change player_info_regexp with (Seq (Grp 1 (Star Dot)) info_tail).
    rewrite run_Seq_assoc. fold (first_outcome
      (Seq (Grp 1 (Star Dot)) (Seq info_tail (Lit " -> ")))
      (player_info_text nm side sid +:+ " -> " +:+ tail)
      (replicate 6 None)).
    unfold player_info_text. rewrite !app_assoc_String.
    apply first_Star_greedy; [done| |].
    + intros x y caps0 Heq Hx. unfold info_tail. rewrite run_Seq_assoc.
      apply (later_fails _ " -> "
               (side +:+ "/" +:+ sid +:+ ")" +:+ " -> ") tail) with x;
        [| |by rewrite <- Heq, !app_assoc_String|done].
      * apply info_no_bracket; done.
      * right. split; [reflexivity|done].
    + eapply first_Seq; [exact Hfirst|apply first_Lit].
  - unfold group. rewrite list_lookup_insert_ne by done. by rewrite H1.
  - unfold group. rewrite list_lookup_insert_ne by done. by rewrite H5.
Qed.

(** X24: a kill line is read back field by field.  For a line made of a
    time field, the mark "] ", the action KILL or TEAM KILL, ": ", the
    killer and the victim written as name(side/steam id) on either side of
    " -> ", the word " with " and the weapon, the parser returns the two
    names, the two steam ids and the weapon as they were written, and the
    text after the action as the message.  The names may hold anything but
    a line feed; the text from the victim on must not hold " -> ", nor the
    weapon begin a further " with ". *)
Theorem parse_line_kill_round_trip (representable : N -> bool)
  (field kw p1 side1 id1 p2 side2 id2 w : string) (t : datetime) :
  kw = "KILL" \/ kw = "TEAM KILL" ->
  PyStr.contains "] " field = false ->
  _extract_time representable (PyStr.skip 1 field) = Some t ->
  one_line p1 = true -> is_side side1 -> is_steam_id id1 ->
  one_line p2 = true -> is_side side2 -> is_steam_id id2 ->
  PyStr.contains " -> " (player_info_text p2 side2 id2 +:+ " with " +:+ w)
  = false ->
  PyStr.contains " with " ("with " +:+ w) = false ->
  parse_line representable
    (field +:+ "] " +:+ kw +:+ ": "
     +:+ kill_text (player_info_text p1 side1 id1)
           (player_info_text p2 side2 id2) w)
  = Some (t,
          kw +:+ ": "
          +:+ kill_text (player_info_text p1 side1 id1)
                (player_info_text p2 side2 id2) w,
          {| v_action := Some kw; v_player := Some p1; v_player2 := Some p2;
             v_weapon := Some w; v_steam_id_64_1 := Some id1;
             v_steam_id_64_2 := Some id2;
             v_content := kill_text (player_info_text p1 side1 id1)
                            (player_info_text p2 side2 id2) w;
             v_sub_content := None |}).
Proof.
  intros Hkw Hfield Htime Hp1 Hside1 Hid1 Hp2 Hside2 Hid2 Harrow Hwith.
  set (content := kill_text (player_info_text p1 side1 id1)
                    (player_info_text p2 side2 id2) w).
  unfold parse_line. rewrite split1_border_free by done.
  cbn [mbind option_bind]. rewrite Htime. cbn [mbind option_bind].
  assert (dispatch (kw +:+ ": " +:+ content)
          = Some {| v_action := Some kw; v_player := None; v_player2 := None;
                    v_weapon := None; v_steam_id_64_1 := None;
                    v_steam_id_64_2 := None; v_content := content;
                    v_sub_content := None |}) as ->.
  { unfold dispatch, PyStr.startswith.
    assert (PyStr.split1 ": " (kw +:+ ": " +:+ content) = Some (kw, content))
      as Hsplit.
    { apply split1_border_free; [done..|]. by destruct Hkw as [-> | ->]. }
    rewrite Hsplit. destruct Hkw as [-> | ->].
    - rewrite (prefix_app_l "KILL"). reflexivity.
    - rewrite (prefix_app_l "TEAM KILL"). reflexivity. }
  cbn [mbind option_bind].
  assert (forall v, v_action v = Some kw -> connection_fields v = v) as Hconn.
  { intros v Hv. unfold connection_fields, in_set. rewrite Hv.
    rewrite bool_decide_false; [done|].
    destruct Hkw as [-> | ->]; by apply (bool_decide_unpack _). }
  rewrite Hconn by done.
  unfold kill_fields, in_set. cbn [v_action v_content v_sub_content].
  rewrite bool_decide_true
    by (destruct Hkw as [-> | ->]; by apply (bool_decide_unpack _)).
  destruct (split_at_kill p1 side1 id1
              (player_info_text p2 side2 id2 +:+ " with " +:+ w))
    as (parts & Hparts & Hg1 & Hg5); [done..|].
  unfold content, kill_text. rewrite Hparts. cbn [mbind option_bind].
  rewrite rsplit1_last by done. cbn [mbind option_bind].
  destruct (rmatch_player_info p2 side2 id2) as (groups & Hgroups & Hh1 & Hh5);
    [done..|].
  rewrite Hgroups. cbn [mbind option_bind].
  by rewrite Hg1, Hg5, Hh1, Hh5.
Qed.

End KillFacts.

Lemma parse_line_kill_round_trip_witness :
  parse_line utc_platform
    ("[16:01 min (1606998500)" +:+ "] " +:+ "TEAM KILL" +:+ ": "
     +:+ kill_text (player_info_text "Al (x) -> y" "Allies" "111")
           (player_info_text "Bob" "Axis" "222") "M1 Garand")
  = Some (1606998500000000%Z,
          "TEAM KILL" +:+ ": "
          +:+ kill_text (player_info_text "Al (x) -> y" "Allies" "111")
                (player_info_text "Bob" "Axis" "222") "M1 Garand",
          {| v_action := Some "TEAM KILL"; v_player := Some "Al (x) -> y";
             v_player2 := Some "Bob"; v_weapon := Some "M1 Garand";
             v_steam_id_64_1 := Some "111"; v_steam_id_64_2 := Some "222";
             v_content := kill_text (player_info_text "Al (x) -> y" "Allies" "111")
                            (player_info_text "Bob" "Axis" "222") "M1 Garand";
             v_sub_content := None |}).
Proof.
  apply (parse_line_kill_round_trip utc_platform "[16:01 min (1606998500)"
           "TEAM KILL" "Al (x) -> y" "Allies" "111" "Bob" "Axis" "222"
           "M1 Garand" 1606998500000000%Z).
  - by right.
  - reflexivity.
  - vm_compute. reflexivity.
  - reflexivity.
  - by left.
  - by split.
  - reflexivity.
  - by right.
  - by split.
  - reflexivity.
  - reflexivity.
Defined.

(** ** Chat lines *)

Section ChatFacts.
Import Re ReFirst ReFirstFacts Patterns.

Lemma rmatch_chat (scope nm side sid msg : string) :
  is_scope scope -> one_line nm = true -> is_side side -> is_steam_id sid ->
  one_line msg = true -> PyStr.contains ")]: " msg = false ->
  exists caps,
    rmatch 9 chat_regexp (chat_text scope nm side sid msg) = Some caps
    /\ group caps 1 = Some scope /\ group caps 4 = Some nm
    /\ group caps 5 = Some side /\ group caps 8 = Some sid
    /\ group caps 9 = Some msg.
Proof.
  intros Hscope Hnm Hside Hsid Hmsg Hclose.
  assert (forall x y caps',
             "(" +:+ side +:+ "/" +:+ sid +:+ ")]: " +:+ msg = x +:+ y ->
             x <> "" ->
             run (Lit "(" · Grp 5 (Alt (Grp 6 (Lit "Allies"))
                                       (Grp 7 (Lit "Axis")))
                  · Lit "/" · Grp 8 (Plus Digit) · Lit ")]: "
                  · Grp 9 (Star Dot))%re y caps' = []) as Hlater.
  { intros x y caps' Heq Hx.
    apply (later_fails _ ")]: " (side +:+ "/" +:+ sid +:+ ")]: ") msg)
      with x; [| |by rewrite <- Heq, !app_assoc_String|done].
    - by apply info_no_bracket.
    - right. split; [reflexivity|done]. }
  destruct Hsid as [Hdigits Hne].
  unfold chat_text, chat_regexp.
  destruct Hscope as [-> | ->], Hside as [-> | ->];
    (eexists; split;
     [ eapply rmatch_first, first_Grp;
       (eapply first_Seq; [apply first_Lit|]);
       (eapply first_Seq;
        [first [ apply first_Grp, first_Alt_l, first_Grp, first_Lit
               | apply first_Grp, first_Alt_r;
                 [done|apply first_Grp, first_Lit] ]|]);
       (eapply first_Seq; [apply first_Lit|]);
       (apply first_Star_greedy; [done|exact Hlater|]);
       (eapply first_Seq; [apply first_Lit|]);
       (eapply first_Seq;
        [first [ apply first_Grp, first_Alt_l, first_Grp, first_Lit
               | apply first_Grp, first_Alt_r;
                 [done|apply first_Grp, first_Lit] ]|]);
       (eapply first_Seq; [apply first_Lit|]);
       (eapply first_Seq;
        [apply first_Grp, first_Plus_digits; done|]);
       (eapply first_Seq; [apply first_Lit|]);
       apply first_Grp, first_Star_all; done
     | repeat split; reflexivity ]).
Qed.

(** X25: a chat line is read back field by field.  For a line made of a
    time field, the mark "] " and a chat of a scope by a player written as
    name(side/steam id), the parser returns the action CHAT[side][scope],
    the name, the steam id and the message as they were written, and
    rebuilds the content as name, message and steam id.  The name and the
    message may hold anything but a line feed, and the message must not
    hold the mark ")]: " that ends the player. *)
Theorem parse_line_chat_round_trip (representable : N -> bool)
  (field scope nm side sid msg : string) (t : datetime) :
  PyStr.contains "] " field = false ->
  _extract_time representable (PyStr.skip 1 field) = Some t ->
  is_scope scope -> one_line nm = true -> is_side side -> is_steam_id sid ->
  one_line msg = true -> PyStr.contains ")]: " msg = false ->
  parse_line representable
    (field +:+ "] " +:+ chat_text scope nm side sid msg)
  = Some (t, chat_text scope nm side sid msg,
          {| v_action := Some ("CHAT[" +:+ side +:+ "][" +:+ scope +:+ "]");
             v_player := Some nm; v_player2 := None; v_weapon := None;
             v_steam_id_64_1 := Some sid; v_steam_id_64_2 := None;
             v_content := nm +:+ ": " +:+ msg +:+ " (" +:+ sid +:+ ")";
             v_sub_content := Some msg |}).
Proof.
  intros Hfield Htime Hscope Hnm Hside Hsid Hmsg Hclose.
  destruct (rmatch_chat scope nm side sid msg)
    as (caps & Hcaps & H1 & H4 & H5 & H8 & H9); [done..|].
  unfold parse_line. rewrite split1_border_free by done.
  cbn [mbind option_bind]. rewrite Htime. cbn [mbind option_bind].
  assert (dispatch (chat_text scope nm side sid msg)
          = Some {| v_action := Some ("CHAT[" +:+ side +:+ "][" +:+ scope
                                      +:+ "]");
                    v_player := Some nm; v_player2 := None; v_weapon := None;
                    v_steam_id_64_1 := Some sid; v_steam_id_64_2 := None;
                    v_content := nm +:+ ": " +:+ msg +:+ " (" +:+ sid +:+ ")";
                    v_sub_content := Some msg |}) as ->.
  { unfold dispatch, PyStr.startswith.
    rewrite Hcaps. cbn [mbind option_bind].
    rewrite H1, H4, H5, H8, H9. reflexivity. }
  cbn [mbind option_bind].
  destruct Hscope as [-> | ->], Hside as [-> | ->]; reflexivity.
Qed.

End ChatFacts.

Lemma parse_line_chat_round_trip_witness :
  parse_line utc_platform
    ("[2:00 min (1606998500)" +:+ "] "
     +:+ chat_text "Unit" "T17 (Axis/1) Scott" "Allies" "111" "go (now)!")
  = Some (1606998500000000%Z,
          chat_text "Unit" "T17 (Axis/1) Scott" "Allies" "111" "go (now)!",
          {| v_action := Some ("CHAT[" +:+ "Allies" +:+ "][" +:+ "Unit" +:+ "]");
             v_player := Some "T17 (Axis/1) Scott"; v_player2 := None;
             v_weapon := None; v_steam_id_64_1 := Some "111";
             v_steam_id_64_2 := None;
             v_content := "T17 (Axis/1) Scott" +:+ ": " +:+ "go (now)!"
                          +:+ " (" +:+ "111" +:+ ")";
             v_sub_content := Some "go (now)!" |}).
Proof.
  apply (parse_line_chat_round_trip utc_platform "[2:00 min (1606998500)"
           "Unit" "T17 (Axis/1) Scott" "Allies" "111" "go (now)!"
           1606998500000000%Z).
  - reflexivity.
  - vm_compute. reflexivity.
  - by right.
  - reflexivity.
  - by left.
  - by split.
  - reflexivity.
  - reflexivity.
Defined.

(** ** Match lines *)

Section MatchFacts.
Import PyStr.

Lemma split_go_pending (sep cur : string) (k : nat) (a b : string) :
  String.length a = k -> split_go sep k cur (a +:+ b) = split_go sep 0 cur b.
Proof.
  revert k. induction a as [|c a IH]; intros k Hk.
  - by rewrite <- Hk.
  - rewrite <- Hk, app_String. cbn [String.length split_go]. by apply IH.
Qed.

(** a text that begins with the separator and holds no other occurrence
    of it is split in two: nothing, and what follows the separator *)
Lemma split_prefix (sep x : string) :
  sep <> "" -> contains sep x = false -> split sep (sep +:+ x) = [""; x].
Proof.
  intros Hsep Hx. unfold split. destruct sep as [|c sep]; [done|].
  rewrite app_String. cbn [split_go]. rewrite <- app_String, prefix_app_l.
  replace (String.length (String c sep) - 1) with (String.length sep)
    by (simpl; lia).
  rewrite split_go_pending by done. by rewrite split_go_whole.
Qed.

End MatchFacts.

(** X26: a line made of a time field, the mark "] ", one of the marks
    MATCH START and MATCH ENDED in capitals, a space and a text that does
    not hold the mark and the space again is read as that action, with the
    text as its sub-content and the whole line after the time as its
    message; no player is recorded. *)
Theorem parse_line_match (representable : N -> bool)
  (field kw x : string) (t : datetime) :
  kw = "MATCH START" \/ kw = "MATCH ENDED" ->
  PyStr.contains "] " field = false ->
  _extract_time representable (PyStr.skip 1 field) = Some t ->
  PyStr.contains (kw +:+ " ") x = false ->
  parse_line representable (field +:+ "] " +:+ (kw +:+ " ") +:+ x)
  = Some (t, (kw +:+ " ") +:+ x,
          {| v_action := Some kw; v_player := None; v_player2 := None;
             v_weapon := None; v_steam_id_64_1 := None;
             v_steam_id_64_2 := None; v_content := (kw +:+ " ") +:+ x;
             v_sub_content := Some x |}).
Proof.
  intros Hkw Hfield Htime Hx. unfold parse_line.
  rewrite split1_border_free by done.
  cbn [mbind option_bind]. rewrite Htime. cbn [mbind option_bind].
  assert (PyStr.split (kw +:+ " ") ((kw +:+ " ") +:+ x) = [""; x]) as Hsplit.
  { apply split_prefix; [|done]. by destruct Hkw as [-> | ->]. }
  destruct Hkw as [-> | ->].
  - unfold dispatch.
    change ("MATCH START" +:+ " ") with "MATCH START " in *.
    rewrite Hsplit. reflexivity.
  - unfold dispatch.
    change ("MATCH ENDED" +:+ " ") with "MATCH ENDED " in *.
    rewrite Hsplit. reflexivity.
Qed.

Lemma parse_line_match_witness :
  parse_line utc_platform
    ("[1:00 min (1606998400)" +:+ "] " +:+ ("MATCH START" +:+ " ")
     +:+ "FOY Warfare")
  = Some (1606998400000000%Z, ("MATCH START" +:+ " ") +:+ "FOY Warfare",
          {| v_action := Some "MATCH START"; v_player := None;
             v_player2 := None; v_weapon := None; v_steam_id_64_1 := None;
             v_steam_id_64_2 := None;
             v_content := ("MATCH START" +:+ " ") +:+ "FOY Warfare";
             v_sub_content := Some "FOY Warfare" |}).
Proof.
  apply (parse_line_match utc_platform "[1:00 min (1606998400)"
           "MATCH START" "FOY Warfare" 1606998400000000%Z).
  - by left.
  - reflexivity.
  - vm_compute. reflexivity.
  - reflexivity.
Defined.

(** ** Kicks for team killing and camera lines *)

Section MoreFirstFacts.
Import Re ReFirst ReFirstFacts Patterns.

Lemma first_One (c : cls) (x : ascii) (s : string) (caps : captures) :
  cls_test c x = true ->
  first_outcome (One c) (String x s) caps = Some (String x "", caps, s).
Proof. unfold first_outcome. cbn [run]. by intros ->. Qed.

Lemma all_chars_app (p : ascii -> bool) (a b : string) :
  all_chars p (a +:+ b) = all_chars p a && all_chars p b.
Proof.
  induction a as [|c a IH]; [done|]. rewrite app_String. cbn [all_chars].
  by rewrite IH, andb_assoc.
Qed.

Lemma all_chars_app_r (p : ascii -> bool) (a b : string) :
  all_chars p (a +:+ b) = true -> all_chars p b = true.
Proof. rewrite all_chars_app. by intros [_ H]%andb_true_iff. Qed.

(** after the place where a pattern matches, it matches at no later place
    of the line when its first item refuses every character up to [tail]
    and [tail] is empty or lacks a literal of the pattern *)
Lemma later_fails_gen (r0 k' : regex) (ok : ascii -> bool)
  (lit h tail : string) :
  (forall d z caps, ok d = false -> run r0 (String d z) caps = []) ->
  (forall caps, run r0 "" caps = []) ->
  all_chars (fun d => negb (ok d)) h = true ->
  tail = "" \/ (has_lit (Seq r0 k') lit = true
                /\ PyStr.contains lit tail = false) ->
  forall c0 x y caps',
    String c0 (h +:+ tail) = x +:+ y -> x <> "" ->
    run (Seq r0 k') y caps' = [].
Proof.
  intros Hr0 Hempty Hh Htail c0 x y caps' Heq Hx.
  destruct x as [|c x]; [done|]. rewrite app_String in Heq.
  injection Heq as <- Heq.
  assert (forall z, (exists m, tail = m +:+ z) ->
                    run (Seq r0 k') z caps' = []) as Hafter.
  { intros z [m ->]. destruct Htail as [Htail|[Hlit Htail]].
    - destruct m; [|done]. change ("" +:+ z) with z in Htail.
      rewrite Htail. apply run_Seq_nil, Hempty.
    - apply (run_lacks_lit _ lit); [done|].
      by apply contains_app_r_false in Htail. }
  destruct (app_split _ _ _ _ Heq) as [(m & -> & ->)|(m & -> & Ht)].
  - destruct m as [|d m].
    + apply Hafter. by exists "".
    + apply all_chars_app_r in Hh. cbn [all_chars] in Hh.
      apply andb_true_iff in Hh as [Hd _]. apply negb_true_iff in Hd.
      rewrite app_String. apply run_Seq_nil, Hr0, Hd.
  - apply Hafter. by exists m.
Qed.

Lemma run_Lit_char (c d : ascii) (z : string) (caps : captures) :
  Ascii.eqb c d = false -> run (Lit (String c "")) (String d z) caps = [].
Proof.
  intros Hcd. cbn [run]. rewrite prefix_char.
  apply Ascii.eqb_neq in Hcd. by rewrite bool_decide_false.
Qed.

Lemma run_One_char (c : cls) (d : ascii) (z : string) (caps : captures) :
  cls_test c d = false -> run (One c) (String d z) caps = [].
Proof. intros Hd. cbn [run]. by rewrite Hd. Qed.

Lemma digit_not_space (c : ascii) :
  PyStr.isdigit c = true -> PyStr.isspace c = false.
Proof.
  unfold PyStr.isdigit, PyStr.isspace. set (n := PyStr.code c).
  intros [H1 H2]%andb_true_iff. apply N.leb_le in H1, H2.
  assert ((n <=? 13)%N = false) as -> by (apply N.leb_gt; lia).
  assert ((n <=? 32)%N = false) as -> by (apply N.leb_gt; lia).
  assert ((n =? 133)%N = false) as -> by (apply N.eqb_neq; lia).
  assert ((n =? 160)%N = false) as -> by (apply N.eqb_neq; lia).
  by rewrite !andb_false_r.
Qed.

Lemma digits_no_space (sid : string) :
  all_digits sid = true ->
  all_chars (fun d => negb (PyStr.isspace d)) sid = true.
Proof.
  induction sid as [|c sid IH]; [done|]. cbn [all_digits all_chars].
  intros [Hc Hs]%andb_true_iff. rewrite (digit_not_space c Hc). by apply IH.
Qed.

Lemma contains_split (l s : string) :
  PyStr.contains l s = true -> exists a b, s = a +:+ l +:+ b.
Proof.
  intros [[a b] H]%split1_contains. exists a, b. by apply split1_Some.
Qed.

Lemma contains_suffix (c : ascii) (l s : string) :
  PyStr.contains (String c "") s = false ->
  PyStr.contains (l +:+ String c "") s = false.
Proof.
  intros Hs. destruct (PyStr.contains (l +:+ String c "") s) eqn:Hc; [|done].
  apply contains_split in Hc as (a & b & ->).
  rewrite !contains_char_app in Hs. cbn [PyStr.contains] in Hs.
  rewrite prefix_char, bool_decide_true in Hs by done.
  by rewrite !orb_true_r in Hs.
Qed.

Lemma rmatch_tk_kick (nm sanction : string) :
  one_line nm = true -> is_sanction sanction ->
  exists caps,
    rmatch 5 tk_kick_regexp (tk_kick_text nm sanction) = Some caps
    /\ group caps 1 = Some nm
    /\ group caps 2
       = Some ("has been kicked. [" +:+ sanction +:+ " FOR TEAM KILLING!]")
    /\ group caps 3 = Some sanction.
Proof.
  intros Hnm Hsanction. unfold tk_kick_text, tk_kick_regexp.
  destruct Hsanction as [-> | ->];
    (eexists; split;
     [ eapply rmatch_first, first_Grp;
       (eapply first_Seq; [apply (first_Lit "KICK:")|]);
       (eapply first_Seq; [by apply first_One|]);
       (eapply first_Seq; [apply (first_Lit "[")|]);
       apply first_Star_greedy; [done| |reflexivity];
       intros x y caps' Heq Hx;
       match goal with
       | |- run (Seq _ ?k) _ _ = [] =>
           first
             [ apply (later_fails_gen (Lit "]") k (Ascii.eqb "]")
                        " FOR TEAM KILLING!]"
                        " has been kicked. [KICKED FOR TEAM KILLING!" "]")
                 with "]"%char x;
               [ intros d z caps0 Hd; by apply run_Lit_char
               | done | reflexivity | right; by split | exact Heq | done ]
             | apply (later_fails_gen (Lit "]") k (Ascii.eqb "]")
                        " FOR TEAM KILLING!]"
                        " has been kicked. [BANNED FOR 2 HOURS FOR TEAM KILLING!"
                        "]")
                 with "]"%char x;
               [ intros d z caps0 Hd; by apply run_Lit_char
               | done | reflexivity | right; by split | exact Heq | done ] ]
       end
     | repeat split; reflexivity ]).
Qed.

(** X27: a kick for team killing whose sanction the pattern knows is read
    back: for a line made of a time field, the mark "] " and the sentence
    of the server for a player kicked, or banned for 2 hours, for team
    killing, the parser returns the action TK KICKED or TK BANNED FOR 2
    HOURS, the player as written between the square brackets, and the
    sentence as the sub-content. *)
Theorem parse_line_tk_kick (representable : N -> bool)
  (field nm sanction : string) (t : datetime) :
  PyStr.contains "] " field = false ->
  _extract_time representable (PyStr.skip 1 field) = Some t ->
  one_line nm = true -> is_sanction sanction ->
  parse_line representable (field +:+ "] " +:+ tk_kick_text nm sanction)
  = Some (t, tk_kick_text nm sanction,
          {| v_action := Some ("TK " +:+ sanction); v_player := Some nm;
             v_player2 := None; v_weapon := None; v_steam_id_64_1 := None;
             v_steam_id_64_2 := None; v_content := tk_kick_text nm sanction;
             v_sub_content :=
               Some ("has been kicked. [" +:+ sanction
                     +:+ " FOR TEAM KILLING!]") |}).
Proof.
  intros Hfield Htime Hnm Hsanction.
  destruct (rmatch_tk_kick nm sanction) as (caps & Hcaps & H1 & H2 & H3);
    [done..|].
  unfold parse_line. rewrite split1_border_free by done.
  cbn [mbind option_bind]. rewrite Htime. cbn [mbind option_bind].
  assert (PyStr.contains "FOR TEAM KILLING" (tk_kick_text nm sanction) = true)
    as Hfor.
  { unfold tk_kick_text. do 3 apply contains_app_r.
    destruct Hsanction as [-> | ->]; reflexivity. }
  assert (dispatch (tk_kick_text nm sanction)
          = Some {| v_action := Some ("TK " +:+ sanction);
                    v_player := Some nm; v_player2 := None; v_weapon := None;
                    v_steam_id_64_1 := None; v_steam_id_64_2 := None;
                    v_content := tk_kick_text nm sanction;
                    v_sub_content :=
                      Some ("has been kicked. [" +:+ sanction
                            +:+ " FOR TEAM KILLING!]") |}) as ->.
  { unfold dispatch. rewrite Hfor, Hcaps, H1, H2, H3. reflexivity. }
  cbn [mbind option_bind].
  destruct Hsanction as [-> | ->]; reflexivity.
Qed.

Lemma rmatch_camera (nm sid what : string) :
  one_line nm = true -> is_steam_id sid ->
  PyStr.contains "]" what = false ->
  exists caps,
    rmatch 2 camera_regexp ("[" +:+ nm +:+ " (" +:+ sid +:+ ")]" +:+ what)
    = Some caps
    /\ group caps 1 = Some nm /\ group caps 2 = Some sid.
Proof.
  intros Hnm [Hsid Hne] Hwhat. unfold camera_regexp.
  eexists. split.
  - eapply rmatch_first, first_Grp.
    eapply first_Seq; [apply (first_Lit "[")|].
    apply first_Star_greedy; [done| |].
    + intros x y caps' Heq Hx.
      apply (later_fails_gen (One Space) _ PyStr.isspace ")]"
               ("(" +:+ sid +:+ ")]") what) with " "%char x;
        [ intros d z caps0 Hd; by apply run_One_char
        | done | | right; split; [reflexivity|by apply (contains_suffix _ ")")]
        | by rewrite <- Heq, !app_assoc_String | done ].
      rewrite !all_chars_app. rewrite (digits_no_space sid) by done.
      reflexivity.
    + eapply first_Seq; [by apply first_One|].
      eapply first_Seq; [apply (first_Lit "(")|].
      eapply first_Seq; [apply first_Grp, first_Plus_digits; done|].
      apply first_Lit.
  - split; reflexivity.
Qed.

(** X28: a camera line is read back: for a line made of a time field, the
    mark "] ", the word Player, the observer written as [name (steam id)]
    and a text without a closing square bracket, the parser returns the
    action CAMERA, the name and the steam id as written, and the text as
    the sub-content.  The name may hold anything but a line feed. *)
Theorem parse_line_camera (representable : N -> bool)
  (field nm sid what : string) (t : datetime) :
  PyStr.contains "] " field = false ->
  _extract_time representable (PyStr.skip 1 field) = Some t ->
  one_line nm = true -> is_steam_id sid ->
  PyStr.contains "]" what = false ->
  parse_line representable (field +:+ "] " +:+ camera_text nm sid what)
  = Some (t, camera_text nm sid what,
          {| v_action := Some "CAMERA"; v_player := Some nm;
             v_player2 := None; v_weapon := None;
             v_steam_id_64_1 := Some sid; v_steam_id_64_2 := None;
             v_content := "[" +:+ nm +:+ " (" +:+ sid +:+ ")]" +:+ what;
             v_sub_content := Some what |}).
Proof.
  intros Hfield Htime Hnm Hsid Hwhat.
  destruct (rmatch_camera nm sid what) as (caps & Hcaps & H1 & H2);
    [done..|].
  unfold parse_line. rewrite split1_border_free by done.
  cbn [mbind option_bind]. rewrite Htime. cbn [mbind option_bind].
  set (content := "[" +:+ nm +:+ " (" +:+ sid +:+ ")]" +:+ what) in *.
  assert (PyStr.split1 " " (camera_text nm sid what)
          = Some ("Player", content)) as Hsplit
    by (by apply (split1_char " " "Player" content)).
  assert (PyStr.rsplit1 "]" content
          = Some ("[" +:+ nm +:+ " (" +:+ sid +:+ ")", what)) as Hrsplit.
  { rewrite <- (rsplit1_char "]" ("[" +:+ nm +:+ " (" +:+ sid +:+ ")") what)
      by done.
    unfold content. by rewrite !app_assoc_String. }
  assert (dispatch (camera_text nm sid what)
          = Some {| v_action := Some "CAMERA"; v_player := Some nm;
                    v_player2 := None; v_weapon := None;
                    v_steam_id_64_1 := Some sid; v_steam_id_64_2 := None;
                    v_content := content; v_sub_content := Some what |})
    as ->.
  { unfold dispatch. rewrite Hsplit. cbn [mbind option_bind].
    rewrite Hcaps, Hrsplit, H1, H2. reflexivity. }
  reflexivity.
Qed.

End MoreFirstFacts.

Lemma parse_line_camera_witness :
  parse_line utc_platform
    ("[3:00 min (1606998600)" +:+ "] "
     +:+ camera_text "T17 (1) Scott" "76561198000000001"
           " Entered Admin Camera")
  = Some (1606998600000000%Z,
          camera_text "T17 (1) Scott" "76561198000000001"
            " Entered Admin Camera",
          {| v_action := Some "CAMERA"; v_player := Some "T17 (1) Scott";
             v_player2 := None; v_weapon := None;
             v_steam_id_64_1 := Some "76561198000000001";
             v_steam_id_64_2 := None;
             v_content := "[" +:+ "T17 (1) Scott" +:+ " ("
                          +:+ "76561198000000001" +:+ ")]"
                          +:+ " Entered Admin Camera";
             v_sub_content := Some " Entered Admin Camera" |}).
Proof.
  apply (parse_line_camera utc_platform "[3:00 min (1606998600)"
           "T17 (1) Scott" "76561198000000001" " Entered Admin Camera"
           1606998600000000%Z).
  - reflexivity.
  - vm_compute. reflexivity.
  - reflexivity.
  - by split.
  - reflexivity.
Defined.

Lemma parse_line_tk_kick_witness :
  parse_line utc_platform
    ("[1:00 min (1606998428)" +:+ "] "
     +:+ tk_kick_text "T17 [x] Scott" "BANNED FOR 2 HOURS")
  = Some (1606998428000000%Z, tk_kick_text "T17 [x] Scott" "BANNED FOR 2 HOURS",
          {| v_action := Some ("TK " +:+ "BANNED FOR 2 HOURS");
             v_player := Some "T17 [x] Scott";
             v_player2 := None; v_weapon := None; v_steam_id_64_1 := None;
             v_steam_id_64_2 := None;
             v_content := tk_kick_text "T17 [x] Scott" "BANNED FOR 2 HOURS";
             v_sub_content :=
               Some ("has been kicked. [" +:+ "BANNED FOR 2 HOURS"
                     +:+ " FOR TEAM KILLING!]") |}).
Proof.
  apply (parse_line_tk_kick utc_platform "[1:00 min (1606998428)"
           "T17 [x] Scott" "BANNED FOR 2 HOURS" 1606998428000000%Z).
  - reflexivity.
  - vm_compute. reflexivity.
  - reflexivity.
  - by right.
Defined.

(** ** Blobs put end to end *)

Section ConcatFacts.
Variable representable : N -> bool.
Variable timestamp_error : datetime -> option exn.

Lemma split_char_app (c : ascii) (a b : string) :
  forall cur,
    PyStr.split_go (String c "") 0 cur (a +:+ String c b)
    = PyStr.split_go (String c "") 0 cur a
      ++ PyStr.split_go (String c "") 0 "" b.
Proof.
  induction a as [|d a IH]; intros cur.
  - change ("" +:+ String c b) with (String c b). cbn [PyStr.split_go].
    rewrite prefix_char, bool_decide_true by done. done.
  - rewrite app_String. cbn [PyStr.split_go].
    rewrite !prefix_char. case_bool_decide; cbn [String.length Nat.sub];
      by rewrite IH.
Qed.

Lemma log_lines_app (raw1 raw2 : string) :
  log_lines (raw1 +:+ String PyStr.LF raw2)
  = log_lines raw1 ++ log_lines raw2.
Proof. apply split_char_app. Qed.

Lemma parse_loop_app (now : datetime) (fa fp : pystr)
  (lines1 lines2 : list string) :
  forall st st1,
    parse_loop representable timestamp_error now fa fp lines1 st = Ok st1 ->
    parse_loop representable timestamp_error now fa fp (lines1 ++ lines2) st
    = parse_loop representable timestamp_error now fa fp lines2 st1.
Proof.
  induction lines1 as [|line lines1 IH]; intros st st1;
    [by intros [= ->]|].
  cbn [app parse_loop]. destruct line as [|c line]; [apply IH|].
  destruct (parse_line representable (String c line)) as [[[time rest] v]|];
    [|apply IH].
  destruct (passes fa fp (String c line) v) as [[|]|e]; [|apply IH|done].
  destruct (make_event timestamp_error now (String c line) (time, rest, v));
    [apply IH|done].
Qed.

(** whether the loop returns does not depend on what it has gathered *)
Lemma parse_loop_any_start (now : datetime) (fa fp : pystr)
  (lines : list string) :
  forall st st' st0,
    parse_loop representable timestamp_error now fa fp lines st = Ok st' ->
    exists st0', parse_loop representable timestamp_error now fa fp lines st0 =
      Ok st0'.
Proof.
  induction lines as [|line lines IH]; intros st st' st0;
    [by eexists|].
  cbn [parse_loop]. destruct line as [|c line]; [apply IH|].
  destruct (parse_line representable (String c line)) as [[[time rest] v]|];
    [|apply IH].
  destruct (passes fa fp (String c line) v) as [[|]|e]; [|apply IH|done].
  destruct (make_event timestamp_error now (String c line) (time, rest, v));
    [apply IH|done].
Qed.

End ConcatFacts.

(** X29: two blobs put end to end with a line feed between them give the
    events of the second followed by the events of the first, and the
    players and the actions of both, when each of them is read without an
    exception under the same filters and clock. *)
Theorem parse_logs_concat (representable : N -> bool)
  (timestamp_error : datetime -> option exn) (now : datetime)
  (raw1 raw2 : string) (filter_action filter_player : pystr)
  (b1 b2 : LogBatch) :
  parse_logs representable timestamp_error now raw1 filter_action filter_player
    = Ok b1 ->
  parse_logs representable timestamp_error now raw2 filter_action filter_player
    = Ok b2 ->
  exists b,
    parse_logs representable timestamp_error now (raw1 +:+ String PyStr.LF raw2)
      filter_action filter_player = Ok b
    /\ logs b = logs b2 ++ logs b1
    /\ (forall p, p ∈ players b <-> p ∈ players b1 \/ p ∈ players b2)
    /\ (forall a, a ∈ actions b <-> a ∈ actions b1 \/ a ∈ actions b2).
Proof.
  intros H1 H2.
  assert (exists b,
             parse_logs representable timestamp_error now (raw1 +:+ String
               PyStr.LF raw2)
               filter_action filter_player = Ok b) as [b Hb].
  { unfold parse_logs in *.
    fold (log_lines raw1) in H1. fold (log_lines raw2) in H2.
    fold (log_lines (raw1 +:+ String PyStr.LF raw2)).
    rewrite log_lines_app.
    destruct (parse_loop representable timestamp_error now filter_action
      filter_player
                (log_lines raw1) _) as [st1|] eqn:Hl1; [|done].
    destruct (parse_loop representable timestamp_error now filter_action
      filter_player
                (log_lines raw2) _) as [st2|] eqn:Hl2; [|done].
    rewrite (parse_loop_app _ _ _ _ _ _ _ _ _ Hl1).
    destruct (parse_loop_any_start _ _ _ _ _ _ _ _ st1 Hl2) as [st Hst].
    rewrite Hst. by eexists. }
  exists b. split; [done|].
  apply parse_logs_Ok in H1 as (Hlogs1 & Hpl1 & Hact1).
  apply parse_logs_Ok in H2 as (Hlogs2 & Hpl2 & Hact2).
  apply parse_logs_Ok in Hb as (Hlogs & Hpl & Hact).
  rewrite log_lines_app in Hlogs, Hpl, Hact.
  split; [|split].
  - by rewrite Hlogs, Hlogs1, Hlogs2, omap_app, reverse_app.
  - intros p. rewrite Hpl, Hpl1, Hpl2, !elem_of_elements, !elem_of_list_to_set.
    unfold line_players. rewrite bind_app. apply elem_of_app.
  - intros a. rewrite Hact, Hact1, Hact2, !elem_of_app, !elem_of_elements,
      !elem_of_list_to_set.
    unfold line_actions. rewrite omap_app, elem_of_app. tauto.
Qed.

Lemma parse_logs_concat_witness :
  exists b1 b2 b,
    parse_logs utc_platform utc_timestamp 0 sample_raw None None = Ok b1
    /\ parse_logs utc_platform utc_timestamp 0 sample_teamkill None None = Ok b2
    /\ parse_logs utc_platform utc_timestamp 0
         (sample_raw +:+ String PyStr.LF sample_teamkill) None None = Ok b
    /\ logs b = logs b2 ++ logs b1.
Proof.
  assert (exists b1, parse_logs utc_platform utc_timestamp 0 sample_raw None
    None = Ok b1)
    as [b1 H1] by (eexists; vm_compute; reflexivity).
  assert (exists b2,
             parse_logs utc_platform utc_timestamp 0 sample_teamkill None None
               = Ok b2)
    as [b2 H2] by (eexists; vm_compute; reflexivity).
  destruct (parse_logs_concat utc_platform utc_timestamp 0 sample_raw
    sample_teamkill
              None None b1 b2 H1 H2) as (b & Hb & Hlogs & _).
  by exists b1, b2, b.
Defined.

(** ** The commands of the cached operations *)

Section CommandFacts.
Context {other : Type}.
Variable super_get_profanities :
  list Cached.command -> result (list string) * list Cached.command.
Variable super_get_map_rotation :
  list Cached.command -> result (list string) * list Cached.command.
Variable map_ok : string -> bool.

Abbreviation M := (Cached.M (list Cached.command) other).

Lemma sends_remotely (c : Cached.command) :
  sends (Cached.remotely (list Cached.command) other (log_super c)) [c].
Proof. intros w. by eexists _, _. Qed.

Lemma sends_bind {A B : Type} (m : M A) (f : A -> M B)
  (x y : list Cached.command) :
  sends m x -> (forall a, sends (f a) y) -> sends (m ≫= f) (x ++ y).
Proof.
  intros Hm Hf w. destruct (Hm w) as (a & w1 & Hmw & Hs1).
  destruct (Hf a w1) as (b & w2 & Hfw & Hs2).
  exists b, w2. unfold mbind, Cached.M_bind. rewrite Hmw, Hfw.
  split; [done|]. by rewrite Hs2, Hs1, app_assoc.
Qed.

Lemma sends_mret {A : Type} (a : A) : sends (mret a : M A) [].
Proof. intros w. exists a, w. split; [done|]. by rewrite app_nil_r. Qed.

Lemma sends_invalidates {A : Type} (keys : list string) (body : M A)
  (x : list Cached.command) :
  sends body x -> sends (Cached.invalidates (list Cached.command) other keys
    body) x.
Proof.
  intros Hbody w. destruct (Hbody w) as (a & w1 & Hw & Hs).
  unfold Cached.invalidates. rewrite Hw. by eexists _, _.
Qed.

Lemma sends_for_each {A : Type} (f : A -> Cached.command) (l : list A) :
  sends (Cached.for_each_ (list Cached.command) other
           (fun x => Cached.remotely (list Cached.command) other (log_super (f
             x))) l)
    (f <$> l).
Proof.
  induction l as [|x l IH]; cbn [Cached.for_each_ fmap list_fmap];
    [apply sends_mret|].
  apply (sends_bind _ _ [f x]); [apply sends_remotely|by intros _].
Qed.

Lemma sends_add_maps (maps : list string) :
  sends (Cached.do_add_maps_to_rotation (list Cached.command) other log_super
    maps)
    (Cached.DoAddMapToRotation <$> maps).
Proof.
  apply sends_invalidates.
  rewrite <- (app_nil_r (Cached.DoAddMapToRotation <$> maps)).
  apply sends_bind; [apply sends_for_each|intros _; apply sends_mret].
Qed.

Lemma sends_remove_maps (maps : list string) :
  sends (Cached.do_remove_maps_from_rotation (list Cached.command) other
    log_super maps)
    (Cached.DoRemoveMapFromRotation <$> maps).
Proof.
  apply sends_invalidates.
  rewrite <- (app_nil_r (Cached.DoRemoveMapFromRotation <$> maps)).
  apply sends_bind; [apply sends_for_each|intros _; apply sends_mret].
Qed.

Lemma sends_run_calls {A : Type} (calls : list (M A))
  (blocks : list (list Cached.command)) :
  Forall2 sends calls blocks ->
  sends (Cached.run_calls (list Cached.command) other calls) (concat blocks).
Proof.
  induction 1 as [|call x calls blocks Hcall _ IH]; [apply sends_mret|].
  cbn [concat]. unfold Cached.run_calls. cbn [Cached.for_each_].
  apply sends_bind; [exact Hcall|by intros _].
Qed.

Lemma Forall2_concat_imap {A B C : Type} (R : B -> C -> Prop) (l : list A) :
  forall (f : nat -> A -> list B) (g : nat -> A -> list C),
    (forall i x, Forall2 R (f i x) (g i x)) ->
    Forall2 R (concat (imap f l)) (concat (imap g l)).
Proof.
  induction l as [|x l IH]; intros f g H; cbn [imap concat]; [constructor|].
  apply Forall2_app; [apply H|]. apply IH. intros i y. apply H.
Qed.

(** the calls of the block of [set_maprotation] send the commands of
    [set_maprotation], call by call *)
Lemma rotation_calls_send (current : list string) (first : string)
  (rest : list string) (r : list string) (ops : list op) :
  first :: rest <> current ->
  set_maprotation current (first :: rest) = Ok (r, ops) ->
  r = first :: rest
  /\ exists blocks,
       Forall2 sends
         (Cached.rotation_calls (list Cached.command) other log_super current
           first rest)
         blocks
       /\ concat blocks = rotation_command <$> ops.
Proof.
  intros Hne. unfold set_maprotation, Cached.rotation_calls.
  rewrite bool_decide_false by done.
  assert (forall calls (l : list op),
             Forall2 (fun call o => sends call [rotation_command o]) calls l ->
             exists blocks,
               Forall2 sends (calls : list (M string)) blocks
               /\ concat blocks = rotation_command <$> l) as Hsingle.
  { intros calls l H. exists ((fun o => [rotation_command o]) <$> l). split.
    - apply Forall2_fmap_r. eapply Forall2_impl; [exact H|done].
    - clear. induction l as [|o l IH]; [done|].
      cbn [fmap list_fmap concat app]. by rewrite IH. }
  destruct (length current =? 1).
  - intros [= <- <-]. split; [done|]. apply Hsingle.
    apply Forall2_app.
    + change (single_map_step current 0 first
              ++ concat (imap (single_map_step current ∘ S) rest))
        with (concat (imap (single_map_step current) (first :: rest))).
      apply Forall2_concat_imap. intros i m.
      unfold Cached.single_map_calls, single_map_step.
      apply Forall2_app.
      * case_bool_decide; repeat constructor. apply sends_add_maps.
      * destruct (_ && _); repeat constructor;
          [apply sends_remove_maps|apply sends_add_maps].
    + destruct current as [|c ?]; [constructor|].
      case_bool_decide; repeat constructor. apply sends_remove_maps.
  - intros [= <- <-]. split; [done|].
    set (to_remove := list_to_set current ∖ {[first]} : gset string).
    exists ((if bool_decide (to_remove = list_to_set current)
             then [[Cached.DoAddMapToRotation first]] else [])
            ++ [Cached.DoRemoveMapFromRotation <$> elements to_remove;
                Cached.DoAddMapToRotation <$> rest]).
    split.
    + apply Forall2_app.
      * case_bool_decide; repeat constructor. apply sends_add_maps.
      * repeat constructor; [apply sends_remove_maps|apply sends_add_maps].
    + rewrite concat_app, !fmap_app. cbn [concat]. rewrite app_nil_r.
      rewrite <- !list_fmap_compose. f_equal.
      by case_bool_decide.
Qed.

(** On a server that accepts every Cached.command, with the current rotation in
    the cache, [Cached.set_maprotation] returns what [set_maprotation]
    returns and sends the commands it lists, and raises when it raises. *)
Lemma cached_set_maprotation_commands (now : N) (rotation : list string)
  (current : list string) (expiry : N)
  (w : Cached.world (list Cached.command) other) :
  Cached.cache w !! "get_map_rotation"
  = Some (Cached.Strings current, expiry) ->
  (now < expiry)%N ->
  match set_maprotation current rotation with
  | Ok (r, ops) =>
      exists w',
        Cached.set_maprotation (list Cached.command) other log_super
          super_get_map_rotation map_ok now rotation w = (Ok r, w')
        /\ Cached.server w' = Cached.server w ++ (rotation_command <$> ops)
  | Raise e =>
      Cached.set_maprotation (list Cached.command) other log_super
        super_get_map_rotation map_ok now rotation w = (Raise e, w)
  end.
Proof.
  intros Hv Hnow.
  destruct rotation as [|first rest]; [done|].
  destruct (set_maprotation current (first :: rest)) as [[r ops]|e] eqn:Hset.
  - unfold Cached.set_maprotation. unfold mbind at 1. unfold Cached.M_bind at 1.
    rewrite (get_map_rotation_hit super_get_map_rotation map_ok now w
               current expiry Hv Hnow).
    case_bool_decide as Heq.
    + revert Hset. unfold set_maprotation. rewrite bool_decide_true by done.
      intros [= <- <-]. exists w. split; [done|]. by rewrite app_nil_r.
    + destruct (rotation_calls_send current first rest r ops Heq Hset)
        as (-> & blocks & Hcalls & Hcmds).
      destruct (sends_bind _ (fun _ => mret (first :: rest))
                  _ []
                  (sends_invalidates ["get_map_rotation"] _ _
                     (sends_run_calls _ _ Hcalls))
                  (fun _ => sends_mret _) w)
        as (a & w' & Hw & Hs).
      assert (a = first :: rest) as ->.
      { revert Hw. unfold mbind, Cached.M_bind.
        destruct (Cached.invalidates _ _ _ _ w) as [[u|e] w1]; [|done].
        by intros [= <- _]. }
      exists w'. split; [exact Hw|]. by rewrite Hs, app_nil_r, Hcmds.
  - revert Hset. unfold set_maprotation.
    case_bool_decide; [done|]. by destruct (length current =? 1).
Qed.

(** and so does [Cached.set_profanities] with [set_profanities] *)
Lemma cached_set_profanities_commands (now : N)
  (profanities current : list string) (expiry : N)
  (w : Cached.world (list Cached.command) other) :
  Cached.cache w !! "get_profanities" = Some (Cached.Strings current, expiry) ->
  (now < expiry)%N ->
  exists w',
    Cached.set_profanities (list Cached.command) other log_super
      super_get_profanities now profanities w
    = (Ok (fst (set_profanities current profanities)), w')
    /\ Cached.server w'
       = Cached.server w
         ++ (profanity_command <$> snd (set_profanities current profanities)).
Proof.
  intros Hv Hnow.
  unfold Cached.set_profanities. unfold mbind at 1. unfold Cached.M_bind at 1.
  rewrite (get_profanities_hit super_get_profanities now w current expiry
             Hv Hnow).
  assert (exists blocks,
             Forall2 sends
               (Cached.profanity_calls (list Cached.command) other log_super
                 current
                  profanities) blocks
             /\ concat blocks
                = profanity_command
                  <$> snd (set_profanities current profanities))
    as (blocks & Hcalls & Hcmds).
  { unfold Cached.profanity_calls, set_profanities. cbn [snd].
    set (removed := list_to_set current ∖ list_to_set profanities
                    : gset string).
    set (added := list_to_set profanities ∖ list_to_set current
                  : gset string).
    exists ((if bool_decide (removed = ∅) then []
             else [[Cached.DoUnbanProfanities
                      (Cached.join_commas (elements removed))]])
            ++ (if bool_decide (added = ∅) then []
                else [[Cached.DoBanProfanities
                         (Cached.join_commas (elements added))]])).
    split.
    - apply Forall2_app; case_bool_decide; repeat constructor;
        apply sends_invalidates, sends_remotely.
    - rewrite fmap_app, concat_app.
      f_equal; by case_bool_decide. }
  destruct (sends_bind _ (fun _ => mret profanities) _ []
              (sends_invalidates ["get_profanities"] _ _
                 (sends_run_calls _ _ Hcalls))
              (fun _ => sends_mret _) w)
    as (a & w' & Hw & Hs).
  assert (a = profanities) as ->.
  { revert Hw. unfold mbind, Cached.M_bind.
    destruct (Cached.invalidates _ _ _ _ w) as [[u|e] w1]; [|done].
    by intros [= <- _]. }
  exists w'. split; [exact Hw|]. by rewrite Hs, app_nil_r, Hcmds.
Qed.

End CommandFacts.
